(** * OS/161 synchronisation primitives (kern/thread/synch.c)

    A shallow embedding of the semaphore, lock and condition-variable code
    of [kern/thread/synch.c].

    - [Ext] holds the two collaborators the file is built on, the spinlock
      and the wait channel, which live in other files of the kernel.
    - [SemSteps] runs [P] and [V] one C statement at a time, for any number
      of threads and any interleaving.
    - [Synch] holds the remaining functions as state transformers over a
      kernel heap, each returning how the call ends (returned, panicked,
      asleep, spinning). *)

From Stdlib Require Import ZArith Lia.
From stdpp Require Import base decidable option list gmap strings.

(** ** Collaborators: spinlock and wait channel *)

Module Ext.

(** A [struct thread *] that is not NULL. *)
Definition tid := nat.

(** Modelled from the spec: the spinlock of spinlock.h (busy-wait mutual
    exclusion with [init], [acquire], [release], [cleanup]).  The holder
    is whatever [curthread] was when the spinlock was taken, NULL before
    threads exist. *)
Inductive spinlock : Type :=
| Unlocked
| LockedBy (holder : option tid).

(** Modelled from the spec: [init] leaves the spinlock available. *)
Definition spin_init : spinlock := Unlocked.

(** Modelled from the spec: [acquire] busy-waits until the spinlock is
    available; [None] is the caller still spinning. *)
Definition spin_acquire (me : option tid) (lk : spinlock) : option spinlock :=
  match lk with
  | Unlocked => Some (LockedBy me)
  | LockedBy _ => None
  end.

(** Modelled from the spec: [release] makes the spinlock available. *)
Definition spin_release (lk : spinlock) : spinlock := Unlocked.

(** Modelled from the spec: [cleanup] fails if the spinlock is still held. *)
Definition spin_cleanup (lk : spinlock) : bool :=
  match lk with
  | Unlocked => true
  | LockedBy _ => false
  end.

(** Modelled from the spec: the wait channel of wchan.h is a queue of
    blocked threads.  [enqueue] is the queue half of [sleep]. *)
Definition enqueue (me : tid) (q : list tid) : list tid := q ++ [me].

(** Modelled from the spec: [wake_one] wakes one queued thread, any of
    them (ordering among waiters is unspecified); [pick] is the
    scheduler's choice.  On an empty queue nothing happens. *)
Definition wake_one (pick : nat) (q : list tid) : option tid * list tid :=
  match q with
  | [] => (None, [])
  | _ :: _ => let k := (pick mod length q)%nat in (q !! k, delete k q)
  end.

(** Modelled from the spec: [wake_all] wakes every queued thread. *)
Definition wake_all (q : list tid) : list tid * list tid := (q, []).

(** Modelled from the spec: [destroy(channel)] fails if non-empty. *)
Definition wchan_destroy_ok (q : list tid) : bool :=
  match q with
  | [] => true
  | _ :: _ => false
  end.

(** Modelled from the spec: the counters of synch.h are C [unsigned]
    (sem_create stores an [unsigned initial_count]); 32 bits wide,
    arithmetic wraps. *)
Definition UINT_MOD : Z := 2 ^ 32.
Definition uint_incr (z : Z) : Z := ((z + 1) mod UINT_MOD)%Z.
Definition uint_decr (z : Z) : Z := ((z - 1) mod UINT_MOD)%Z.

End Ext.

(** ** [P] and [V], statement by statement *)

Module SemSteps.
Import Ext.

(** Where a thread stands; the numbers are lines of synch.c. *)
Inductive pc : Type :=
| Idle            (* outside P and V *)
| P102            (* spinlock_acquire(&sem->sem_lock) *)
| P103            (* while (sem->sem_count == 0) *)
| P116            (* wchan_sleep(sem->sem_wchan, &sem->sem_lock) *)
| P116_asleep     (* ... on the queue, spinlock given up *)
| P116_woken      (* ... woken, taking the spinlock back *)
| P118            (* KASSERT(sem->sem_count > 0) *)
| P119            (* sem->sem_count-- *)
| P120            (* spinlock_release(&sem->sem_lock) *)
| V128            (* spinlock_acquire(&sem->sem_lock) *)
| V130            (* sem->sem_count++ *)
| V131            (* KASSERT(sem->sem_count > 0) *)
| V132            (* wchan_wakeone(sem->sem_wchan, &sem->sem_lock) *)
| V134.           (* spinlock_release(&sem->sem_lock) *)

Record thread : Type := mkThread {
  t_pc : pc;
  t_in_interrupt : bool
}.

(** The one semaphore the threads share, the thread table, the panic
    flag, and two history counters (calls of P and of V that returned). *)
Record world : Type := mkWorld {
  sem_count : Z;
  sem_lock : spinlock;
  sem_wchan : list tid;
  threads : tid -> thread;
  panicked : option nat;
  P_returns : Z;
  V_returns : Z
}.

(** What the scheduler lets a thread do next: enter [P] or [V] with a
    semaphore pointer (NULL is [None]), or run its next statement;
    [pick] only matters at [wchan_wakeone]. *)
Inductive action : Type :=
| CallP (sem : option unit)
| CallV (sem : option unit)
| Run (pick : nat).

Definition set_pc (i : tid) (p : pc) (ts : tid -> thread) : tid -> thread :=
  fun j => if decide (j = i) then mkThread p (t_in_interrupt (ts j)) else ts j.

(** A thread taken off the wait channel continues inside [wchan_sleep]. *)
Definition wake_pc (p : pc) : pc :=
  match p with
  | P116_asleep => P116_woken
  | _ => p
  end.

Definition wake (woken : option tid) (ts : tid -> thread) : tid -> thread :=
  match woken with
  | None => ts
  | Some j => set_pc j (wake_pc (t_pc (ts j))) ts
  end.

Definition goto (i : tid) (p : pc) (w : world) : world :=
  mkWorld (sem_count w) (sem_lock w) (sem_wchan w) (set_pc i p (threads w))
          (panicked w) (P_returns w) (V_returns w).

Definition panic (line : nat) (w : world) : world :=
  mkWorld (sem_count w) (sem_lock w) (sem_wchan w) (threads w)
          (Some line) (P_returns w) (V_returns w).

Definition with_count (c : Z) (w : world) : world :=
  mkWorld c (sem_lock w) (sem_wchan w) (threads w)
          (panicked w) (P_returns w) (V_returns w).

Definition with_lock (lk : spinlock) (w : world) : world :=
  mkWorld (sem_count w) lk (sem_wchan w) (threads w)
          (panicked w) (P_returns w) (V_returns w).

Definition with_wchan (q : list tid) (w : world) : world :=
  mkWorld (sem_count w) (sem_lock w) q (threads w)
          (panicked w) (P_returns w) (V_returns w).

Definition with_threads (ts : tid -> thread) (w : world) : world :=
  mkWorld (sem_count w) (sem_lock w) (sem_wchan w) ts
          (panicked w) (P_returns w) (V_returns w).

Definition P_returned (w : world) : world :=
  mkWorld (sem_count w) (sem_lock w) (sem_wchan w) (threads w)
          (panicked w) (P_returns w + 1) (V_returns w).

Definition V_returned (w : world) : world :=
  mkWorld (sem_count w) (sem_lock w) (sem_wchan w) (threads w)
          (panicked w) (P_returns w) (V_returns w + 1).

(** [spinlock_acquire(&sem->sem_lock)] by thread [i], then on to [next];
    no step while the spinlock is held. *)
Definition acquire_then (i : tid) (next : pc) (w : world) : option world :=
  lk ← spin_acquire (Some i) (sem_lock w);
  Some (goto i next (with_lock lk w)).

(** One statement of thread [i].  [None]: the thread cannot move (it is
    asleep, it spins, the kernel has panicked, or the action does not
    fit where it stands). *)
Definition step (i : tid) (a : action) (w : world) : option world :=
  match panicked w with
  | Some _ => None
  | None =>
    match t_pc (threads w i), a with
    | Idle, CallP sem =>
        (* KASSERT(sem != NULL); KASSERT(curthread->t_in_interrupt == false) *)
        match sem with
        | None => Some (panic 91 w)
        | Some _ =>
            if t_in_interrupt (threads w i) then Some (panic 99 w)
            else Some (goto i P102 w)
        end
    | Idle, CallV sem =>
        (* KASSERT(sem != NULL) *)
        match sem with
        | None => Some (panic 126 w)
        | Some _ => Some (goto i V128 w)
        end
    | P102, Run _ => acquire_then i P103 w
    | P103, Run _ =>
        if (sem_count w =? 0)%Z then Some (goto i P116 w)
        else Some (goto i P118 w)
    | P116, Run _ =>
        (* enqueue and release the spinlock in one step, then block *)
        Some (goto i P116_asleep
                (with_lock (spin_release (sem_lock w))
                   (with_wchan (enqueue i (sem_wchan w)) w)))
    | P116_asleep, Run _ => None
    | P116_woken, Run _ => acquire_then i P103 w
    | P118, Run _ =>
        if (0 <? sem_count w)%Z then Some (goto i P119 w)
        else Some (panic 118 w)
    | P119, Run _ => Some (goto i P120 (with_count (uint_decr (sem_count w)) w))
    | P120, Run _ =>
        Some (P_returned (goto i Idle (with_lock (spin_release (sem_lock w)) w)))
    | V128, Run _ => acquire_then i V130 w
    | V130, Run _ => Some (goto i V131 (with_count (uint_incr (sem_count w)) w))
    | V131, Run _ =>
        if (0 <? sem_count w)%Z then Some (goto i V132 w)
        else Some (panic 131 w)
    | V132, Run pick =>
        let '(woken, q) := wake_one pick (sem_wchan w) in
        Some (goto i V134 (with_threads (wake woken (threads w)) (with_wchan q w)))
    | V134, Run _ =>
        Some (V_returned (goto i Idle (with_lock (spin_release (sem_lock w)) w)))
    | _, _ => None
    end
  end.

(** A schedule is a list of (thread, action); [run] follows it. *)
Fixpoint run (sched : list (tid * action)) (w : world) : option world :=
  match sched with
  | [] => Some w
  | (i, a) :: rest => w' ← step i a w; run rest w'
  end.

(** The world right after [sem_create(name, initial_count)] returned the
    semaphore: count stored, spinlock initialised, queue empty, every
    thread outside [P] and [V].  [irq i] is thread [i]'s
    [t_in_interrupt]. *)
Definition init (initial_count : Z) (irq : tid -> bool) : world :=
  mkWorld initial_count spin_init [] (fun i => mkThread Idle (irq i))
          None 0 0.

End SemSteps.


(** ** The rest of synch.c over a kernel heap *)

Module Synch.

Abbreviation tid := Ext.tid.
Abbreviation spinlock := Ext.spinlock.
Abbreviation addr := nat (only parsing).

(** A C pointer: NULL is [None]. *)
Abbreviation ptr := (option nat) (only parsing).
Abbreviation NULL := (@None nat) (only parsing).

Definition nonnull {A : Type} (p : option A) : bool :=
  match p with
  | Some _ => true
  | None => false
  end.

(** Modelled from the spec: a wait channel (wchan.h) is a named queue of
    blocked threads. *)
Record wchan : Type := mkWchan {
  wc_name : ptr;
  wc_threads : list tid
}.

(** Modelled from the spec: the three structures are declared in synch.h;
    their fields are the ones synch.c reads and writes.  Names and wait
    channels are pointers, spinlocks are embedded, [sem_count] is the
    spec's unsigned count and [flagLocked], which synch.c increments and
    compares with 0 like [sem_count], is taken as unsigned too; [owner] is
    a [struct thread *]. *)
Record semaphore : Type := mkSem {
  sem_name : ptr;
  sem_wchan : ptr;
  sem_lock : spinlock;
  sem_count : Z
}.

Record lock : Type := mkLock {
  lk_name : ptr;
  lockWchan : ptr;
  lockProtect : spinlock;
  flagLocked : Z;
  owner : option tid
}.

Record cv : Type := mkCv {
  cv_name : ptr;
  cvWchan : ptr;
  cvLock : spinlock
}.

Inductive object : Type :=
| OString (s : string)
| OWchan (w : wchan)
| OSem (s : semaphore)
| OLock (l : lock)
| OCv (c : cv).

(** [&sem->sem_lock], [&lock->lockProtect], [&cv->cvLock]. *)
Inductive spin_ref : Type :=
| sem_lock_of (sem : ptr)
| lockProtect_of (lock : ptr)
| cvLock_of (cv : ptr).

(** Calls into the collaborators, in the order they were made. *)
Inductive event : Type :=
| EvSpinAcquire (r : spin_ref)
| EvSpinRelease (r : spin_ref)
| EvWchanLock (wc : ptr)
| EvSleep (wc : ptr) (released : option spin_ref)
| EvWakeOne (wc : ptr) (woken : option tid)
| EvWakeAll (wc : ptr) (woken : list tid)
| EvFree (a : addr).

(** The kernel's memory: live blocks, the next fresh address, the
    outcomes of the allocations to come ([false]: out of memory; when
    the list runs out, memory is plentiful), and the event log. *)
Record kstate : Type := mkK {
  heap : gmap nat object;
  brk : addr;
  alloc_ok : list bool;
  log : list event
}.

(** What the running code sees of its processor.  [CURCPU_EXISTS] is a
    macro of current.h, taken as given; [t_in_interrupt] is
    [curthread->t_in_interrupt]; [wake_pick] is the scheduler's choice at
    a wake-one. *)
Record cpu : Type := mkCpu {
  curthread : option tid;
  CURCPU_EXISTS : bool;
  t_in_interrupt : bool;
  wake_pick : nat
}.

Inductive fatal : Type :=
| KASSERT_failed (line : nat)
| spinlock_still_held      (* spinlock_cleanup on a held spinlock *)
| wchan_not_empty          (* wchan_destroy with sleepers queued *)
| bad_pointer.             (* access through NULL or a stale pointer *)

(** How a call ends. *)
Inductive outcome (A : Type) : Type :=
| Done (a : A) (k : kstate)             (* returned *)
| Panic (why : fatal) (k : kstate)      (* the kernel stopped *)
| Asleep (wc : ptr) (k : kstate)        (* blocked in wchan_sleep *)
| Spinning (r : spin_ref) (k : kstate). (* busy-waiting in spinlock_acquire *)
Arguments Done {A} a k.
Arguments Panic {A} why k.
Arguments Asleep {A} wc k.
Arguments Spinning {A} r k.

Definition K (A : Type) : Type := cpu → kstate → outcome A.

#[export] Instance K_ret : MRet K := λ A a _ k, Done a k.

#[export] Instance K_bind : MBind K := λ A B f m c k,
  match m c k with
  | Done a k' => f a c k'
  | Panic why k' => Panic why k'
  | Asleep wc k' => Asleep wc k'
  | Spinning r k' => Spinning r k'
  end.

Definition ask : K cpu := λ c k, Done c k.
Definition die {A : Type} (why : fatal) : K A := λ _ k, Panic why k.
Definition block_on (wc : ptr) : K unit := λ _ k, Asleep wc k.
Definition spin_on (r : spin_ref) : K unit := λ _ k, Spinning r k.

(** Modelled from the spec: [KASSERT] (lib.h) is the fatal assertion: it
    evaluates its expression and stops the kernel when it is zero;
    [line] is where the assertion stands in synch.c. *)
Definition KASSERT (line : nat) (b : bool) : K unit :=
  if b then mret () else die (KASSERT_failed line).

Definition set_heap (h : gmap nat object) (k : kstate) : kstate :=
  mkK h (brk k) (alloc_ok k) (log k).

Definition emit (e : event) : K unit :=
  λ _ k, Done () (mkK (heap k) (brk k) (alloc_ok k) (log k ++ [e])).

(** *** Memory *)

Definition as_wchan (o : object) : option wchan :=
  match o with OWchan w => Some w | _ => None end.
Definition as_sem (o : object) : option semaphore :=
  match o with OSem s => Some s | _ => None end.
Definition as_lock (o : object) : option lock :=
  match o with OLock l => Some l | _ => None end.
Definition as_cv (o : object) : option cv :=
  match o with OCv c => Some c | _ => None end.

(** [*p] read as the structure [view] selects. *)
Definition load {A : Type} (view : object → option A) (p : ptr) : K A :=
  λ _ k,
    match p with
    | None => Panic bad_pointer k
    | Some a =>
        match heap k !! a ≫= view with
        | Some x => Done x k
        | None => Panic bad_pointer k
        end
    end.

Definition store (p : ptr) (o : object) : K unit :=
  λ _ k,
    match p with
    | None => Panic bad_pointer k
    | Some a => Done () (set_heap (<[a := o]> (heap k)) k)
    end.

(** [p->field] and [p->field = v] for each structure. *)
Definition wchan_get {A : Type} (f : wchan → A) (p : ptr) : K A :=
  w ← load as_wchan p; mret (f w).
Definition wchan_set (upd : wchan → wchan) (p : ptr) : K unit :=
  w ← load as_wchan p; store p (OWchan (upd w)).
Definition sem_get {A : Type} (f : semaphore → A) (p : ptr) : K A :=
  s ← load as_sem p; mret (f s).
Definition sem_set (upd : semaphore → semaphore) (p : ptr) : K unit :=
  s ← load as_sem p; store p (OSem (upd s)).
Definition lock_get {A : Type} (f : lock → A) (p : ptr) : K A :=
  l ← load as_lock p; mret (f l).
Definition lock_set (upd : lock → lock) (p : ptr) : K unit :=
  l ← load as_lock p; store p (OLock (upd l)).
Definition cv_get {A : Type} (f : cv → A) (p : ptr) : K A :=
  c ← load as_cv p; mret (f c).
Definition cv_set (upd : cv → cv) (p : ptr) : K unit :=
  c ← load as_cv p; store p (OCv (upd c)).

Definition set_wc_threads (q : list tid) (w : wchan) : wchan :=
  mkWchan (wc_name w) q.

Definition set_sem_name (v : ptr) (s : semaphore) : semaphore :=
  mkSem v (sem_wchan s) (sem_lock s) (sem_count s).
Definition set_sem_wchan (v : ptr) (s : semaphore) : semaphore :=
  mkSem (sem_name s) v (sem_lock s) (sem_count s).
Definition set_sem_lock (v : spinlock) (s : semaphore) : semaphore :=
  mkSem (sem_name s) (sem_wchan s) v (sem_count s).
Definition set_sem_count (v : Z) (s : semaphore) : semaphore :=
  mkSem (sem_name s) (sem_wchan s) (sem_lock s) v.

Definition set_lk_name (v : ptr) (l : lock) : lock :=
  mkLock v (lockWchan l) (lockProtect l) (flagLocked l) (owner l).
Definition set_lockWchan (v : ptr) (l : lock) : lock :=
  mkLock (lk_name l) v (lockProtect l) (flagLocked l) (owner l).
Definition set_lockProtect (v : spinlock) (l : lock) : lock :=
  mkLock (lk_name l) (lockWchan l) v (flagLocked l) (owner l).
Definition set_flagLocked (v : Z) (l : lock) : lock :=
  mkLock (lk_name l) (lockWchan l) (lockProtect l) v (owner l).
Definition set_owner (v : option tid) (l : lock) : lock :=
  mkLock (lk_name l) (lockWchan l) (lockProtect l) (flagLocked l) v.

Definition set_cv_name (v : ptr) (c : cv) : cv :=
  mkCv v (cvWchan c) (cvLock c).
Definition set_cvLock (v : spinlock) (c : cv) : cv :=
  mkCv (cv_name c) (cvWchan c) v.

(** Modelled from the spec: an allocator either hands out a fresh block
    or fails; [o] is what the block holds at first (for [kmalloc],
    whatever was there before). *)
Definition alloc (o : object) : K ptr :=
  λ _ k,
    match alloc_ok k with
    | false :: rest => Done NULL (mkK (heap k) (brk k) rest (log k))
    | ok =>
        Done (Some (brk k))
             (mkK (<[brk k := o]> (heap k)) (S (brk k)) (tail ok) (log k))
    end.

(** Modelled from the spec: [kmalloc] does not clear the block it hands
    out; [junk] is what the block held. *)
Definition kmalloc (junk : object) : K ptr := alloc junk.

(** Modelled from the spec: [kstrdup] allocates a copy of the string. *)
Definition kstrdup (s : string) : K ptr := alloc (OString s).

(** Modelled from the spec: [kfree] gives a block back; freeing NULL does
    nothing. *)
Definition kfree (p : ptr) : K unit :=
  λ c k,
    match p with
    | None => Done () k
    | Some a =>
        match heap k !! a with
        | Some _ => emit (EvFree a) c (set_heap (delete a (heap k)) k)
        | None => Panic bad_pointer k
        end
    end.

(** *** Spinlocks and wait channels, as called from synch.c *)

Definition load_spin (r : spin_ref) : K spinlock :=
  match r with
  | sem_lock_of p => sem_get sem_lock p
  | lockProtect_of p => lock_get lockProtect p
  | cvLock_of p => cv_get cvLock p
  end.

Definition store_spin (r : spin_ref) (v : spinlock) : K unit :=
  match r with
  | sem_lock_of p => sem_set (set_sem_lock v) p
  | lockProtect_of p => lock_set (set_lockProtect v) p
  | cvLock_of p => cv_set (set_cvLock v) p
  end.

(** The four spinlock calls and the wait-channel calls below apply the
    operations of [Ext] to the structure the pointer leads to. *)
Definition spinlock_init (r : spin_ref) : K unit :=
  store_spin r Ext.spin_init.

(** Modelled from the spec: lock_create calls [spinlock_initialize], a
    name spinlock.h is not known to have; it is read as [spinlock_init]. *)
Definition spinlock_initialize (r : spin_ref) : K unit := spinlock_init r.

Definition spinlock_acquire (r : spin_ref) : K unit :=
  c ← ask;
  lk ← load_spin r;
  match Ext.spin_acquire (curthread c) lk with
  | Some lk' => store_spin r lk' ;; emit (EvSpinAcquire r)
  | None => spin_on r
  end.

Definition spinlock_release (r : spin_ref) : K unit :=
  lk ← load_spin r;
  store_spin r (Ext.spin_release lk) ;;
  emit (EvSpinRelease r).

Definition spinlock_cleanup (r : spin_ref) : K unit :=
  lk ← load_spin r;
  if Ext.spin_cleanup lk then mret () else die spinlock_still_held.

(** Modelled from the spec: [create(name)] gives a channel with nobody
    queued, or fails. *)
Definition wchan_create (name : ptr) : K ptr := alloc (OWchan (mkWchan name [])).

(** Modelled from the spec: [destroy(channel)] fails if the channel is
    not empty, and frees it otherwise. *)
Definition wchan_destroy (wc : ptr) : K unit :=
  q ← wchan_get wc_threads wc;
  if Ext.wchan_destroy_ok q then kfree wc else die wchan_not_empty.

(** Modelled from the spec: [wchan_lock] belongs to no wait-channel
    operation the spec lists; the call is logged and changes nothing. *)
Definition wchan_lock (wc : ptr) : K unit :=
  _ ← load as_wchan wc; emit (EvWchanLock wc).

(** Modelled from the spec: [sleep] puts the caller on the queue, gives
    up the spinlock it was handed (none when synch.c passes none) and
    blocks.  The call ends [Asleep]; the caller's code after the wake-up
    is a function of its own, named [..._wake]. *)
Definition wchan_sleep (wc : ptr) (lk : option spin_ref) : K unit :=
  c ← ask;
  q ← wchan_get wc_threads wc;
  match curthread c with
  | None => die bad_pointer
  | Some me =>
      wchan_set (set_wc_threads (Ext.enqueue me q)) wc ;;
      match lk with
      | Some r => spinlock_release r
      | None => mret ()
      end ;;
      emit (EvSleep wc lk) ;;
      block_on wc
  end.

(** Modelled from the spec: [wake_one] and [wake_all] are called with the
    spinlock that guards the channel held; they take sleepers off the
    queue. *)
Definition wchan_wakeone (wc : ptr) (lk : spin_ref) : K unit :=
  c ← ask;
  q ← wchan_get wc_threads wc;
  let '(woken, q') := Ext.wake_one (wake_pick c) q in
  wchan_set (set_wc_threads q') wc ;;
  emit (EvWakeOne wc woken).

Definition wchan_wakeall (wc : ptr) (lk : spin_ref) : K unit :=
  q ← wchan_get wc_threads wc;
  let '(woken, q') := Ext.wake_all q in
  wchan_set (set_wc_threads q') wc ;;
  emit (EvWakeAll wc woken).

(** *** Semaphore: creation and destruction *)

(** [initial_count] is the value of the [unsigned] parameter as the
    function receives it, a number with 0 <= initial_count < 2^32; the
    theorems that state the stored count assume that range. *)
Definition sem_create (name : string) (initial_count : Z) (junk : semaphore) : K ptr :=
  sem ← kmalloc (OSem junk);
  if negb (nonnull sem) then mret NULL else
  nm ← kstrdup name; sem_set (set_sem_name nm) sem ;;
  nm ← sem_get sem_name sem;
  if negb (nonnull nm) then kfree sem ;; mret NULL else
  nm ← sem_get sem_name sem;
  wc ← wchan_create nm; sem_set (set_sem_wchan wc) sem ;;
  wc ← sem_get sem_wchan sem;
  if negb (nonnull wc) then
    nm ← sem_get sem_name sem; kfree nm ;;
    kfree sem ;;
    mret NULL
  else
  spinlock_init (sem_lock_of sem) ;;
  sem_set (set_sem_count initial_count) sem ;;
  mret sem.

Definition sem_destroy (sem : ptr) : K unit :=
  KASSERT 79 (nonnull sem) ;;
  spinlock_cleanup (sem_lock_of sem) ;;
  wc ← sem_get sem_wchan sem; wchan_destroy wc ;;
  nm ← sem_get sem_name sem; kfree nm ;;
  kfree sem.

(** *** Lock *)

Definition lock_create (name : string) (junk : lock) : K ptr :=
  lock ← kmalloc (OLock junk);
  if negb (nonnull lock) then mret NULL else
  nm ← kstrdup name; lock_set (set_lk_name nm) lock ;;
  nm ← lock_get lk_name lock;
  if negb (nonnull nm) then kfree lock ;; mret NULL else
  nm ← lock_get lk_name lock;
  wc ← wchan_create nm; lock_set (set_lockWchan wc) lock ;;
  wc ← lock_get lockWchan lock;
  if negb (nonnull wc) then
    nm ← lock_get lk_name lock; kfree nm ;;
    kfree lock ;;
    mret NULL
  else
  spinlock_initialize (lockProtect_of lock) ;;
  lock_set (set_flagLocked 1) lock ;;
  lock_set (set_owner None) lock ;;
  mret lock.

Definition lock_destroy (lock : ptr) : K unit :=
  KASSERT 180 (nonnull lock) ;;
  spinlock_cleanup (lockProtect_of lock) ;;
  wc ← lock_get lockWchan lock; wchan_destroy wc ;;
  nm ← lock_get lk_name lock; kfree nm ;;
  kfree lock.

(** [curthread->t_in_interrupt]: reads through [curthread]. *)
Definition curthread_in_interrupt : K bool :=
  c ← ask;
  if nonnull (curthread c) then mret (t_in_interrupt c) else die bad_pointer.

(** The [while] loop of lock_acquire and what follows it, entered with
    the spinlock held.  A turn of the loop ends asleep; the loop is
    entered again from [lock_acquire_wake]. *)
Definition lock_acquire_loop (lock : ptr) : K unit :=
  fl ← lock_get flagLocked lock;
  if (fl =? 0)%Z then
    wc ← lock_get lockWchan lock; wchan_lock wc ;;
    spinlock_release (lockProtect_of lock) ;;
    wc ← lock_get lockWchan lock; wchan_sleep wc None
  else
    fl ← lock_get flagLocked lock; KASSERT 223 (0 <? fl)%Z ;;
    lock_set (set_flagLocked 0) lock ;;
    c ← ask;
    (if CURCPU_EXISTS c then lock_set (set_owner (curthread c)) lock
     else lock_set (set_owner None) lock) ;;
    spinlock_release (lockProtect_of lock).

Definition lock_acquire (lock : ptr) : K unit :=
  KASSERT 198 (nonnull lock) ;;
  irq ← curthread_in_interrupt; KASSERT 201 (negb irq) ;;
  c ← ask;
  (if CURCPU_EXISTS c then
     o ← lock_get owner lock; KASSERT 206 (negb (bool_decide (o = curthread c)))
   else mret ()) ;;
  spinlock_acquire (lockProtect_of lock) ;;
  lock_acquire_loop lock.

(** lock_acquire from the return of [wchan_sleep] on. *)
Definition lock_acquire_wake (lock : ptr) : K unit :=
  spinlock_acquire (lockProtect_of lock) ;;
  lock_acquire_loop lock.

Definition lock_release (lock : ptr) : K unit :=
  KASSERT 250 (nonnull lock) ;;
  spinlock_acquire (lockProtect_of lock) ;;
  c ← ask;
  (if CURCPU_EXISTS c then
     (* KASSERT(lock->owner = curthread): stores, then tests what it stored *)
     lock_set (set_owner (curthread c)) lock ;;
     o ← lock_get owner lock; KASSERT 257 (nonnull o)
   else mret ()) ;;
  fl ← lock_get flagLocked lock; lock_set (set_flagLocked (Ext.uint_incr fl)) lock ;;
  fl ← lock_get flagLocked lock; KASSERT 261 (0 <? fl)%Z ;;
  wc ← lock_get lockWchan lock; wchan_wakeone wc (lockProtect_of lock) ;;
  spinlock_release (lockProtect_of lock).

Definition lock_do_i_hold (lock : ptr) : K bool :=
  c ← ask;
  if CURCPU_EXISTS c then mret true
  else o ← lock_get owner lock; mret (bool_decide (o = curthread c)).

(** *** Condition variable *)

Definition cv_create (name : string) (junk : cv) : K ptr :=
  cv ← kmalloc (OCv junk);
  if negb (nonnull cv) then mret NULL else
  nm ← kstrdup name; cv_set (set_cv_name nm) cv ;;
  nm ← cv_get cv_name cv;
  if negb (nonnull nm) then kfree cv ;; mret NULL else
  nm ← cv_get cv_name cv;
  wc ← wchan_create nm; cv_set (set_cv_name wc) cv ;;
  wc ← cv_get cvWchan cv;
  if negb (nonnull wc) then
    nm ← cv_get cv_name cv; kfree nm ;;
    kfree cv ;;
    mret NULL
  else
  spinlock_init (cvLock_of cv) ;;
  mret cv.

Definition cv_destroy (cv : ptr) : K unit :=
  KASSERT 326 (nonnull cv) ;;
  spinlock_cleanup (cvLock_of cv) ;;
  wc ← cv_get cvWchan cv; wchan_destroy wc ;;
  nm ← cv_get cv_name cv; kfree nm ;;
  kfree cv.

(** cv_wait up to and into [wchan_sleep]. *)
Definition cv_wait (cv lock : ptr) : K unit :=
  KASSERT 345 (nonnull cv) ;;
  KASSERT 346 (nonnull lock) ;;
  spinlock_acquire (cvLock_of cv) ;;
  lock_release lock ;;
  wc ← cv_get cvWchan cv; wchan_sleep wc None.

(** cv_wait from the return of [wchan_sleep] on. *)
Definition cv_wait_wake (cv lock : ptr) : K unit :=
  spinlock_release (cvLock_of cv) ;;
  lock_acquire lock.

Definition cv_signal (cv lock : ptr) : K unit :=
  KASSERT 371 (nonnull cv) ;;
  KASSERT 372 (nonnull lock) ;;
  spinlock_acquire (cvLock_of cv) ;;
  wc ← cv_get cvWchan cv; wchan_wakeone wc (cvLock_of cv) ;;
  spinlock_release (cvLock_of cv).

Definition cv_broadcast (cv lock : ptr) : K unit :=
  KASSERT 389 (nonnull cv) ;;
  KASSERT 390 (nonnull lock) ;;
  spinlock_acquire (cvLock_of cv) ;;
  wc ← cv_get cvWchan cv; wchan_wakeall wc (cvLock_of cv) ;;
  spinlock_release (cvLock_of cv).

End Synch.

(** ** Invariants of the semaphore steps *)

Module SemInv.
Import Ext SemSteps.

(** Statements executed with [sem_lock] held. *)
Definition in_cs (p : pc) : bool :=
  match p with
  | P103 | P116 | P118 | P119 | P120 | V130 | V131 | V132 | V134 => true
  | Idle | P102 | P116_asleep | P116_woken | V128 => false
  end.

(** Where the thread that holds the spinlock stands. *)
Definition holder_pc (w : world) : option pc :=
  match sem_lock w with
  | LockedBy (Some h) => Some (t_pc (threads w h))
  | _ => None
  end.

(** The units a semaphore created with [n] has left once every call that
    returned is accounted for. *)
Definition balance (n : Z) (w : world) : Z := (n + V_returns w - P_returns w)%Z.

(** The counter against the balance; the holder may be half-way through
    its update. *)
Definition count_ok (n : Z) (w : world) : Prop :=
  match holder_pc w with
  | Some P118 => sem_count w = balance n w ∧ sem_count w ≠ 0%Z
  | Some P119 => sem_count w = balance n w ∧ (0 < sem_count w)%Z
  | Some P120 => sem_count w = (balance n w - 1)%Z
  | Some V131 =>
      sem_count w = ((balance n w + 1) mod UINT_MOD)%Z
      ∧ (0 ≤ balance n w < UINT_MOD)%Z
  | Some V132 | Some V134 =>
      sem_count w = (balance n w + 1)%Z ∧ (0 < sem_count w)%Z
  | _ => sem_count w = balance n w
  end.

Record sem_inv (n : Z) (w : world) : Prop := mkSemInv {
  inv_range : (0 ≤ sem_count w < UINT_MOD)%Z;
  inv_mutex : ∀ i, in_cs (t_pc (threads w i)) = true → sem_lock w = LockedBy (Some i);
  inv_count : count_ok n w
}.

(** Schedules used as concrete runs. *)
Definition TA : tid := 0%nat.
Definition TB : tid := 1%nat.
Definition no_irq : tid → bool := fun _ => false.

(** What threads TA and TB and the semaphore look like: where TA stands,
    where TB stands, the count, the spinlock, the wait channel, the panic
    flag, and the calls of P and of V that returned. *)
Definition snapshot (w : world)
    : pc * pc * Z * spinlock * list tid * option nat * Z * Z :=
  (t_pc (threads w TA), t_pc (threads w TB), sem_count w, sem_lock w,
   sem_wchan w, panicked w, P_returns w, V_returns w).

(** TA calls P on a semaphore with count 0 and goes to sleep. *)
Definition TA_blocks : list (tid * action) :=
  [(TA, CallP (Some ())); (TA, Run 0); (TA, Run 0); (TA, Run 0)].
(** TB calls V, start to end. *)
Definition TB_releases : list (tid * action) :=
  [(TB, CallV (Some ())); (TB, Run 0); (TB, Run 0); (TB, Run 0); (TB, Run 0); (TB, Run 0)].
(** TA, woken, finishes its P. *)
Definition TA_finishes : list (tid * action) :=
  [(TA, Run 0); (TA, Run 0); (TA, Run 0); (TA, Run 0); (TA, Run 0)].

(** The world after the three schedules, one after the other. *)
Definition TA_and_TB_done : world :=
  default (init 0 no_irq)
          (run (TA_blocks ++ TB_releases ++ TA_finishes) (init 0 no_irq)).

(** Statements of [P], from taking the spinlock to giving it back. *)
Definition in_P (p : pc) : bool :=
  match p with
  | P102 | P103 | P116 | P116_asleep | P116_woken | P118 | P119 | P120 => true
  | Idle | V128 | V130 | V131 | V132 | V134 => false
  end.

(** The wait channel against the thread table: nobody is queued twice,
    and the queued threads are the ones asleep in [wchan_sleep]. *)
Definition wchan_ok (w : world) : Prop :=
  NoDup (sem_wchan w)
  ∧ ∀ j, j ∈ sem_wchan w ↔ t_pc (threads w j) = P116_asleep.

(** The interrupt flags are the ones the threads started with, and no
    thread in interrupt context is inside [P]. *)
Definition irq_ok (irq : tid → bool) (w : world) : Prop :=
  ∀ i, t_in_interrupt (threads w i) = irq i
       ∧ (irq i = true → in_P (t_pc (threads w i)) = false).

(** Why the kernel stopped, if it did: a NULL semaphore (lines 91 and
    126), [P] in interrupt context (line 99), or the counter wrapped in
    [V] (line 131) with all 2^32 - 1 units available before the call. *)
Definition panic_ok (n : Z) (w : world) : Prop :=
  match panicked w with
  | None => True
  | Some line =>
      line = 91%nat ∨ line = 99%nat ∨ line = 126%nat
      ∨ (line = 131%nat ∧ sem_count w = 0%Z ∧ balance n w = (UINT_MOD - 1)%Z)
  end.

(** A whole call of [P] and of [V] by thread [i], nobody else running;
    [pick] is the scheduler's choice at the wake-one. *)
Definition P_call (i : tid) : list (tid * action) :=
  [(i, CallP (Some ())); (i, Run 0); (i, Run 0); (i, Run 0); (i, Run 0); (i, Run 0)].
Definition V_call (i : tid) (pick : nat) : list (tid * action) :=
  [(i, CallV (Some ())); (i, Run 0); (i, Run 0); (i, Run 0); (i, Run pick); (i, Run 0)].

(** The world a schedule leads to ([w0] itself if the schedule cannot be
    followed). *)
Definition after (sched : list (tid * action)) (w0 : world) : world :=
  default w0 (run sched w0).

(** TA has taken the spinlock in P; TB has called V. *)
Definition TA_inside_P : list (tid * action) :=
  [(TA, CallP (Some ())); (TA, Run 0); (TB, CallV (Some ()))].

(** TA and thread 2 go to sleep in P, in that order. *)
Definition two_sleepers : list (tid * action) :=
  take 4 (P_call TA) ++ take 4 (P_call 2%nat).

(** ... then TB runs V up to its wake-one. *)
Definition two_sleepers_and_V : list (tid * action) :=
  two_sleepers ++ take 4 (V_call TB 0).

(** Thread 2, an interrupt handler, calls V and later P. *)
Definition handler_calls : list (tid * action) :=
  V_call 2%nat 0 ++ [(2%nat, CallP (Some ()))].

(** Threads 2 and 3 run in interrupt context, the others do not. *)
Definition two_handlers : tid → bool := λ i, bool_decide (i = 2%nat ∨ i = 3%nat).

(** A semaphore created full, and the world after a [V] on it. *)
Definition full_then_V : world :=
  default (init 0 no_irq)
          (run [(TA, CallV (Some ())); (TA, Run 0); (TA, Run 0); (TA, Run 0)]
               (init (UINT_MOD - 1) no_irq)).

End SemInv.

(** ** Observations and concrete kernels for the heap model *)

Module Scenes.
Import Synch.

(** What a call returned, if it returned, and the state it ended in. *)
Definition result {A : Type} (o : outcome A) : option A :=
  match o with
  | Done a _ => Some a
  | _ => None
  end.

Definition final {A : Type} (o : outcome A) : kstate :=
  match o with
  | Done _ k | Panic _ k | Asleep _ k | Spinning _ k => k
  end.

(** The structure a pointer leads to. *)
Definition lock_at (k : kstate) (p : ptr) : option lock :=
  a ← p; heap k !! a ≫= as_lock.
Definition cv_at (k : kstate) (p : ptr) : option cv :=
  a ← p; heap k !! a ≫= as_cv.
Definition wchan_at (k : kstate) (p : ptr) : option wchan :=
  a ← p; heap k !! a ≫= as_wchan.
Definition sem_at (k : kstate) (p : ptr) : option semaphore :=
  a ← p; heap k !! a ≫= as_sem.

(** The lock states of the spec's state machine, in the spec's words, and
    the one a lock structure is in, if any: FREE is "indicator available,
    owner none", HELD t is "indicator held, owner t"; any other
    combination of the two fields is neither. *)
Inductive spec_lock_state : Type :=
| FREE
| HELD (t : tid).

Definition spec_state_of (l : lock) : option spec_lock_state :=
  match owner l with
  | None => if (0 <? flagLocked l)%Z then Some FREE else None
  | Some t => if (flagLocked l =? 0)%Z then Some (HELD t) else None
  end.

(** A lock whose three blocks are where they should be. *)
Definition lock_wf (k : kstate) (a : addr) (l : lock) (w : wchan) : Prop :=
  heap k !! a = Some (OLock l)
  ∧ (∃ nm s, lk_name l = Some nm ∧ heap k !! nm = Some (OString s))
  ∧ (∃ wc, lockWchan l = Some wc ∧ heap k !! wc = Some (OWchan w)).

(** [lock_has φ a k]: block [a] of [k] is a lock structure for which
    [φ] holds. *)
Definition lock_has (φ : lock → Prop) (a : addr) (k : kstate) : Prop :=
  ∃ l, heap k !! a = Some (OLock l) ∧ φ l.

(** [triple c P m Q]: when [m], run on processor [c] from a state in [P],
    returns, it returns a value and a state in [Q]. *)
Definition triple {A : Type} (c : cpu) (P : kstate → Prop) (m : K A)
    (Q : A → kstate → Prop) : Prop :=
  ∀ k a k', P k → m c k = Done a k' → Q a k'.

(** [asleep_post c P m Q]: when [m], run on processor [c] from a state in
    [P], ends asleep, the state it sleeps in is in [Q]. *)
Definition asleep_post {A : Type} (c : cpu) (P : kstate → Prop) (m : K A)
    (Q : kstate → Prop) : Prop :=
  ∀ k wc k', P k → m c k = Asleep wc k' → Q k'.

(** [never_sleeps m]: no run of [m] ends asleep. *)
Definition never_sleeps {A : Type} (m : K A) : Prop :=
  ∀ c k wc k', m c k ≠ Asleep wc k'.

(** Threads A and B, with thread identity available, and the processor
    before there are threads. *)
Definition A : tid := 1%nat.
Definition B : tid := 2%nat.
Definition thread_A : cpu := mkCpu (Some A) true false 0.
Definition thread_B : cpu := mkCpu (Some B) true false 0.
Definition early_boot : cpu := mkCpu None false false 0.

(** An empty kernel heap with memory to spare. *)
Definition boot : kstate := mkK ∅ 0%nat [] [].

(** What a block from kmalloc may hold before it is written. *)
Definition junk_lock : lock :=
  mkLock (Some 77%nat) (Some 78%nat) (Ext.LockedBy None) 5 (Some 9%nat).
Definition junk_cv : cv := mkCv (Some 77%nat) (Some 99%nat) (Ext.LockedBy None).
Definition zeroed_cv : cv := mkCv NULL NULL Ext.Unlocked.

(** lock_create("L") on [boot]: the lock is block 0, its name block 1,
    its wait channel block 2. *)
Definition L : ptr := Some 0%nat.
Definition created : kstate := final (lock_create "L" junk_lock thread_A boot).

(** ... then A acquires it. *)
Definition held_by_A : kstate := final (lock_acquire L thread_A created).

(** ... then A releases it. *)
Definition released_by_A : kstate := final (lock_release L thread_A held_by_A).

(** ... or, while A holds it, B calls lock_acquire and goes to sleep on
    the lock's wait channel; then A releases. *)
Definition B_queued : kstate := final (lock_acquire L thread_B held_by_A).
Definition released_with_B_queued : kstate := final (lock_release L thread_A B_queued).

(** A condition variable next to the lock A holds, put together by hand
    (cv_create does not set [cvWchan]): the structure is block 10, its
    name block 11, its wait channel block 12. *)
Definition CV : ptr := Some 10%nat.
Definition with_cv (k : kstate) : kstate :=
  set_heap (<[10%nat := OCv (mkCv (Some 11%nat) (Some 12%nat) Ext.Unlocked)]>
            (<[11%nat := OString "cv"]>
            (<[12%nat := OWchan (mkWchan (Some 11%nat) [])]> (heap k)))) k.
Definition A_about_to_wait : kstate := with_cv held_by_A.
Definition A_waiting : kstate := final (cv_wait CV L thread_A A_about_to_wait).

(** Allocation outcomes for cv_create: the third allocation (the wait
    channel) fails. *)
Definition no_memory_for_wchan : kstate := mkK ∅ 0%nat [true; true; false] [].

(** A semaphore and a condition variable whose three blocks are where
    they should be. *)
Definition sem_wf (k : kstate) (a : addr) (s : semaphore) (w : wchan) : Prop :=
  heap k !! a = Some (OSem s)
  ∧ (∃ nm str, sem_name s = Some nm ∧ heap k !! nm = Some (OString str))
  ∧ (∃ wc, sem_wchan s = Some wc ∧ heap k !! wc = Some (OWchan w)).

Definition cv_wf (k : kstate) (a : addr) (v : cv) (w : wchan) : Prop :=
  heap k !! a = Some (OCv v)
  ∧ (∃ nm str, cv_name v = Some nm ∧ heap k !! nm = Some (OString str))
  ∧ (∃ wc, cvWchan v = Some wc ∧ heap k !! wc = Some (OWchan w)).

(** Nothing is allocated at or above [brk]: the blocks the allocator
    hands out next are not in use. *)
Definition fresh_above (k : kstate) : Prop :=
  ∀ a, (brk k ≤ a)%nat → heap k !! a = None.

(** Whether the [n]-th allocation from [k] on finds memory. *)
Definition grants (k : kstate) (n : nat) : bool :=
  default true (alloc_ok k !! n).

(** sem_create("S", 2) on [boot]: the semaphore is block 0, its name
    block 1, its wait channel block 2. *)
Definition junk_sem : semaphore :=
  mkSem (Some 5%nat) NULL (Ext.LockedBy None) 42.
Definition sem_made : kstate := final (sem_create "S" 2 junk_sem thread_A boot).

(** Thread A running an interrupt handler (thread identity available),
    and the lock A holds after a lock_release made from there. *)
Definition A_in_interrupt : cpu := mkCpu (Some A) true true 0.
Definition released_in_interrupt : kstate :=
  final (lock_release L A_in_interrupt held_by_A).

(** The condition variable of [with_cv] with A and B on its queue and
    its guard free, put together by hand, and a third thread whose
    wake-ups pick the second thread queued. *)
Definition two_queued : kstate :=
  set_heap (<[12%nat := OWchan (mkWchan (Some 11%nat) [A; B])]> (heap A_about_to_wait))
           A_about_to_wait.
Definition thread_C : cpu := mkCpu (Some 3%nat) true false 1.

(** Allocation outcomes: the second allocation (the name) fails. *)
Definition no_memory_for_name : kstate := mkK ∅ 0%nat [true; false] [].


End Scenes.

(** ** Proofs: semaphore *)

Module SemProofs.
Import Ext SemSteps SemInv.
Local Open Scope Z_scope.

Lemma set_pc_same i p ts : t_pc (set_pc i p ts i) = p.
Proof. unfold set_pc. destruct (decide (i = i)); [reflexivity | congruence]. Qed.

Lemma set_pc_other i j p ts : j ≠ i → set_pc i p ts j = ts j.
Proof. intros Hne. unfold set_pc. destruct (decide (j = i)); [congruence | reflexivity]. Qed.

Lemma in_cs_wake_pc p : in_cs (wake_pc p) = true → in_cs p = true.
Proof. destruct p; simpl; congruence. Qed.

Lemma wake_keeps_cs woken ts j :
  in_cs (t_pc (wake woken ts j)) = true → in_cs (t_pc (ts j)) = true.
Proof.
  destruct woken as [k|]; simpl; [| tauto].
  destruct (decide (j = k)) as [->|Hne].
  - rewrite set_pc_same. apply in_cs_wake_pc.
  - rewrite set_pc_other by assumption. tauto.
Qed.

Lemma uint_decr_pos c : 0 < c < UINT_MOD → uint_decr c = c - 1.
Proof. intros H. unfold uint_decr. apply Z.mod_small. lia. Qed.

Lemma uint_incr_range c : 0 ≤ uint_incr c < UINT_MOD.
Proof. unfold uint_incr. apply Z.mod_pos_bound. reflexivity. Qed.

Lemma spinlock_acquire_free me lk lk' :
  spin_acquire me lk = Some lk' → lk = Unlocked ∧ lk' = LockedBy me.
Proof. destruct lk; simpl; intros H; [injection H as <-; auto | discriminate]. Qed.

Lemma init_inv n irq : 0 ≤ n < UINT_MOD → sem_inv n (init n irq).
Proof.
  intros Hn. split; simpl.
  - exact Hn.
  - intros i Hi. discriminate.
  - unfold count_ok, balance. simpl. lia.
Qed.

(** Thread [i] moves to [p]: what the others see. *)
Ltac thread_cases j i :=
  destruct (decide (j = i)) as [->|?];
  [ rewrite ?set_pc_same in * | rewrite ?set_pc_other in * by assumption ].

(** Mutual exclusion survives a move of [i] that keeps the spinlock
    with [i]. *)
Lemma mutex_move_holder i p w :
  sem_lock w = LockedBy (Some i) →
  (∀ j, in_cs (t_pc (threads w j)) = true → sem_lock w = LockedBy (Some j)) →
  ∀ j, in_cs (t_pc (set_pc i p (threads w) j)) = true → sem_lock w = LockedBy (Some j).
Proof.
  intros Hl Hm j. thread_cases j i; [intros _; exact Hl | apply Hm].
Qed.

(** ... and a move of [i] to a statement outside the critical section,
    whatever happens to the spinlock, as long as [i] was the only one
    who could have held it. *)
Lemma mutex_move_out i p lk w :
  in_cs p = false →
  (sem_lock w = Unlocked ∨ sem_lock w = LockedBy (Some i)) →
  (∀ j, in_cs (t_pc (threads w j)) = true → sem_lock w = LockedBy (Some j)) →
  ∀ j, in_cs (t_pc (set_pc i p (threads w) j)) = true → lk = LockedBy (Some j).
Proof.
  intros Hp Hl Hm j. thread_cases j i; [congruence |].
  intros Hj. apply Hm in Hj. destruct Hl; congruence.
Qed.

(** ... and a move of [i] outside the critical section that leaves the
    spinlock alone. *)
Lemma mutex_move_free i p w :
  in_cs p = false →
  (∀ j, in_cs (t_pc (threads w j)) = true → sem_lock w = LockedBy (Some j)) →
  ∀ j, in_cs (t_pc (set_pc i p (threads w) j)) = true → sem_lock w = LockedBy (Some j).
Proof.
  intros Hp Hm j. thread_cases j i; [congruence | apply Hm].
Qed.

(** ... and taking the free spinlock. *)
Lemma mutex_acquire i p w :
  sem_lock w = Unlocked →
  (∀ j, in_cs (t_pc (threads w j)) = true → sem_lock w = LockedBy (Some j)) →
  ∀ j, in_cs (t_pc (set_pc i p (threads w) j)) = true → LockedBy (Some i) = LockedBy (Some j).
Proof.
  intros Hl Hm j. thread_cases j i; [reflexivity |].
  intros Hj. apply Hm in Hj. congruence.
Qed.

(** The holder's statement after thread [i] moved to [p]. *)
Lemma holder_pc_goto_holder i p w :
  sem_lock w = LockedBy (Some i) → holder_pc (goto i p w) = Some p.
Proof. intros Hl. unfold holder_pc. simpl. rewrite Hl, set_pc_same. reflexivity. Qed.

Lemma holder_pc_holder i w :
  sem_lock w = LockedBy (Some i) → holder_pc w = Some (t_pc (threads w i)).
Proof. intros Hl. unfold holder_pc. rewrite Hl. reflexivity. Qed.

(** A thread outside the critical section that moves to another
    statement outside it changes nothing the counter invariant reads. *)
Lemma count_ok_move_outside n i p w :
  in_cs (t_pc (threads w i)) = false → in_cs p = false →
  count_ok n w → count_ok n (goto i p w).
Proof.
  intros Hi Hp. unfold count_ok, holder_pc, balance. simpl.
  destruct (sem_lock w) as [|[h|]]; try tauto.
  thread_cases h i; [| tauto].
  destruct (t_pc (threads w i)); try discriminate; destruct p; try discriminate; tauto.
Qed.

Lemma acquire_inv n i p w w' :
  in_cs (t_pc (threads w i)) = false →
  match p with P103 | V130 => True | _ => False end →
  sem_inv n w → acquire_then i p w = Some w' → sem_inv n w'.
Proof.
  intros Hi Hp [Hr Hm Hc] Hs. unfold acquire_then in Hs.
  destruct (spin_acquire (Some i) (sem_lock w)) as [lk|] eqn:Ha;
    simpl in Hs; [| discriminate].
  apply spinlock_acquire_free in Ha as [Hl ->].
  injection Hs as <-. split; simpl.
  - exact Hr.
  - apply mutex_acquire; assumption.
  - unfold count_ok, holder_pc, balance in *. simpl. rewrite set_pc_same.
    rewrite Hl in Hc. destruct p; tauto.
Qed.

(** Every statement of [P] and [V] keeps the invariant. *)
Lemma step_inv n i a w w' : sem_inv n w → step i a w = Some w' → sem_inv n w'.
Proof.
  intros Hinv Hs. unfold step in Hs.
  destruct (panicked w); [discriminate |].
  destruct (t_pc (threads w i)) eqn:Hpc; destruct a as [sem|sem|pick];
    try discriminate.
  all: try (refine (acquire_inv n i _ w w' _ _ Hinv Hs);
            [rewrite Hpc; reflexivity | exact I]).
  all: destruct Hinv as [Hr Hm Hc].
  all: try (assert (Hl : sem_lock w = LockedBy (Some i))
              by (apply Hm; rewrite Hpc; reflexivity);
            pose proof (holder_pc_holder i w Hl) as Hh; rewrite Hpc in Hh;
            unfold count_ok in Hc; rewrite Hh in Hc).
  - (* Idle, CallP *)
    destruct sem; [destruct (t_in_interrupt (threads w i)) |]; injection Hs as <-.
    + split; assumption.
    + split; simpl; [exact Hr | apply mutex_move_free; auto |].
      apply count_ok_move_outside; [rewrite Hpc | |]; auto.
    + split; assumption.
  - (* Idle, CallV *)
    destruct sem; injection Hs as <-.
    + split; simpl; [exact Hr | apply mutex_move_free; auto |].
      apply count_ok_move_outside; [rewrite Hpc | |]; auto.
    + split; assumption.
  - (* P103 *)
    destruct (sem_count w =? 0) eqn:Hz; injection Hs as <-.
    + split; simpl; [exact Hr | apply mutex_move_holder; auto |].
      unfold count_ok. rewrite holder_pc_goto_holder by exact Hl. exact Hc.
    + split; simpl; [exact Hr | apply mutex_move_holder; auto |].
      unfold count_ok. rewrite holder_pc_goto_holder by exact Hl. simpl.
      apply Z.eqb_neq in Hz. auto.
  - (* P116: sleep *)
    injection Hs as <-. split; simpl; [exact Hr | |].
    + apply (mutex_move_out i P116_asleep Unlocked w); auto.
    + exact Hc.
  - (* P118 *)
    destruct (0 <? sem_count w) eqn:Hz; injection Hs as <-.
    + split; simpl; [exact Hr | apply mutex_move_holder; auto |].
      unfold count_ok. rewrite holder_pc_goto_holder by exact Hl. simpl.
      apply Z.ltb_lt in Hz. tauto.
    + split; [exact Hr | exact Hm |]. unfold count_ok. simpl.
      change (holder_pc (panic 118 w)) with (holder_pc w). rewrite Hh. exact Hc.
  - (* P119 *)
    injection Hs as <-. destruct Hc as [Hc Hpos].
    rewrite uint_decr_pos by lia.
    split; simpl; [lia | apply (mutex_move_holder i P120 w); auto |].
    unfold count_ok, holder_pc, balance in *. simpl. rewrite Hl, set_pc_same. lia.
  - (* P120 *)
    injection Hs as <-. split; simpl; [exact Hr | |].
    + apply (mutex_move_out i Idle Unlocked w); auto.
    + unfold count_ok, holder_pc, balance in *. simpl. lia.
  - (* V130 *)
    injection Hs as <-.
    split; simpl; [apply uint_incr_range | apply (mutex_move_holder i V131 w); auto |].
    unfold count_ok, holder_pc, balance in *. simpl. rewrite Hl, set_pc_same.
    unfold uint_incr. rewrite Hc in Hr |- *. auto.
  - (* V131 *)
    destruct (0 <? sem_count w) eqn:Hz; injection Hs as <-.
    + split; simpl; [exact Hr | apply mutex_move_holder; auto |].
      unfold count_ok. rewrite holder_pc_goto_holder by exact Hl. simpl.
      apply Z.ltb_lt in Hz. split; [| exact Hz].
      destruct Hc as [Hc Hb]. rewrite Hc in Hz |- *.
      destruct (decide (balance n w + 1 = UINT_MOD)) as [He|He].
      * rewrite He, Z.mod_same in Hz by discriminate. lia.
      * change (balance n (goto i V132 w)) with (balance n w).
        apply Z.mod_small. lia.
    + split; [exact Hr | exact Hm |]. unfold count_ok.
      change (holder_pc (panic 131 w)) with (holder_pc w). rewrite Hh. exact Hc.
  - (* V132: wake one *)
    destruct (wake_one pick (sem_wchan w)) as [woken q]. injection Hs as <-.
    split; simpl; [exact Hr | |].
    + intros j. thread_cases j i; [auto |].
      intros Hj. apply wake_keeps_cs in Hj. auto.
    + unfold count_ok, holder_pc, balance in *. simpl. rewrite Hl, set_pc_same. exact Hc.
  - (* V134 *)
    injection Hs as <-. split; simpl; [exact Hr | |].
    + apply (mutex_move_out i Idle Unlocked w); auto.
    + unfold count_ok, holder_pc, balance in *. simpl. lia.
Qed.

Lemma run_inv n sched : ∀ w w', sem_inv n w → run sched w = Some w' → sem_inv n w'.
Proof.
  induction sched as [|[i a] rest IH]; intros w w' Hinv Hrun; simpl in Hrun.
  - injection Hrun as <-. exact Hinv.
  - destruct (step i a w) as [w1|] eqn:Hs; simpl in Hrun; [| discriminate].
    eapply IH; [eapply step_inv; eassumption | exact Hrun].
Qed.

(** The assertion of line 118 holds whenever a thread reaches it. *)
Lemma line_118_holds n irq sched w i :
  0 ≤ n < UINT_MOD → run sched (init n irq) = Some w →
  t_pc (threads w i) = P118 → 0 < sem_count w.
Proof.
  intros Hn Hrun Hpc.
  destruct (run_inv n sched _ _ (init_inv n irq Hn) Hrun) as [Hr Hm Hc].
  assert (Hl : sem_lock w = LockedBy (Some i)) by (apply Hm; rewrite Hpc; reflexivity).
  unfold count_ok in Hc. rewrite (holder_pc_holder i w Hl), Hpc in Hc. lia.
Qed.

(** While the count is 0, a thread in [P] that holds the spinlock goes
    (back) to sleep: it ends on the wait channel with the spinlock
    released, whether it came from line 102 or from a wake-up. *)
Lemma P_sleeps_while_count_is_zero i w :
  panicked w = None → t_pc (threads w i) = P103 → sem_count w = 0 →
  ∃ w', run [(i, Run 0); (i, Run 0)] w = Some w'
        ∧ t_pc (threads w' i) = P116_asleep
        ∧ sem_wchan w' = sem_wchan w ++ [i]
        ∧ sem_lock w' = Unlocked
        ∧ sem_count w' = 0
        ∧ ∀ a, step i a w' = None.
Proof.
  intros Hp Hpc Hz. eexists. split.
  - simpl. unfold step. rewrite Hp, Hpc, Hz. simpl.
    unfold step. simpl. rewrite set_pc_same, Hp. simpl. reflexivity.
  - simpl. rewrite !set_pc_same. repeat split; auto.
    intros a. unfold step. simpl. rewrite Hp, !set_pc_same.
    destruct a; reflexivity.
Qed.

(** C8: on a semaphore created with count 0, thread TA's P blocks (TA ends
    asleep on the wait channel, the count still 0, and TA cannot take a
    step); once thread TB's V has run (count 1, TA woken), TA's P runs to
    its return, having decremented the count, which is 0 again. *)
Theorem P_blocks_until_V :
  snapshot <$> run TA_blocks (init 0 no_irq)
    = Some (P116_asleep, Idle, 0, Unlocked, [TA], None, 0, 0)
  ∧ (∀ a, run TA_blocks (init 0 no_irq) ≫= step TA a = None)
  ∧ snapshot <$> run (TA_blocks ++ TB_releases) (init 0 no_irq)
    = Some (P116_woken, Idle, 1, Unlocked, [], None, 0, 1)
  ∧ snapshot <$> run (TA_blocks ++ TB_releases ++ TA_finishes) (init 0 no_irq)
    = Some (Idle, Idle, 0, Unlocked, [], None, 1, 1).
Proof.
  split; [vm_compute; reflexivity |].
  split; [intros a; destruct a; vm_compute; reflexivity |].
  split; vm_compute; reflexivity.
Qed.

(** C9: on a semaphore created with count [n], after any schedule of
    statements of P and V by any threads, the calls of P that returned
    are at most the calls of V that returned plus [n]; the count is not
    negative; and a thread about to execute the decrement of line 119
    finds the count strictly positive, so the decrement gives count - 1
    without wrapping. *)
Theorem P_returns_bounded_by_V_returns (n : Z) (irq : tid → bool)
    (sched : list (tid * action)) (w : world) :
  0 ≤ n < UINT_MOD →
  run sched (init n irq) = Some w →
  P_returns w ≤ V_returns w + n
  ∧ 0 ≤ sem_count w
  ∧ ∀ i, t_pc (threads w i) = P119 →
         0 < sem_count w ∧ uint_decr (sem_count w) = sem_count w - 1.
Proof.
  intros Hn Hrun.
  destruct (run_inv n sched _ _ (init_inv n irq Hn) Hrun) as [Hr Hm Hc].
  split; [| split; [lia |]].
  - unfold count_ok, balance in Hc.
    destruct (holder_pc w) as [[]|]; lia.
  - intros i Hpc.
    assert (Hl : sem_lock w = LockedBy (Some i)) by (apply Hm; rewrite Hpc; reflexivity).
    unfold count_ok in Hc. rewrite (holder_pc_holder i w Hl), Hpc in Hc.
    split; [lia |]. apply uint_decr_pos. lia.
Qed.

(** The bound at the end of the run of C8: one P and one V returned on a
    semaphore created with count 0. *)
Lemma P_returns_bounded_by_V_returns_witness :
  run (TA_blocks ++ TB_releases ++ TA_finishes) (init 0 no_irq) = Some TA_and_TB_done
  ∧ P_returns TA_and_TB_done ≤ V_returns TA_and_TB_done + 0
  ∧ 0 ≤ sem_count TA_and_TB_done
  ∧ ∀ i, t_pc (threads TA_and_TB_done i) = P119 →
         0 < sem_count TA_and_TB_done
         ∧ uint_decr (sem_count TA_and_TB_done) = sem_count TA_and_TB_done - 1.
Proof.
  split; [vm_compute; reflexivity |].
  apply (P_returns_bounded_by_V_returns 0 no_irq (TA_blocks ++ TB_releases ++ TA_finishes)).
  - unfold UINT_MOD. lia.
  - vm_compute. reflexivity.
Defined.

End SemProofs.

(** ** Proofs: lock and condition variable *)

Module SynchProofs.
Import Synch Scenes.
Local Open Scope Z_scope.

(** *** Rules for [triple] *)

Section Rules.
Context (c : cpu).

Lemma triple_ret {A} (x : A) (P : kstate → Prop) :
  triple c P (mret x) (λ y k, y = x ∧ P k).
Proof. intros k a k' HP H. injection H as <- <-. auto. Qed.

Lemma triple_bind {A B} (m : K A) (f : A → K B) P Q R :
  triple c P m Q → (∀ a, triple c (Q a) (f a) R) → triple c P (m ≫= f) R.
Proof.
  intros Hm Hf k b k' HP H. unfold mbind, K_bind in H.
  destruct (m c k) as [a k1| | |] eqn:E; try discriminate.
  eapply Hf; [eapply Hm; eassumption | exact H].
Qed.

Lemma triple_post {A} (m : K A) P (Q Q' : A → kstate → Prop) :
  triple c P m Q → (∀ a k, Q a k → Q' a k) → triple c P m Q'.
Proof. intros Hm HQ k a k' HP H. apply HQ. eapply Hm; eassumption. Qed.

Lemma triple_pre {A} (m : K A) (P P' : kstate → Prop) Q :
  triple c P m Q → (∀ k, P' k → P k) → triple c P' m Q.
Proof. intros Hm HP k a k' HP' H. eapply Hm; [apply HP, HP' | exact H]. Qed.

Lemma triple_ask P : triple c P ask (λ c' k, c' = c ∧ P k).
Proof. intros k a k' HP H. injection H as <- <-. auto. Qed.

Lemma triple_KASSERT line b P :
  triple c P (KASSERT line b) (λ _ k, b = true ∧ P k).
Proof.
  intros k a k' HP H. unfold KASSERT in H. destruct b; [| discriminate].
  inversion H; subst. auto.
Qed.

Lemma triple_emit e (P : kstate → Prop) :
  (∀ k, P k → P (mkK (heap k) (brk k) (alloc_ok k) (log k ++ [e]))) →
  triple c P (emit e) (λ _ k, P k).
Proof. intros HP k a k' Hk H. inversion H; subst. auto. Qed.

Lemma triple_load {A} (view : object → option A) p P :
  triple c P (load view p)
    (λ x k, P k ∧ ∃ a o, p = Some a ∧ heap k !! a = Some o ∧ view o = Some x).
Proof.
  intros k x k' HP H. unfold load in H. destruct p as [a|]; [| discriminate].
  destruct (heap k !! a) as [o|] eqn:Ho; simpl in H; [| discriminate].
  destruct (view o) as [y|] eqn:Hv; [| discriminate].
  injection H as <- <-. split; [exact HP |]. exists a, o. auto.
Qed.

Lemma triple_store p o (P : kstate → Prop) (Q : kstate → Prop) :
  (∀ a k, p = Some a → P k → Q (set_heap (<[a := o]> (heap k)) k)) →
  triple c P (store p o) (λ _ k, Q k).
Proof.
  intros HQ k x k' HP H. unfold store in H. destruct p as [a|]; [| discriminate].
  inversion H; subst. auto.
Qed.

Lemma triple_any {A} (m : K A) P : triple c P m (λ _ _, True).
Proof. intros k a k' _ _. exact I. Qed.

(** A fact that does not depend on the state moves out of the
    precondition. *)
Lemma triple_pure {A} (m : K A) (φ : Prop) P Q :
  (φ → triple c P m Q) → triple c (λ k, φ ∧ P k) m Q.
Proof. intros Hm k a k' [Hφ HP] H. eapply Hm; eassumption. Qed.

(** *** Rules for the fields of a lock *)

Lemma triple_lock_get {A} (f : lock → A) a φ :
  triple c (lock_has φ a) (lock_get f (Some a))
    (λ x k, lock_has (λ l, φ l ∧ x = f l) a k).
Proof.
  unfold lock_get. eapply triple_bind; [apply triple_load |].
  intros l. simpl. eapply triple_post; [apply triple_ret |].
  intros x k [-> [[l0 [Hl0 Hφ]] (a' & o & Ha & Ho & Hv)]].
  injection Ha as <-. rewrite Hl0 in Ho. injection Ho as <-.
  injection Hv as <-. exists l0. auto.
Qed.

Lemma triple_lock_set (upd : lock → lock) a (φ ψ : lock → Prop) :
  (∀ l, φ l → ψ (upd l)) →
  triple c (lock_has φ a) (lock_set upd (Some a)) (λ _ k, lock_has ψ a k).
Proof.
  intros Hupd. unfold lock_set. eapply triple_bind; [apply triple_load |].
  intros l. simpl. apply triple_store.
  intros a0 k Ha [[l0 [Hl0 Hφ]] (a' & o & Ha' & Ho & Hv)].
  injection Ha as <-. injection Ha' as <-. rewrite Hl0 in Ho.
  injection Ho as <-. injection Hv as <-.
  exists (upd l0). split; [apply lookup_insert_eq | auto].
Qed.

(** Writing a lock that is there, whatever it held. *)
Lemma triple_lock_set_new (upd : lock → lock) a (ψ : lock → Prop) P :
  (∀ l, ψ (upd l)) →
  triple c P (lock_set upd (Some a)) (λ _ k, lock_has ψ a k).
Proof.
  intros Hupd. unfold lock_set. eapply triple_bind; [apply triple_load |].
  intros l. simpl. apply triple_store.
  intros a0 k Ha _. injection Ha as <-.
  exists (upd l). split; [apply lookup_insert_eq | auto].
Qed.

(** Writing a wait channel leaves every lock as it is: the block
    written held a wait channel, so it is not the lock's block. *)
Lemma triple_wchan_set (upd : wchan → wchan) wc a φ :
  triple c (lock_has φ a) (wchan_set upd wc) (λ _ k, lock_has φ a k).
Proof.
  unfold wchan_set. eapply triple_bind; [apply triple_load |].
  intros w. simpl. apply triple_store.
  intros a0 k -> [[l0 [Hl0 Hφ]] (a' & o & Ha' & Ho & Hv)].
  injection Ha' as <-. exists l0. split; [| exact Hφ].
  simpl. rewrite lookup_insert_ne; [exact Hl0 |].
  intros ->. rewrite Hl0 in Ho. injection Ho as <-. discriminate.
Qed.

Lemma triple_wchan_get {A} (f : wchan → A) wc (P : kstate → Prop) :
  triple c P (wchan_get f wc) (λ _ k, P k).
Proof.
  unfold wchan_get. eapply triple_bind; [apply triple_load |].
  intros w. simpl. eapply triple_post; [apply triple_ret |].
  intros x k [_ [HP _]]. exact HP.
Qed.

Lemma triple_emit_lock e a φ :
  triple c (lock_has φ a) (emit e) (λ _ k, lock_has φ a k).
Proof. apply triple_emit. intros k H. exact H. Qed.

Lemma triple_wchan_wakeone wc r a φ :
  triple c (lock_has φ a) (wchan_wakeone wc r) (λ _ k, lock_has φ a k).
Proof.
  unfold wchan_wakeone. eapply triple_bind; [apply triple_ask |].
  intros c'. simpl. apply triple_pure. intros _.
  eapply triple_bind; [apply triple_wchan_get |].
  intros q. simpl. destruct (Ext.wake_one (wake_pick c') q) as [woken q'].
  eapply triple_bind; [apply triple_wchan_set |].
  intros ?. apply triple_emit_lock.
Qed.

Lemma triple_spinlock_release_lock a (φ : lock → Prop) :
  (∀ l v, φ l → φ (set_lockProtect v l)) →
  triple c (lock_has φ a) (spinlock_release (lockProtect_of (Some a)))
    (λ _ k, lock_has φ a k).
Proof.
  intros Hφ. unfold spinlock_release, load_spin, store_spin.
  eapply triple_bind; [apply triple_lock_get |].
  intros lk. simpl. eapply triple_bind.
  - apply (triple_lock_set _ a _ φ). intros l [H _]. apply Hφ, H.
  - intros ?. apply triple_emit_lock.
Qed.

Lemma triple_cv_set (upd : cv → cv) p a φ :
  triple c (lock_has φ a) (cv_set upd p) (λ _ k, lock_has φ a k).
Proof.
  unfold cv_set. eapply triple_bind; [apply triple_load |].
  intros v. simpl. apply triple_store.
  intros a0 k -> [[l0 [Hl0 Hφ]] (a' & o & Ha' & Ho & Hv)].
  injection Ha' as <-. exists l0. split; [| exact Hφ].
  simpl. rewrite lookup_insert_ne; [exact Hl0 |].
  intros ->. rewrite Hl0 in Ho. injection Ho as <-. discriminate.
Qed.

Lemma triple_cv_get {A} (f : cv → A) p (P : kstate → Prop) :
  triple c P (cv_get f p) (λ _ k, P k).
Proof.
  unfold cv_get. eapply triple_bind; [apply triple_load |].
  intros v. simpl. eapply triple_post; [apply triple_ret |].
  intros x k [_ [HP _]]. exact HP.
Qed.

(** *** Rules for calls that end asleep *)

Lemma asleep_bind {A B} (m : K A) (f : A → K B) P R Q :
  triple c P m R → asleep_post c P m Q → (∀ a, asleep_post c (R a) (f a) Q) →
  asleep_post c P (m ≫= f) Q.
Proof.
  intros Hm Hs Hf k wc k' HP H. unfold mbind, K_bind in H.
  destruct (m c k) as [a k1|?|wc1 k1|?] eqn:E; try discriminate.
  - eapply Hf; [eapply Hm; eassumption | exact H].
  - injection H as <- <-. eapply Hs; eassumption.
Qed.

Lemma asleep_never {A} (m : K A) P Q : never_sleeps m → asleep_post c P m Q.
Proof. intros Hm k wc k' _ H. destruct (Hm _ _ _ _ H). Qed.

Lemma asleep_block_on wc (P : kstate → Prop) : asleep_post c P (block_on wc) P.
Proof. intros k wc' k' HP H. injection H as _ <-. exact HP. Qed.

End Rules.

(** *** Calls that never end asleep *)

Lemma never_sleeps_bind {A B} (m : K A) (f : A → K B) :
  never_sleeps m → (∀ a, never_sleeps (f a)) → never_sleeps (m ≫= f).
Proof.
  intros Hm Hf c k wc k' H. unfold mbind, K_bind in H.
  destruct (m c k) as [a k1|?|wc1 k1|?] eqn:E; try discriminate.
  - exact (Hf _ _ _ _ _ H).
  - exact (Hm _ _ _ _ E).
Qed.

Lemma never_sleeps_ret {A} (x : A) : never_sleeps (mret x).
Proof. intros c k wc k' H. discriminate. Qed.

Lemma never_sleeps_ask : never_sleeps ask.
Proof. intros c k wc k' H. discriminate. Qed.

Lemma never_sleeps_die {A} why : never_sleeps (@die A why).
Proof. intros c k wc k' H. discriminate. Qed.

Lemma never_sleeps_KASSERT line b : never_sleeps (KASSERT line b).
Proof. intros c k wc k' H. destruct b; discriminate. Qed.

Lemma never_sleeps_emit e : never_sleeps (emit e).
Proof. intros c k wc k' H. discriminate. Qed.

Lemma never_sleeps_spin_on r : never_sleeps (spin_on r).
Proof. intros c k wc k' H. discriminate. Qed.

Lemma never_sleeps_load {A} (view : object → option A) p : never_sleeps (load view p).
Proof.
  intros c k wc k' H. unfold load in H.
  destruct p; [| discriminate]. destruct (_ ≫= view); discriminate.
Qed.

Lemma never_sleeps_store p o : never_sleeps (store p o).
Proof. intros c k wc k' H. unfold store in H. destruct p; discriminate. Qed.

Create HintDb awake.

#[local] Hint Resolve never_sleeps_ret never_sleeps_ask never_sleeps_die
  never_sleeps_KASSERT never_sleeps_emit never_sleeps_spin_on
  never_sleeps_load never_sleeps_store : awake.

Ltac awake :=
  repeat first
    [ apply never_sleeps_bind; [| intros ?]
    | match goal with |- never_sleeps (if ?b then _ else _) => destruct b end
    | match goal with |- never_sleeps (match ?x with _ => _ end) => destruct x end
    | solve [auto with awake] ].

Lemma never_sleeps_lock_get {A} (f : lock → A) p : never_sleeps (lock_get f p).
Proof. unfold lock_get. awake. Qed.

Lemma never_sleeps_lock_set upd p : never_sleeps (lock_set upd p).
Proof. unfold lock_set. awake. Qed.

Lemma never_sleeps_cv_get {A} (f : cv → A) p : never_sleeps (cv_get f p).
Proof. unfold cv_get. awake. Qed.

Lemma never_sleeps_cv_set upd p : never_sleeps (cv_set upd p).
Proof. unfold cv_set. awake. Qed.

Lemma never_sleeps_sem_get {A} (f : semaphore → A) p : never_sleeps (sem_get f p).
Proof. unfold sem_get. awake. Qed.

Lemma never_sleeps_sem_set upd p : never_sleeps (sem_set upd p).
Proof. unfold sem_set. awake. Qed.

Lemma never_sleeps_wchan_get {A} (f : wchan → A) p : never_sleeps (wchan_get f p).
Proof. unfold wchan_get. awake. Qed.

Lemma never_sleeps_wchan_set upd p : never_sleeps (wchan_set upd p).
Proof. unfold wchan_set. awake. Qed.

#[local] Hint Resolve never_sleeps_lock_get never_sleeps_lock_set
  never_sleeps_cv_get never_sleeps_cv_set never_sleeps_sem_get never_sleeps_sem_set
  never_sleeps_wchan_get never_sleeps_wchan_set : awake.

Lemma never_sleeps_spinlock_acquire r : never_sleeps (spinlock_acquire r).
Proof. unfold spinlock_acquire, load_spin, store_spin. destruct r; awake. Qed.

Lemma never_sleeps_spinlock_release r : never_sleeps (spinlock_release r).
Proof. unfold spinlock_release, load_spin, store_spin. destruct r; awake. Qed.

Lemma never_sleeps_wchan_wakeone wc r : never_sleeps (wchan_wakeone wc r).
Proof. unfold wchan_wakeone. awake. Qed.

#[local] Hint Resolve never_sleeps_spinlock_acquire never_sleeps_spinlock_release
  never_sleeps_wchan_wakeone : awake.

(** lock_release has no blocking call in it. *)
Lemma never_sleeps_lock_release lock : never_sleeps (lock_release lock).
Proof. unfold lock_release. awake. Qed.

(** lock_release, when it returns to a caller with thread identity,
    leaves the caller in the owner field and the indicator at
    "available". *)
Lemma lock_release_post (c : cpu) (t : tid) (a : addr) :
  CURCPU_EXISTS c = true → curthread c = Some t →
  triple c (λ _, True) (lock_release (Some a))
    (λ _ k, lock_has (λ l, owner l = Some t ∧ 0 < flagLocked l) a k).
Proof.
  intros Hcpu Hcur. unfold lock_release.
  eapply triple_bind; [apply triple_any |]. intros ?. simpl.
  eapply triple_bind; [apply triple_any |]. intros ?. simpl.
  eapply triple_bind; [apply triple_ask |]. intros c'. simpl.
  apply triple_pure. intros ->. rewrite Hcpu, Hcur.
  eapply triple_bind with (Q := λ _ k, lock_has (λ l, owner l = Some t) a k).
  { eapply triple_bind.
    - apply (triple_lock_set_new c (set_owner (Some t)) a (λ l, owner l = Some t)).
      reflexivity.
    - intros ?. simpl. eapply triple_bind; [apply triple_lock_get |].
      intros o. simpl. eapply triple_post; [apply triple_KASSERT |].
      intros ? k [_ [l [Hl [H _]]]]. exists l. auto. }
  intros ?. simpl.
  eapply triple_bind; [apply triple_lock_get |]. intros fl. simpl.
  eapply triple_bind with (Q := λ _ k, lock_has (λ l, owner l = Some t) a k).
  { apply triple_lock_set. intros l [H _]. exact H. }
  intros ?. simpl.
  eapply triple_bind; [apply triple_lock_get |]. intros fl'. simpl.
  eapply triple_bind; [apply triple_KASSERT |]. intros ?. simpl.
  apply triple_pure. intros Hpos. apply Z.ltb_lt in Hpos.
  eapply triple_pre with (P := lock_has (λ l, owner l = Some t ∧ 0 < flagLocked l) a).
  2:{ intros k [l [Hl [Ho ->]]]. exists l. auto. }
  eapply triple_bind; [apply triple_lock_get |]. intros wc. simpl.
  eapply triple_bind.
  { eapply triple_pre; [apply (triple_wchan_wakeone c wc _ a) |].
    intros k [l [Hl [H _]]]. exists l. split; [exact Hl | exact H]. }
  intros ?. simpl.
  apply triple_spinlock_release_lock. intros l v H. exact H.
Qed.

(** lock_acquire by the thread the owner field names stops at the
    assertion of line 206; from interrupt context the assertion of line
    201 comes first. *)
Lemma lock_acquire_by_owner_field (c : cpu) (t : tid) (a : addr) (l : lock) (k : kstate) :
  CURCPU_EXISTS c = true → curthread c = Some t →
  heap k !! a = Some (OLock l) → owner l = Some t →
  lock_acquire (Some a) c k
  = Panic (KASSERT_failed (if t_in_interrupt c then 201 else 206)) k.
Proof.
  intros Hcpu Hcur Hl Ho.
  unfold lock_acquire, curthread_in_interrupt, lock_get, load, KASSERT, ask, die.
  unfold mbind, K_bind, mret, K_ret. simpl.
  rewrite Hcur. simpl. destruct (t_in_interrupt c); simpl; [reflexivity |].
  rewrite Hcpu, Hl. simpl. rewrite Ho.
  rewrite bool_decide_eq_true_2 by reflexivity. reflexivity.
Qed.

(** The three blocks of a well-formed lock are three different blocks. *)
Lemma lock_wf_distinct k a l w :
  lock_wf k a l w →
  ∃ nm s wc, lk_name l = Some nm ∧ lockWchan l = Some wc
             ∧ heap k !! a = Some (OLock l)
             ∧ heap k !! nm = Some (OString s)
             ∧ heap k !! wc = Some (OWchan w)
             ∧ a ≠ nm ∧ a ≠ wc ∧ nm ≠ wc.
Proof.
  intros (Ha & (nm & s & Hnm & Hs) & (wc & Hwc & Hw)).
  exists nm, s, wc. repeat split; try assumption; intros ->; congruence.
Qed.

(** *** Running a call forwards *)

Lemma bind_run {A B} (m : K A) (f : A → K B) c k a k1 :
  m c k = Done a k1 → (m ≫= f) c k = f a c k1.
Proof. intros H. unfold mbind, K_bind. rewrite H. reflexivity. Qed.

Lemma bind_panic {A B} (m : K A) (f : A → K B) c k why k1 :
  m c k = Panic why k1 → (m ≫= f) c k = Panic why k1.
Proof. intros H. unfold mbind, K_bind. rewrite H. reflexivity. Qed.

Lemma load_run {A} (view : object → option A) a o x c k :
  heap k !! a = Some o → view o = Some x → load view (Some a) c k = Done x k.
Proof. intros Ho Hv. unfold load. rewrite Ho. simpl. rewrite Hv. reflexivity. Qed.

Lemma lock_get_run {A} (f : lock → A) a l c k :
  heap k !! a = Some (OLock l) → lock_get f (Some a) c k = Done (f l) k.
Proof.
  intros Hl. unfold lock_get.
  erewrite bind_run by (eapply load_run; [exact Hl | reflexivity]). reflexivity.
Qed.

Lemma wchan_get_run {A} (f : wchan → A) a w c k :
  heap k !! a = Some (OWchan w) → wchan_get f (Some a) c k = Done (f w) k.
Proof.
  intros Hw. unfold wchan_get.
  erewrite bind_run by (eapply load_run; [exact Hw | reflexivity]). reflexivity.
Qed.

Lemma kfree_run a o c k :
  heap k !! a = Some o →
  kfree (Some a) c k
  = Done () (mkK (delete a (heap k)) (brk k) (alloc_ok k) (log k ++ [EvFree a])).
Proof. intros Ho. unfold kfree. rewrite Ho. reflexivity. Qed.

Lemma spinlock_cleanup_lock_run a l c k :
  heap k !! a = Some (OLock l) →
  spinlock_cleanup (lockProtect_of (Some a)) c k
  = if Ext.spin_cleanup (lockProtect l) then Done () k
    else Panic spinlock_still_held k.
Proof.
  intros Hl. unfold spinlock_cleanup, load_spin.
  erewrite bind_run by (apply lock_get_run; exact Hl).
  destruct (Ext.spin_cleanup (lockProtect l)); reflexivity.
Qed.

Lemma wchan_destroy_run a w c k :
  heap k !! a = Some (OWchan w) →
  wchan_destroy (Some a) c k
  = if Ext.wchan_destroy_ok (wc_threads w)
    then Done () (mkK (delete a (heap k)) (brk k) (alloc_ok k) (log k ++ [EvFree a]))
    else Panic wchan_not_empty k.
Proof.
  intros Hw. unfold wchan_destroy.
  erewrite bind_run by (apply wchan_get_run; exact Hw).
  destruct (Ext.wchan_destroy_ok (wc_threads w)); [| reflexivity].
  eapply kfree_run, Hw.
Qed.

(** lock_destroy on a well-formed lock, whatever its indicator and owner
    field hold. *)
Lemma lock_destroy_run (c : cpu) (k : kstate) (a : addr) (l : lock) (w : wchan) :
  lock_wf k a l w →
  ∃ nm wc, lk_name l = Some nm ∧ lockWchan l = Some wc ∧
  lock_destroy (Some a) c k =
    if negb (Ext.spin_cleanup (lockProtect l)) then Panic spinlock_still_held k
    else if negb (Ext.wchan_destroy_ok (wc_threads w)) then Panic wchan_not_empty k
    else Done () (mkK (delete a (delete nm (delete wc (heap k)))) (brk k) (alloc_ok k)
                      (log k ++ [EvFree wc; EvFree nm; EvFree a])).
Proof.
  intros Hwf. destruct (lock_wf_distinct _ _ _ _ Hwf)
    as (nm & s & wc & Hnm & Hwc & Ha & Hs & Hw & Hanm & Hawc & Hnmwc).
  exists nm, wc. split; [exact Hnm |]. split; [exact Hwc |].
  unfold lock_destroy.
  erewrite bind_run by reflexivity.
  destruct (Ext.spin_cleanup (lockProtect l)) eqn:Hlk; simpl.
  2:{ erewrite bind_panic; [reflexivity |].
      rewrite (spinlock_cleanup_lock_run a l) by exact Ha. rewrite Hlk. reflexivity. }
  erewrite bind_run
    by (rewrite (spinlock_cleanup_lock_run a l) by exact Ha; rewrite Hlk; reflexivity).
  erewrite bind_run by (apply lock_get_run; exact Ha).
  rewrite Hwc.
  destruct (Ext.wchan_destroy_ok (wc_threads w)) eqn:Hq; simpl.
  2:{ erewrite bind_panic; [reflexivity |].
      rewrite (wchan_destroy_run wc w) by exact Hw. rewrite Hq. reflexivity. }
  erewrite bind_run
    by (rewrite (wchan_destroy_run wc w) by exact Hw; rewrite Hq; reflexivity).
  erewrite bind_run
    by (apply (lock_get_run _ a l); simpl; rewrite lookup_delete_ne by congruence; exact Ha).
  rewrite Hnm.
  erewrite bind_run
    by (apply (kfree_run nm (OString s)); simpl;
        rewrite lookup_delete_ne by congruence; exact Hs).
  erewrite kfree_run
    by (simpl; rewrite !lookup_delete_ne by congruence; exact Ha).
  simpl. rewrite <- !app_assoc. reflexivity.
Qed.

Lemma lock_set_run (upd : lock → lock) a l c k :
  heap k !! a = Some (OLock l) →
  lock_set upd (Some a) c k = Done () (set_heap (<[a := OLock (upd l)]> (heap k)) k).
Proof.
  intros Hl. unfold lock_set.
  erewrite bind_run by (eapply load_run; [exact Hl | reflexivity]). reflexivity.
Qed.

Lemma wchan_set_run (upd : wchan → wchan) a w c k :
  heap k !! a = Some (OWchan w) →
  wchan_set upd (Some a) c k = Done () (set_heap (<[a := OWchan (upd w)]> (heap k)) k).
Proof.
  intros Hw. unfold wchan_set.
  erewrite bind_run by (eapply load_run; [exact Hw | reflexivity]). reflexivity.
Qed.

Lemma spinlock_acquire_lock_run a l c k :
  heap k !! a = Some (OLock l) → lockProtect l = Ext.Unlocked →
  spinlock_acquire (lockProtect_of (Some a)) c k
  = Done () (mkK (<[a := OLock (set_lockProtect (Ext.LockedBy (curthread c)) l)]> (heap k))
                 (brk k) (alloc_ok k)
                 (log k ++ [EvSpinAcquire (lockProtect_of (Some a))])).
Proof.
  intros Hl Hfree. unfold spinlock_acquire, load_spin, store_spin.
  erewrite bind_run by reflexivity.
  erewrite bind_run by (apply lock_get_run; exact Hl).
  rewrite Hfree. simpl.
  erewrite bind_run by (apply lock_set_run; exact Hl). reflexivity.
Qed.

Lemma spinlock_release_lock_run a l c k :
  heap k !! a = Some (OLock l) →
  spinlock_release (lockProtect_of (Some a)) c k
  = Done () (mkK (<[a := OLock (set_lockProtect Ext.Unlocked l)]> (heap k))
                 (brk k) (alloc_ok k)
                 (log k ++ [EvSpinRelease (lockProtect_of (Some a))])).
Proof.
  intros Hl. unfold spinlock_release, load_spin, store_spin.
  erewrite bind_run by (apply lock_get_run; exact Hl).
  erewrite bind_run by (apply lock_set_run; exact Hl). reflexivity.
Qed.

Lemma wchan_wakeone_run a w r c k :
  heap k !! a = Some (OWchan w) →
  wchan_wakeone (Some a) r c k
  = Done () (mkK (<[a := OWchan (set_wc_threads
                                   (Ext.wake_one (wake_pick c) (wc_threads w)).2 w)]>
                  (heap k))
                 (brk k) (alloc_ok k)
                 (log k ++ [EvWakeOne (Some a)
                              (Ext.wake_one (wake_pick c) (wc_threads w)).1])).
Proof.
  intros Hw. unfold wchan_wakeone.
  erewrite bind_run by reflexivity.
  erewrite bind_run by (apply wchan_get_run; exact Hw).
  destruct (Ext.wake_one (wake_pick c) (wc_threads w)) as [woken q'].
  erewrite bind_run by (apply wchan_set_run; exact Hw). reflexivity.
Qed.

(** lock_release on a well-formed lock whose guard is free, called by any
    thread [t] with thread identity available: the owner field is not
    consulted; the call returns unless the indicator wraps to 0. *)
Lemma lock_release_run (c : cpu) (t : tid) (k : kstate) (a : addr) (l : lock) (w : wchan) :
  lock_wf k a l w → lockProtect l = Ext.Unlocked →
  CURCPU_EXISTS c = true → curthread c = Some t →
  0 < Ext.uint_incr (flagLocked l) →
  ∃ k', lock_release (Some a) c k = Done () k'
        ∧ lock_at k' (Some a)
          = Some (mkLock (lk_name l) (lockWchan l) Ext.Unlocked
                         (Ext.uint_incr (flagLocked l)) (Some t))
        ∧ wchan_at k' (lockWchan l)
          = Some (mkWchan (wc_name w)
                          (Ext.wake_one (wake_pick c) (wc_threads w)).2)
        ∧ log k' = log k ++ [EvSpinAcquire (lockProtect_of (Some a));
                             EvWakeOne (lockWchan l)
                               (Ext.wake_one (wake_pick c) (wc_threads w)).1;
                             EvSpinRelease (lockProtect_of (Some a))].
Proof.
  intros Hwf Hfree Hcpu Hcur Hpos. destruct (lock_wf_distinct _ _ _ _ Hwf)
    as (nm & s & wc & Hnm & Hwc & Ha & Hs & Hw & Hanm & Hawc & Hnmwc).
  eexists. split.
  - unfold lock_release.
    erewrite bind_run by reflexivity.
    erewrite bind_run by (apply spinlock_acquire_lock_run; [exact Ha | exact Hfree]).
    erewrite bind_run by reflexivity.
    rewrite Hcpu, Hcur.
    erewrite bind_run.
    2:{ erewrite bind_run by (apply lock_set_run; simpl; apply lookup_insert_eq).
        erewrite bind_run by (apply lock_get_run; simpl; apply lookup_insert_eq).
        reflexivity. }
    erewrite bind_run by (apply lock_get_run; simpl; apply lookup_insert_eq).
    erewrite bind_run by (apply lock_set_run; simpl; apply lookup_insert_eq).
    erewrite bind_run by (apply lock_get_run; simpl; apply lookup_insert_eq).
    simpl. apply Z.ltb_lt in Hpos. rewrite Hpos.
    erewrite bind_run by reflexivity.
    erewrite bind_run by (apply lock_get_run; simpl; apply lookup_insert_eq).
    simpl. rewrite Hwc.
    erewrite bind_run.
    2:{ apply (wchan_wakeone_run wc w). simpl.
        rewrite !lookup_insert_ne by congruence. exact Hw. }
    apply spinlock_release_lock_run. simpl.
    rewrite lookup_insert_ne by congruence. apply lookup_insert_eq.
  - simpl. rewrite Hwc. unfold lock_at, wchan_at. simpl.
    rewrite lookup_insert_eq. simpl.
    rewrite lookup_insert_ne by congruence. rewrite lookup_insert_eq. simpl.
    rewrite <- !app_assoc. simpl. destruct l; simpl in *. subst. auto.
Qed.

Lemma lock_do_i_hold_with_identity (c : cpu) (lock : ptr) (k : kstate) :
  CURCPU_EXISTS c = true → lock_do_i_hold lock c k = Done true k.
Proof.
  intros Hcpu. unfold lock_do_i_hold.
  erewrite bind_run by reflexivity. rewrite Hcpu. reflexivity.
Qed.

(** cv_wait, when it falls asleep, has left the lock available with the
    caller in the owner field. *)
Lemma cv_wait_asleep_post (c : cpu) (t : tid) (cv : ptr) (a : addr) :
  CURCPU_EXISTS c = true → curthread c = Some t →
  asleep_post c (λ _, True) (cv_wait cv (Some a))
    (lock_has (λ l, owner l = Some t ∧ 0 < flagLocked l) a).
Proof.
  intros Hcpu Hcur. unfold cv_wait.
  eapply asleep_bind;
    [apply triple_any | apply asleep_never; auto with awake | intros ?; simpl].
  eapply asleep_bind;
    [apply triple_any | apply asleep_never; auto with awake | intros ?; simpl].
  eapply asleep_bind;
    [apply triple_any | apply asleep_never; auto with awake | intros ?; simpl].
  eapply asleep_bind.
  { eapply triple_pre; [apply (lock_release_post c t a Hcpu Hcur) | auto]. }
  { apply asleep_never, never_sleeps_lock_release. }
  intros ?. simpl.
  eapply asleep_bind;
    [apply triple_cv_get | apply asleep_never; auto with awake | intros wc; simpl].
  unfold wchan_sleep.
  eapply asleep_bind;
    [apply triple_ask | apply asleep_never; auto with awake | intros c'; simpl].
  eapply asleep_bind;
    [apply triple_wchan_get | apply asleep_never; auto with awake | intros q; simpl].
  destruct (curthread c') as [me|]; [| apply asleep_never; auto with awake].
  eapply asleep_bind;
    [eapply triple_pre; [apply (triple_wchan_set c _ wc a) | intros k [_ H]; exact H]
    | apply asleep_never; auto with awake | intros ?; simpl].
  eapply asleep_bind;
    [eapply triple_post; [apply triple_ret | intros ? k [_ H]; exact H]
    | apply asleep_never; auto with awake | intros ?; simpl].
  eapply asleep_bind;
    [apply triple_emit_lock | apply asleep_never; auto with awake | intros ?; simpl].
  apply asleep_block_on.
Qed.

(** cv_wait, resumed in a state where the lock's owner field names the
    caller, does not return: if it gets past giving up the guard, its
    lock_acquire stops the kernel. *)
Lemma cv_wait_wake_stops (c : cpu) (t : tid) (cv : ptr) (a : addr) (k : kstate) :
  CURCPU_EXISTS c = true → curthread c = Some t →
  lock_has (λ l, owner l = Some t) a k →
  result (cv_wait_wake cv (Some a) c k) = None.
Proof.
  intros Hcpu Hcur Hown. unfold cv_wait_wake, mbind, K_bind.
  destruct (spinlock_release (cvLock_of cv) c k) as [[] k1| | |] eqn:E; try reflexivity.
  assert (Hown1 : lock_has (λ l, owner l = Some t) a k1).
  { assert (Hrel : triple c (lock_has (λ l, owner l = Some t) a)
                       (spinlock_release (cvLock_of cv))
                       (λ _ k', lock_has (λ l, owner l = Some t) a k')).
    { unfold spinlock_release, load_spin, store_spin.
      eapply triple_bind; [apply triple_cv_get |].
      intros lk. simpl. eapply triple_bind; [apply triple_cv_set |].
      intros ?. apply triple_emit_lock. }
    exact (Hrel k () k1 Hown E). }
  destruct Hown1 as (l & Hl & Ho).
  rewrite (lock_acquire_by_owner_field c t a l k1 Hcpu Hcur Hl Ho). reflexivity.
Qed.

(** Together: a thread with thread identity that falls asleep in cv_wait
    cannot return from it unless some other call rewrites the lock's
    owner field while it sleeps. *)
Lemma cv_wait_cannot_return_untouched (c : cpu) (t : tid) (cv : ptr) (a : addr)
    (k k1 : kstate) (wc : ptr) :
  CURCPU_EXISTS c = true → curthread c = Some t →
  cv_wait cv (Some a) c k = Asleep wc k1 →
  ∀ k2, lock_at k2 (Some a) = lock_at k1 (Some a) →
        result (cv_wait_wake cv (Some a) c k2) = None.
Proof.
  intros Hcpu Hcur Hsleep k2 Hsame.
  destruct (cv_wait_asleep_post c t cv a Hcpu Hcur k wc k1 I Hsleep) as (l & Hl & Ho & _).
  apply (cv_wait_wake_stops c t cv a k2 Hcpu Hcur).
  exists l. split; [| exact Ho].
  unfold lock_at in Hsame. simpl in Hsame. rewrite Hl in Hsame. simpl in Hsame.
  destruct (heap k2 !! a) as [[]|]; simpl in Hsame; congruence.
Qed.

Lemma alloc_run o c k :
  alloc_ok k = [] →
  alloc o c k = Done (Some (brk k)) (mkK (<[brk k := o]> (heap k)) (S (brk k)) [] (log k)).
Proof. intros Hok. unfold alloc. rewrite Hok. reflexivity. Qed.

Lemma cv_get_run {A} (f : cv → A) a v c k :
  heap k !! a = Some (OCv v) → cv_get f (Some a) c k = Done (f v) k.
Proof.
  intros Hv. unfold cv_get.
  erewrite bind_run by (eapply load_run; [exact Hv | reflexivity]). reflexivity.
Qed.

Lemma cv_set_run (upd : cv → cv) a v c k :
  heap k !! a = Some (OCv v) →
  cv_set upd (Some a) c k = Done () (set_heap (<[a := OCv (upd v)]> (heap k)) k).
Proof.
  intros Hv. unfold cv_set.
  erewrite bind_run by (eapply load_run; [exact Hv | reflexivity]). reflexivity.
Qed.

Ltac heap_lookup :=
  simpl;
  repeat first
    [ rewrite lookup_insert_eq
    | rewrite lookup_delete_eq
    | rewrite lookup_insert_ne by lia
    | rewrite lookup_delete_ne by lia ];
  try reflexivity.

(** cv_create with memory to spare, on any heap: the block's leftover in
    [cvWchan] decides.  A non-NULL leftover is returned as the wait
    channel, next to the wait channel stored as the name; a NULL leftover
    makes cv_create free the wait channel and the structure and return
    NULL.  The name string stays allocated either way. *)
Lemma cv_create_with_memory (name : string) (junk : cv) (c : cpu) (k : kstate) :
  alloc_ok k = [] →
  ∃ k', cv_create name junk c k
        = Done (if nonnull (cvWchan junk) then Some (brk k) else NULL) k'
        ∧ heap k' !! S (brk k) = Some (OString name)
        ∧ if nonnull (cvWchan junk)
          then cv_at k' (Some (brk k))
               = Some (mkCv (Some (S (S (brk k)))) (cvWchan junk) Ext.Unlocked)
               ∧ wchan_at k' (Some (S (S (brk k)))) = Some (mkWchan (Some (S (brk k))) [])
          else heap k' !! brk k = None ∧ heap k' !! S (S (brk k)) = None.
Proof.
  intros Hok. destruct junk as [jname leftover jlock].
  unfold cv_create, kmalloc, kstrdup, wchan_create.
  erewrite bind_run by (apply alloc_run; exact Hok). simpl.
  erewrite bind_run by (apply alloc_run; reflexivity). simpl.
  erewrite bind_run by (eapply cv_set_run; heap_lookup).
  erewrite bind_run by (eapply cv_get_run; heap_lookup). simpl.
  erewrite bind_run by (eapply cv_get_run; heap_lookup). simpl.
  erewrite bind_run by (apply alloc_run; reflexivity). simpl.
  erewrite bind_run by (eapply cv_set_run; heap_lookup).
  erewrite bind_run by (eapply cv_get_run; heap_lookup). simpl.
  destruct leftover as [leftover|]; simpl.
  - unfold spinlock_init, store_spin.
    erewrite bind_run by (eapply cv_set_run; heap_lookup).
    eexists. split; [reflexivity |]. unfold cv_at, wchan_at. heap_lookup.
    split; [| split]; heap_lookup.
  - erewrite bind_run by (eapply cv_get_run; heap_lookup). simpl.
    erewrite bind_run by (eapply (kfree_run _ (OWchan _)); heap_lookup).
    erewrite bind_run by (eapply (kfree_run _ (OCv _)); heap_lookup).
    eexists. split; [reflexivity |]. split; [| split]; heap_lookup.
Qed.

Lemma sem_get_run {A} (f : semaphore → A) a v c k :
  heap k !! a = Some (OSem v) → sem_get f (Some a) c k = Done (f v) k.
Proof.
  intros Hv. unfold sem_get.
  erewrite bind_run by (eapply load_run; [exact Hv | reflexivity]). reflexivity.
Qed.

Lemma sem_set_run (upd : semaphore → semaphore) a v c k :
  heap k !! a = Some (OSem v) →
  sem_set upd (Some a) c k = Done () (set_heap (<[a := OSem (upd v)]> (heap k)) k).
Proof.
  intros Hv. unfold sem_set.
  erewrite bind_run by (eapply load_run; [exact Hv | reflexivity]). reflexivity.
Qed.

(** sem_create with memory to spare: the semaphore comes out with the
    count it was given, its guard free and its wait channel empty, which
    is the semaphore [SemSteps.init] starts from. *)
Lemma sem_create_with_memory (name : string) (n : Z) (junk : semaphore) (c : cpu)
    (k : kstate) :
  alloc_ok k = [] →
  ∃ k', sem_create name n junk c k = Done (Some (brk k)) k'
        ∧ sem_at k' (Some (brk k))
          = Some (mkSem (Some (S (brk k))) (Some (S (S (brk k)))) Ext.Unlocked n)
        ∧ wchan_at k' (Some (S (S (brk k)))) = Some (mkWchan (Some (S (brk k))) [])
        ∧ SemSteps.sem_count (SemSteps.init n (λ _, false)) = n
        ∧ SemSteps.sem_lock (SemSteps.init n (λ _, false)) = Ext.Unlocked
        ∧ SemSteps.sem_wchan (SemSteps.init n (λ _, false)) = [].
Proof.
  intros Hok. destruct junk as [jname jwchan jlock jcount].
  unfold sem_create, kmalloc, kstrdup, wchan_create.
  erewrite bind_run by (apply alloc_run; exact Hok). simpl.
  erewrite bind_run by (apply alloc_run; reflexivity). simpl.
  erewrite bind_run by (eapply sem_set_run; heap_lookup).
  erewrite bind_run by (eapply sem_get_run; heap_lookup). simpl.
  erewrite bind_run by (eapply sem_get_run; heap_lookup). simpl.
  erewrite bind_run by (apply alloc_run; reflexivity). simpl.
  erewrite bind_run by (eapply sem_set_run; heap_lookup).
  erewrite bind_run by (eapply sem_get_run; heap_lookup). simpl.
  unfold spinlock_init, store_spin.
  erewrite bind_run by (eapply sem_set_run; heap_lookup).
  erewrite bind_run by (eapply sem_set_run; heap_lookup).
  eexists. split; [reflexivity |]. unfold sem_at, wchan_at.
  split; [| split; [| split; [| split]]]; heap_lookup.
Qed.

(** lock_create with memory to spare, on any heap and whatever the block
    held: the lock comes out available, without owner, its guard free and
    its wait channel empty. *)
Lemma lock_create_with_memory (name : string) (junk : lock) (c : cpu) (k : kstate) :
  alloc_ok k = [] →
  ∃ k', lock_create name junk c k = Done (Some (brk k)) k'
        ∧ lock_at k' (Some (brk k))
          = Some (mkLock (Some (S (brk k))) (Some (S (S (brk k)))) Ext.Unlocked 1 None)
        ∧ heap k' !! S (brk k) = Some (OString name)
        ∧ wchan_at k' (Some (S (S (brk k)))) = Some (mkWchan (Some (S (brk k))) []).
Proof.
  intros Hok. destruct junk as [jname jwchan jlock jflag jowner].
  unfold lock_create, kmalloc, kstrdup, wchan_create.
  erewrite bind_run by (apply alloc_run; exact Hok). simpl.
  erewrite bind_run by (apply alloc_run; reflexivity). simpl.
  erewrite bind_run by (eapply lock_set_run; heap_lookup).
  erewrite bind_run by (eapply lock_get_run; heap_lookup). simpl.
  erewrite bind_run by (eapply lock_get_run; heap_lookup). simpl.
  erewrite bind_run by (apply alloc_run; reflexivity). simpl.
  erewrite bind_run by (eapply lock_set_run; heap_lookup).
  erewrite bind_run by (eapply lock_get_run; heap_lookup). simpl.
  unfold spinlock_initialize, spinlock_init, store_spin.
  erewrite bind_run by (eapply lock_set_run; heap_lookup).
  erewrite bind_run by (eapply lock_set_run; heap_lookup).
  erewrite bind_run by (eapply lock_set_run; heap_lookup).
  eexists. split; [reflexivity |]. unfold lock_at, wchan_at.
  split; [| split]; heap_lookup.
Qed.

(** lock_acquire of a well-formed lock that is available and whose guard
    is free, by a thread with thread identity the owner field does not
    name: the call returns with the lock held and the caller as owner. *)
Lemma lock_acquire_run (c : cpu) (t : tid) (k : kstate) (a : addr) (l : lock) (w : wchan) :
  lock_wf k a l w → lockProtect l = Ext.Unlocked →
  CURCPU_EXISTS c = true → curthread c = Some t → t_in_interrupt c = false →
  owner l ≠ Some t → 0 < flagLocked l →
  ∃ k', lock_acquire (Some a) c k = Done () k'
        ∧ lock_at k' (Some a)
          = Some (mkLock (lk_name l) (lockWchan l) Ext.Unlocked 0 (Some t)).
Proof.
  intros Hwf Hfree Hcpu Hcur Hirq Hown Hpos. destruct Hwf as (Ha & _ & _).
  destruct l as [nm wc lk fl ow]. simpl in *. subst lk.
  eexists. split.
  - unfold lock_acquire, curthread_in_interrupt.
    erewrite bind_run by reflexivity.
    erewrite bind_run.
    2:{ erewrite bind_run by reflexivity. rewrite Hcur, Hirq. reflexivity. }
    erewrite bind_run by reflexivity.
    erewrite bind_run by reflexivity.
    rewrite Hcpu, Hcur.
    erewrite bind_run.
    2:{ erewrite bind_run by (apply lock_get_run; exact Ha).
        rewrite bool_decide_eq_false_2 by exact Hown. reflexivity. }
    erewrite bind_run by (apply spinlock_acquire_lock_run; [exact Ha | reflexivity]).
    unfold lock_acquire_loop.
    erewrite bind_run by (apply lock_get_run; heap_lookup). simpl.
    destruct (fl =? 0) eqn:Hz; [apply Z.eqb_eq in Hz; lia |].
    erewrite bind_run by (apply lock_get_run; heap_lookup). simpl.
    apply Z.ltb_lt in Hpos. rewrite Hpos.
    erewrite bind_run by reflexivity.
    erewrite bind_run by (apply lock_set_run; heap_lookup).
    erewrite bind_run by reflexivity.
    rewrite Hcpu.
    erewrite bind_run by (apply lock_set_run; heap_lookup).
    apply spinlock_release_lock_run. heap_lookup.
  - unfold lock_at. heap_lookup. rewrite Hcur. reflexivity.
Qed.

Lemma lock_at_Some k a l :
  lock_at k (Some a) = Some l → heap k !! a = Some (OLock l).
Proof.
  unfold lock_at. simpl. destruct (heap k !! a) as [[]|]; simpl; congruence.
Qed.

(** *** The concrete kernels are what their names say *)

Ltac conjuncts := repeat match goal with |- _ ∧ _ => split end.
Ltac evaluate := conjuncts; vm_compute; reflexivity.

Lemma created_by_lock_create :
  lock_create "L" junk_lock thread_A boot = Done L created
  ∧ lock_at created L = Some (mkLock (Some 1%nat) (Some 2%nat) Ext.Unlocked 1 None)
  ∧ wchan_at created (Some 2%nat) = Some (mkWchan (Some 1%nat) []).
Proof. evaluate. Qed.

Lemma held_by_A_by_lock_acquire :
  lock_acquire L thread_A created = Done () held_by_A
  ∧ lock_at held_by_A L = Some (mkLock (Some 1%nat) (Some 2%nat) Ext.Unlocked 0 (Some A)).
Proof. evaluate. Qed.

Lemma B_queued_by_lock_acquire :
  lock_acquire L thread_B held_by_A = Asleep (Some 2%nat) B_queued
  ∧ lock_at B_queued L = Some (mkLock (Some 1%nat) (Some 2%nat) Ext.Unlocked 0 (Some A))
  ∧ wchan_at B_queued (Some 2%nat) = Some (mkWchan (Some 1%nat) [B]).
Proof. evaluate. Qed.

(** B, woken by A's lock_release, finishes its lock_acquire: it holds the
    lock. *)
Lemma B_acquires_after_wake :
  lock_at released_with_B_queued L
    = Some (mkLock (Some 1%nat) (Some 2%nat) Ext.Unlocked 1 (Some A))
  ∧ result (lock_acquire_wake L thread_B released_with_B_queued) = Some ()
  ∧ lock_at (final (lock_acquire_wake L thread_B released_with_B_queued)) L
    = Some (mkLock (Some 1%nat) (Some 2%nat) Ext.Unlocked 0 (Some B)).
Proof. evaluate. Qed.

(** *** Claims *)

(** C1: with thread A holding the lock (indicator 0, owner A), thread B,
    with thread identity available, calls lock_release: the call
    returns; the lock is then available and its owner field names B.
    Line 257 stores [curthread] into [lock->owner] and tests the stored
    pointer, so the assertion holds for every caller that is a thread. *)
Theorem lock_release_by_other_thread_returns :
  lock_at held_by_A L = Some (mkLock (Some 1%nat) (Some 2%nat) Ext.Unlocked 0 (Some A))
  ∧ CURCPU_EXISTS thread_B = true
  ∧ curthread thread_B = Some B
  ∧ result (lock_release L thread_B held_by_A) = Some ()
  ∧ lock_at (final (lock_release L thread_B held_by_A)) L
    = Some (mkLock (Some 1%nat) (Some 2%nat) Ext.Unlocked 1 (Some B)).
Proof. evaluate. Qed.

(** C2: with thread A holding the lock, lock_do_i_hold called by thread
    B, with thread identity available, returns true; so it does on the
    lock just created, whose owner field is NULL.  Before threads exist
    ([CURCPU_EXISTS] false, [curthread] NULL) it returns true on the lock
    just created, where no owner is recorded. *)
Theorem lock_do_i_hold_true_for_other_thread :
  (owner <$> lock_at held_by_A L = Some (Some A)
   ∧ lock_do_i_hold L thread_B held_by_A = Done true held_by_A)
  ∧ (owner <$> lock_at created L = Some None
     ∧ lock_do_i_hold L thread_B created = Done true created)
  ∧ lock_do_i_hold L early_boot created = Done true created.
Proof. evaluate. Qed.

(** C3: cv_create stores the wait channel in [cv_name] and tests
    [cvWchan], which nothing has written.  With every allocation
    succeeding and a non-NULL leftover in [cvWchan], the structure
    returned has the leftover as its wait channel (no wait channel is at
    that address) and the wait channel where its name should be.  With
    the wait-channel allocation failing and the same leftover, cv_create
    still returns the structure, its name NULL and the name string left
    allocated.  With every allocation succeeding and a NULL leftover,
    cv_create returns NULL and leaves the name string allocated. *)
Theorem cv_create_loses_wait_channel :
  (result (cv_create "cv" junk_cv thread_A boot) = Some (Some 0%nat)
   ∧ cv_at (final (cv_create "cv" junk_cv thread_A boot)) (Some 0%nat)
     = Some (mkCv (Some 2%nat) (Some 99%nat) Ext.Unlocked)
   ∧ wchan_at (final (cv_create "cv" junk_cv thread_A boot)) (Some 99%nat) = None
   ∧ wchan_at (final (cv_create "cv" junk_cv thread_A boot)) (Some 2%nat)
     = Some (mkWchan (Some 1%nat) []))
  ∧ (result (cv_create "cv" junk_cv thread_A no_memory_for_wchan) = Some (Some 0%nat)
     ∧ cv_at (final (cv_create "cv" junk_cv thread_A no_memory_for_wchan)) (Some 0%nat)
       = Some (mkCv NULL (Some 99%nat) Ext.Unlocked)
     ∧ heap (final (cv_create "cv" junk_cv thread_A no_memory_for_wchan)) !! 1%nat
       = Some (OString "cv"))
  ∧ (result (cv_create "cv" zeroed_cv thread_A boot) = Some NULL
     ∧ heap (final (cv_create "cv" zeroed_cv thread_A boot)) !! 1%nat
       = Some (OString "cv")).
Proof. evaluate. Qed.

(** C4: with thread A holding the lock and thread B asleep on its wait
    channel, A calls lock_release: the call returns, the indicator is
    back at "available", B is taken off the wait channel by the one
    wake-one call made between taking and giving up the guard, and the
    owner field still names A. *)
Theorem lock_release_leaves_owner_set :
  lock_release L thread_A B_queued = Done () released_with_B_queued
  ∧ lock_at released_with_B_queued L
    = Some (mkLock (Some 1%nat) (Some 2%nat) Ext.Unlocked 1 (Some A))
  ∧ wchan_at released_with_B_queued (Some 2%nat) = Some (mkWchan (Some 1%nat) [])
  ∧ log released_with_B_queued
    = log B_queued ++ [EvSpinAcquire (lockProtect_of L);
                       EvWakeOne (Some 2%nat) (Some B);
                       EvSpinRelease (lockProtect_of L)].
Proof. evaluate. Qed.

(** C5: lock_create gives FREE and lock_acquire by A gives HELD A; then
    lock_release by A gives a lock that is available with owner A, which
    is neither FREE nor HELD; lock_release by B of the lock A holds
    returns too and gives a lock that is available with owner B; and
    lock_release of the lock nobody holds moves the indicator to 2. *)
Theorem lock_release_leaves_unlisted_state :
  spec_state_of <$> lock_at created L = Some (Some FREE)
  ∧ spec_state_of <$> lock_at held_by_A L = Some (Some (HELD A))
  ∧ lock_release L thread_A held_by_A = Done () released_by_A
  ∧ lock_at released_by_A L
    = Some (mkLock (Some 1%nat) (Some 2%nat) Ext.Unlocked 1 (Some A))
  ∧ spec_state_of <$> lock_at released_by_A L = Some None
  ∧ spec_state_of <$> lock_at (final (lock_release L thread_B held_by_A)) L = Some None
  ∧ result (lock_release L thread_A created) = Some ()
  ∧ flagLocked <$> lock_at (final (lock_release L thread_A created)) L = Some 2.
Proof. evaluate. Qed.

(** C6, as the claim has it: a lock that is held (indicator 0, owner A)
    and has nobody queued is destroyed without complaint. *)
Lemma lock_destroy_of_held_lock_returns :
  ¬ (∀ (c : cpu) (k : kstate) (a : addr) (l : lock),
       heap k !! a = Some (OLock l) → flagLocked l = 0 →
       result (lock_destroy (Some a) c k) = None).
Proof.
  intros H.
  specialize (H thread_B held_by_A 0%nat
                (mkLock (Some 1%nat) (Some 2%nat) Ext.Unlocked 0 (Some A))).
  assert (Hd : result (lock_destroy (Some 0%nat) thread_B held_by_A) = Some ())
    by (vm_compute; reflexivity).
  rewrite H in Hd; [discriminate | vm_compute; reflexivity | reflexivity].
Qed.

(** C6, amended: on a well-formed lock, lock_destroy stops the kernel
    when a thread is queued on the lock's wait channel, and when the
    guard spinlock is held; otherwise it returns with the lock's three
    blocks freed, whatever the indicator and the owner field hold: a
    held lock is not refused. *)
Theorem lock_destroy_checks_queue_not_holder (c : cpu) (k : kstate) (a : addr)
    (l : lock) (w : wchan) :
  lock_wf k a l w →
  (wc_threads w ≠ [] → ∃ why, lock_destroy (Some a) c k = Panic why k)
  ∧ (lockProtect l ≠ Ext.Unlocked →
     lock_destroy (Some a) c k = Panic spinlock_still_held k)
  ∧ (wc_threads w = [] → lockProtect l = Ext.Unlocked →
     ∃ k', lock_destroy (Some a) c k = Done () k'
           ∧ heap k' !! a = None
           ∧ (∀ nm, lk_name l = Some nm → heap k' !! nm = None)
           ∧ (∀ wc, lockWchan l = Some wc → heap k' !! wc = None)).
Proof.
  intros Hwf.
  destruct (lock_destroy_run c k a l w Hwf) as (nm & wc & Hnm & Hwc & Hrun).
  rewrite Hrun. split; [| split].
  - intros Hq. destruct (lockProtect l); simpl; [| eauto].
    destruct (wc_threads w); [congruence | simpl; eauto].
  - intros Hlk. destruct (lockProtect l); [congruence | reflexivity].
  - intros -> ->. simpl. eexists. split; [reflexivity |]. simpl.
    split; [apply lookup_delete_eq |]. split.
    + intros nm' Hnm'. rewrite Hnm in Hnm'. injection Hnm' as <-.
      destruct (decide (a = nm)) as [->|Hne]; [apply lookup_delete_eq |].
      rewrite lookup_delete_ne by exact Hne. apply lookup_delete_eq.
    + intros wc' Hwc'. rewrite Hwc in Hwc'. injection Hwc' as <-.
      destruct (decide (a = wc)) as [->|Hne]; [apply lookup_delete_eq |].
      rewrite lookup_delete_ne by exact Hne.
      destruct (decide (nm = wc)) as [->|Hne']; [apply lookup_delete_eq |].
      rewrite lookup_delete_ne by exact Hne'. apply lookup_delete_eq.
Qed.

(** The lock A holds is well formed, has a free guard and nobody queued:
    lock_destroy, called by B, returns. *)
Lemma lock_destroy_checks_queue_not_holder_witness :
  lock_wf held_by_A 0%nat
    (mkLock (Some 1%nat) (Some 2%nat) Ext.Unlocked 0 (Some A))
    (mkWchan (Some 1%nat) [])
  ∧ ∃ k', lock_destroy L thread_B held_by_A = Done () k' ∧ heap k' !! 0%nat = None.
Proof.
  assert (Hwf : lock_wf held_by_A 0%nat
            (mkLock (Some 1%nat) (Some 2%nat) Ext.Unlocked 0 (Some A))
            (mkWchan (Some 1%nat) [])).
  { split; [vm_compute; reflexivity |]. split.
    - exists 1%nat, "L". split; [reflexivity | vm_compute; reflexivity].
    - exists 2%nat. split; [reflexivity | vm_compute; reflexivity]. }
  split; [exact Hwf |].
  destruct (lock_destroy_checks_queue_not_holder thread_B held_by_A 0%nat _ _ Hwf)
    as (_ & _ & Hok).
  destruct (Hok eq_refl eq_refl) as (k' & Hrun & Hgone & _).
  exists k'. split; [exact Hrun | exact Hgone].
Defined.

(** C7: thread A, holding the lock, calls cv_wait.  It goes to sleep on
    the condition variable's wait channel with the guard still held (B's
    cv_signal then spins on the guard) and with the lock available but
    its owner field naming A.  When A is woken with the lock as it left
    it, cv_wait gives up the guard and calls lock_acquire, which stops
    the kernel at the assertion of line 206: cv_wait does not return. *)
Theorem cv_wait_wake_panics :
  lock_at A_about_to_wait L
    = Some (mkLock (Some 1%nat) (Some 2%nat) Ext.Unlocked 0 (Some A))
  ∧ cv_wait CV L thread_A A_about_to_wait = Asleep (Some 12%nat) A_waiting
  ∧ cv_at A_waiting CV
    = Some (mkCv (Some 11%nat) (Some 12%nat) (Ext.LockedBy (Some A)))
  ∧ wchan_at A_waiting (Some 12%nat) = Some (mkWchan (Some 11%nat) [A])
  ∧ lock_at A_waiting L
    = Some (mkLock (Some 1%nat) (Some 2%nat) Ext.Unlocked 1 (Some A))
  ∧ cv_signal CV L thread_B A_waiting = Spinning (cvLock_of CV) A_waiting
  ∧ (∃ k, cv_wait_wake CV L thread_A A_waiting = Panic (KASSERT_failed 206) k
          ∧ lock_at k L = lock_at A_waiting L)
  ∧ result (cv_wait_wake CV L thread_A A_waiting) = None.
Proof.
  conjuncts; try (vm_compute; reflexivity).
  eexists. split; vm_compute; reflexivity.
Qed.

(** C10, as the claim has it: the assertion that fires is the
    self-deadlock assertion of line 206, for every thread with thread
    identity available.  It is not: lock_release has no interrupt check,
    so a release made in interrupt context returns, and the lock_acquire
    that follows stops at the assertion of line 201, which comes before
    the one of line 206. *)
Lemma lock_acquire_after_release_not_always_206 :
  ¬ (∀ (c : cpu) (t : tid) (lock : ptr) (k k' : kstate),
       CURCPU_EXISTS c = true → curthread c = Some t →
       lock_release lock c k = Done () k' →
       lock_acquire lock c k' = Panic (KASSERT_failed 206) k').
Proof.
  intros H.
  specialize (H A_in_interrupt A L held_by_A released_in_interrupt eq_refl eq_refl).
  assert (Hrel : lock_release L A_in_interrupt held_by_A = Done () released_in_interrupt)
    by (vm_compute; reflexivity).
  assert (Hacq : lock_acquire L A_in_interrupt released_in_interrupt
                 = Panic (KASSERT_failed 201) released_in_interrupt)
    by (vm_compute; reflexivity).
  rewrite (H Hrel) in Hacq. discriminate.
Qed.

(** C10, amended: when a thread [t] with thread identity available calls
    lock_release and the call returns, the lock is available and its
    owner field is [t], not NULL; lock_acquire by [t] on that state, or
    on any later state in which the owner field is still [t], stops the
    kernel at the self-deadlock assertion of line 206 (at the assertion
    of line 201 if [t] runs in interrupt context), though [t] does not
    hold the lock. *)
Theorem lock_release_records_caller_as_owner (c : cpu) (t : tid) (lock : ptr)
    (k k' : kstate) :
  CURCPU_EXISTS c = true → curthread c = Some t →
  lock_release lock c k = Done () k' →
  (∃ l, lock_at k' lock = Some l ∧ owner l = Some t ∧ 0 < flagLocked l)
  ∧ lock_acquire lock c k'
    = Panic (KASSERT_failed (if t_in_interrupt c then 201 else 206)) k'
  ∧ (∀ k2 l2, lock_at k2 lock = Some l2 → owner l2 = Some t →
       lock_acquire lock c k2
       = Panic (KASSERT_failed (if t_in_interrupt c then 201 else 206)) k2).
Proof.
  intros Hcpu Hcur Hrel. destruct lock as [a|]; [| discriminate].
  destruct (lock_release_post c t a Hcpu Hcur k () k' I Hrel) as (l & Hl & Ho & Hfl).
  split; [| split].
  - exists l. unfold lock_at. simpl. rewrite Hl. auto.
  - eapply lock_acquire_by_owner_field; eassumption.
  - intros k2 l2 Hl2 Ho2. apply lock_at_Some in Hl2.
    eapply lock_acquire_by_owner_field; eassumption.
Qed.

(** A releases the lock it holds and calls lock_acquire again. *)
Lemma lock_release_records_caller_as_owner_witness :
  lock_release L thread_A held_by_A = Done () released_by_A
  ∧ (∃ l, lock_at released_by_A L = Some l ∧ owner l = Some A ∧ 0 < flagLocked l)
  ∧ lock_acquire L thread_A released_by_A = Panic (KASSERT_failed 206) released_by_A.
Proof.
  assert (Hrel : lock_release L thread_A held_by_A = Done () released_by_A)
    by (vm_compute; reflexivity).
  split; [exact Hrel |].
  destruct (lock_release_records_caller_as_owner thread_A A L held_by_A released_by_A
              eq_refl eq_refl Hrel) as (Hown & Hacq & _).
  split; [exact Hown | exact Hacq].
Defined.

End SynchProofs.

(** ** More on the semaphore steps *)

Module SemExtra.
Import Ext SemSteps SemInv SemProofs.
Local Open Scope Z_scope.

Lemma run_app s1 s2 w : run (s1 ++ s2) w = run s1 w ≫= run s2.
Proof.
  revert w. induction s1 as [|[i a] s1 IH]; intros w; simpl; [reflexivity |].
  destruct (step i a w) as [w1|]; simpl; [apply IH | reflexivity].
Qed.

(** A property kept by every statement, from worlds that satisfy the
    counter invariant, holds after every schedule. *)
Lemma run_keeps (J : world → Prop) n :
  (∀ i a w w', sem_inv n w → J w → step i a w = Some w' → J w') →
  ∀ sched w w', sem_inv n w → J w → run sched w = Some w' → J w'.
Proof.
  intros Hstep. induction sched as [|[i a] rest IH]; intros w w' Hinv HJ Hrun;
    simpl in Hrun.
  - injection Hrun as <-. exact HJ.
  - destruct (step i a w) as [w1|] eqn:Hs; simpl in Hrun; [| discriminate].
    eapply IH; [eapply step_inv; eassumption | eapply Hstep; eassumption | exact Hrun].
Qed.

(** X1: on a semaphore created with count [n], after any schedule, two
    threads that both stand at a statement between spinlock_acquire and
    spinlock_release of P or V are one and the same thread, and that
    thread holds the spinlock: the count is read and written by one thread
    at a time. *)
Theorem guard_excludes (n : Z) (irq : tid → bool) (sched : list (tid * action))
    (w : world) (i j : tid) :
  0 ≤ n < UINT_MOD →
  run sched (init n irq) = Some w →
  in_cs (t_pc (threads w i)) = true →
  in_cs (t_pc (threads w j)) = true →
  i = j ∧ sem_lock w = LockedBy (Some i).
Proof.
  intros Hn Hrun Hi Hj.
  destruct (run_inv n sched _ _ (init_inv n irq Hn) Hrun) as [_ Hm _].
  pose proof (Hm i Hi) as Hli. pose proof (Hm j Hj) as Hlj.
  split; [congruence | exact Hli].
Qed.

(** The guard at work: TA holds the spinlock inside P, and TB, inside V,
    cannot get past its spinlock_acquire. *)
Lemma guard_excludes_witness :
  run TA_inside_P (init 3 no_irq) = Some (after TA_inside_P (init 3 no_irq))
  ∧ step TB (Run 0) (after TA_inside_P (init 3 no_irq)) = None
  ∧ TA = TA ∧ sem_lock (after TA_inside_P (init 3 no_irq)) = LockedBy (Some TA).
Proof.
  split; [vm_compute; reflexivity |].
  split; [vm_compute; reflexivity |].
  apply (guard_excludes 3 no_irq TA_inside_P).
  - unfold UINT_MOD. lia.
  - vm_compute. reflexivity.
  - vm_compute. reflexivity.
  - vm_compute. reflexivity.
Defined.

(** *** Why the kernel stops *)

Lemma step_panic_ok n i a w w' :
  sem_inv n w → panic_ok n w → step i a w = Some w' → panic_ok n w'.
Proof.
  intros [Hr Hm Hc] _ Hs. unfold step in Hs.
  destruct (panicked w) eqn:Hpan; [discriminate |].
  assert (Hquiet : ∀ x, panicked x = None → panic_ok n x)
    by (intros x Hx; unfold panic_ok; rewrite Hx; exact I).
  destruct (t_pc (threads w i)) eqn:Hpc; destruct a as [sem|sem|pick];
    try discriminate; unfold acquire_then in Hs.
  all: try (destruct (spin_acquire (Some i) (sem_lock w)); simpl in Hs;
            [injection Hs as <-; apply Hquiet; exact Hpan | discriminate]).
  all: try (assert (Hl : sem_lock w = LockedBy (Some i))
              by (apply Hm; rewrite Hpc; reflexivity);
            pose proof (holder_pc_holder i w Hl) as Hh; rewrite Hpc in Hh;
            unfold count_ok in Hc; rewrite Hh in Hc).
  - destruct sem; [destruct (t_in_interrupt (threads w i)) |]; injection Hs as <-.
    + unfold panic_ok. simpl. auto.
    + apply Hquiet. exact Hpan.
    + unfold panic_ok. simpl. auto.
  - destruct sem; injection Hs as <-.
    + apply Hquiet. exact Hpan.
    + unfold panic_ok. simpl. auto.
  - destruct (sem_count w =? 0); injection Hs as <-; apply Hquiet; exact Hpan.
  - injection Hs as <-. apply Hquiet. exact Hpan.
  - destruct (0 <? sem_count w) eqn:Hz; injection Hs as <-.
    + apply Hquiet. exact Hpan.
    + apply Z.ltb_ge in Hz. lia.
  - injection Hs as <-. apply Hquiet. exact Hpan.
  - injection Hs as <-. apply Hquiet. exact Hpan.
  - injection Hs as <-. apply Hquiet. exact Hpan.
  - destruct (0 <? sem_count w) eqn:Hz; injection Hs as <-.
    + apply Hquiet. exact Hpan.
    + apply Z.ltb_ge in Hz. unfold panic_ok. simpl. right. right. right.
      destruct Hc as [Hc Hb].
      assert (Hzero : sem_count w = 0) by lia.
      split; [reflexivity |]. split; [exact Hzero |].
      change (balance n (panic 131 w)) with (balance n w).
      destruct (decide (balance n w + 1 = UINT_MOD)) as [He|He]; [lia |].
      rewrite Z.mod_small in Hc by lia. lia.
  - destruct (wake_one pick (sem_wchan w)) as [woken q]. injection Hs as <-.
    apply Hquiet. exact Hpan.
  - injection Hs as <-. apply Hquiet. exact Hpan.
Qed.

(** X2: on a semaphore created with count [n], after any schedule, the
    kernel has stopped only at line 91 or 126 (NULL semaphore), at line 99
    (P in interrupt context), or at line 131 with the count wrapped to 0
    after 2^32 - 1 units were available; the assertion of line 118 never
    fails. *)
Theorem kernel_stops_only_for (n : Z) (irq : tid → bool) (sched : list (tid * action))
    (w : world) (line : nat) :
  0 ≤ n < UINT_MOD →
  run sched (init n irq) = Some w →
  panicked w = Some line →
  line ≠ 118%nat
  ∧ (line = 91%nat ∨ line = 99%nat ∨ line = 126%nat
     ∨ (line = 131%nat ∧ sem_count w = 0
        ∧ n + V_returns w - P_returns w = UINT_MOD - 1)).
Proof.
  intros Hn Hrun Hline.
  assert (Hok : panic_ok n w).
  { eapply (run_keeps (panic_ok n) n (step_panic_ok n)); [| | exact Hrun].
    - apply init_inv, Hn.
    - exact I. }
  unfold panic_ok in Hok. rewrite Hline in Hok. unfold balance in Hok.
  split; [| exact Hok].
  destruct Hok as [-> | [-> | [-> | [-> _]]]]; discriminate.
Qed.

(** A V on a semaphore created with 2^32 - 1 units stops the kernel at
    line 131. *)
Lemma kernel_stops_only_for_witness :
  run (take 4 (V_call TA 0)) (init (UINT_MOD - 1) no_irq) = Some full_then_V
  ∧ panicked full_then_V = Some 131%nat
  ∧ 131%nat ≠ 118%nat
  ∧ (131%nat = 91%nat ∨ 131%nat = 99%nat ∨ 131%nat = 126%nat
     ∨ (131%nat = 131%nat ∧ sem_count full_then_V = 0
        ∧ (UINT_MOD - 1) + V_returns full_then_V - P_returns full_then_V
          = UINT_MOD - 1)).
Proof.
  split; [vm_compute; reflexivity |].
  split; [vm_compute; reflexivity |].
  apply (kernel_stops_only_for (UINT_MOD - 1) no_irq (take 4 (V_call TA 0))).
  - unfold UINT_MOD. lia.
  - vm_compute. reflexivity.
  - vm_compute. reflexivity.
Defined.

(** *** Interrupt context *)

Lemma t_in_interrupt_set_pc i p ts j :
  t_in_interrupt (set_pc i p ts j) = t_in_interrupt (ts j).
Proof. unfold set_pc. destruct (decide (j = i)); reflexivity. Qed.

Lemma in_P_wake_pc p : in_P (wake_pc p) = in_P p.
Proof. destruct p; reflexivity. Qed.

Lemma irq_ok_goto irq i p w :
  (irq i = true → in_P p = false) → irq_ok irq w → irq_ok irq (goto i p w).
Proof.
  intros Hp Hok j. destruct (Hok j) as [Hf Hj]. simpl.
  rewrite t_in_interrupt_set_pc. split; [exact Hf |].
  thread_cases j i; auto.
Qed.

Lemma irq_ok_wake irq woken w q :
  irq_ok irq w → irq_ok irq (with_threads (wake woken (threads w)) (with_wchan q w)).
Proof.
  intros Hok j. destruct (Hok j) as [Hf Hj]. simpl.
  destruct woken as [k|]; simpl; [| auto].
  rewrite t_in_interrupt_set_pc. split; [exact Hf |].
  thread_cases j k; [| auto].
  rewrite in_P_wake_pc. exact Hj.
Qed.

Lemma step_irq_ok irq i a w w' :
  irq_ok irq w → step i a w = Some w' → irq_ok irq w'.
Proof.
  intros Hok Hs. unfold step in Hs.
  destruct (panicked w); [discriminate |].
  destruct (Hok i) as [Hflag Hout].
  assert (Hmove : ∀ p w0, irq_ok irq w0 → (irq i = true → in_P p = false) →
                          irq_ok irq (goto i p w0))
    by (intros p w0 H0 Hp; apply irq_ok_goto; assumption).
  assert (HinP : in_P (t_pc (threads w i)) = true → irq i = true → False)
    by (intros Hin Htrue; apply Hout in Htrue; congruence).
  destruct (t_pc (threads w i)) eqn:Hpc; destruct a as [sem|sem|pick];
    try discriminate; unfold acquire_then in Hs.
  - (* Idle, CallP *)
    destruct sem; [| injection Hs as <-; exact Hok].
    destruct (t_in_interrupt (threads w i)) eqn:Hirq; injection Hs as <-; [exact Hok |].
    apply Hmove; [exact Hok | congruence].
  - (* Idle, CallV *)
    destruct sem; injection Hs as <-; [| exact Hok].
    apply Hmove; [exact Hok | reflexivity].
  - destruct (spin_acquire (Some i) (sem_lock w)); simpl in Hs; [| discriminate].
    injection Hs as <-. apply (Hmove P103 (with_lock _ w)); [exact Hok |].
    intros Htrue. destruct (HinP eq_refl Htrue).
  - destruct (sem_count w =? 0); injection Hs as <-; apply Hmove; try exact Hok;
      intros Htrue; destruct (HinP eq_refl Htrue).
  - injection Hs as <-. apply (Hmove P116_asleep (with_lock _ (with_wchan _ w)));
      [exact Hok |]. intros Htrue. destruct (HinP eq_refl Htrue).
  - destruct (spin_acquire (Some i) (sem_lock w)); simpl in Hs; [| discriminate].
    injection Hs as <-. apply (Hmove P103 (with_lock _ w)); [exact Hok |].
    intros Htrue. destruct (HinP eq_refl Htrue).
  - destruct (0 <? sem_count w); injection Hs as <-; [| exact Hok].
    apply Hmove; [exact Hok |]. intros Htrue. destruct (HinP eq_refl Htrue).
  - injection Hs as <-. apply (Hmove P120 (with_count _ w)); [exact Hok |].
    intros Htrue. destruct (HinP eq_refl Htrue).
  - injection Hs as <-. intros j.
    exact (irq_ok_goto irq i Idle (with_lock (spin_release (sem_lock w)) w)
             (λ _, eq_refl) Hok j).
  - destruct (spin_acquire (Some i) (sem_lock w)); simpl in Hs; [| discriminate].
    injection Hs as <-. apply (Hmove V130 (with_lock _ w)); [exact Hok | reflexivity].
  - injection Hs as <-. apply (Hmove V131 (with_count _ w)); [exact Hok | reflexivity].
  - destruct (0 <? sem_count w); injection Hs as <-; [| exact Hok].
    apply Hmove; [exact Hok | reflexivity].
  - destruct (wake_one pick (sem_wchan w)) as [woken q]. injection Hs as <-.
    apply Hmove; [apply irq_ok_wake; exact Hok | reflexivity].
  - injection Hs as <-. intros j.
    exact (irq_ok_goto irq i Idle (with_lock (spin_release (sem_lock w)) w)
             (λ _, eq_refl) Hok j).
Qed.

Lemma run_irq_ok irq sched : ∀ w w', irq_ok irq w → run sched w = Some w' → irq_ok irq w'.
Proof.
  induction sched as [|[i a] rest IH]; intros w w' Hok Hrun; simpl in Hrun.
  - injection Hrun as <-. exact Hok.
  - destruct (step i a w) as [w1|] eqn:Hs; simpl in Hrun; [| discriminate].
    eapply IH; [eapply step_irq_ok; eassumption | exact Hrun].
Qed.

(** X3: after any schedule, a thread that runs in interrupt context
    stands at no statement of P (its call of P stopped the kernel at line
    99 before the spinlock was touched); it may stand anywhere in V. *)
Theorem P_never_runs_in_interrupt (n : Z) (irq : tid → bool)
    (sched : list (tid * action)) (w : world) (i : tid) :
  run sched (init n irq) = Some w →
  irq i = true →
  in_P (t_pc (threads w i)) = false.
Proof.
  intros Hrun Hirq.
  assert (Hok : irq_ok irq w).
  { eapply run_irq_ok; [| exact Hrun]. intros j. simpl. auto. }
  destruct (Hok i) as [_ Hout]. exact (Hout Hirq).
Qed.

(** The handler's V returns; its P stops the kernel at line 99 and the
    handler is still outside P. *)
Lemma P_never_runs_in_interrupt_witness :
  run handler_calls (init 0 two_handlers) = Some (after handler_calls (init 0 two_handlers))
  ∧ V_returns (after handler_calls (init 0 two_handlers)) = 1
  ∧ panicked (after handler_calls (init 0 two_handlers)) = Some 99%nat
  ∧ in_P (t_pc (threads (after handler_calls (init 0 two_handlers)) 2%nat)) = false.
Proof.
  split; [vm_compute; reflexivity |].
  split; [vm_compute; reflexivity |].
  split; [vm_compute; reflexivity |].
  apply (P_never_runs_in_interrupt 0 two_handlers handler_calls).
  - vm_compute. reflexivity.
  - reflexivity.
Defined.

(** *** The wait channel *)

Lemma NoDup_delete_elem (q : list tid) (k : nat) (j : tid) :
  NoDup q → q !! k = Some j →
  NoDup (delete k q) ∧ ∀ x, x ∈ delete k q ↔ x ∈ q ∧ x ≠ j.
Proof.
  intros Hnd Hk. pose proof (delete_Permutation q k j Hk) as Hperm.
  rewrite Hperm in Hnd. apply NoDup_cons in Hnd as [Hj Hnd'].
  split; [exact Hnd' |]. intros x.
  assert (Hiff : x ∈ q ↔ x ∈ j :: delete k q)
    by (split; intros H; [rewrite <- Hperm | rewrite Hperm]; exact H).
  rewrite Hiff, elem_of_cons. split.
  - intros Hx. split; [auto |]. intros ->. contradiction.
  - intros [[-> | Hx] Hne]; [congruence | exact Hx].
Qed.

Lemma wchan_ok_goto i p w :
  t_pc (threads w i) ≠ P116_asleep → p ≠ P116_asleep →
  wchan_ok w → wchan_ok (goto i p w).
Proof.
  intros Hi Hp [Hnd Hq]. split; [exact Hnd |]. intros j. simpl.
  thread_cases j i; [| apply Hq].
  rewrite Hq. split; intros H; congruence.
Qed.

Lemma step_wchan_ok i a w w' : wchan_ok w → step i a w = Some w' → wchan_ok w'.
Proof.
  intros Hok Hs. unfold step in Hs.
  destruct (panicked w); [discriminate |].
  assert (Hmove : ∀ p w0, wchan_ok w0 → threads w0 = threads w →
                          t_pc (threads w i) ≠ P116_asleep → p ≠ P116_asleep →
                          wchan_ok (goto i p w0)).
  { intros p w0 H0 Hts Hi Hp. apply wchan_ok_goto; [rewrite Hts; exact Hi | exact Hp | exact H0]. }
  destruct (t_pc (threads w i)) eqn:Hpc; destruct a as [sem|sem|pick];
    try discriminate; unfold acquire_then in Hs.
  - destruct sem; [| injection Hs as <-; exact Hok].
    destruct (t_in_interrupt (threads w i)); injection Hs as <-; [exact Hok |].
    apply Hmove; [exact Hok | reflexivity | discriminate | discriminate].
  - destruct sem; injection Hs as <-; [| exact Hok].
    apply Hmove; [exact Hok | reflexivity | discriminate | discriminate].
  - destruct (spin_acquire (Some i) (sem_lock w)); simpl in Hs; [| discriminate].
    injection Hs as <-.
    apply (Hmove P103 (with_lock _ w)); [exact Hok | reflexivity | discriminate | discriminate].
  - destruct (sem_count w =? 0); injection Hs as <-;
      (apply Hmove; [exact Hok | reflexivity | discriminate | discriminate]).
  - (* P116: the caller joins the queue *)
    injection Hs as <-. destruct Hok as [Hnd Hq].
    assert (Hnew : i ∉ sem_wchan w) by (rewrite Hq, Hpc; discriminate).
    split; simpl.
    + unfold enqueue. apply NoDup_app. split; [exact Hnd |]. split.
      * intros x Hx Hx'. apply list_elem_of_singleton in Hx'. congruence.
      * apply NoDup_singleton.
    + intros j. unfold enqueue. rewrite elem_of_app, list_elem_of_singleton.
      thread_cases j i.
      * split; auto.
      * rewrite Hq. split; [intros [H | H]; [exact H | congruence] | auto].
  - destruct (spin_acquire (Some i) (sem_lock w)); simpl in Hs; [| discriminate].
    injection Hs as <-.
    apply (Hmove P103 (with_lock _ w)); [exact Hok | reflexivity | discriminate | discriminate].
  - destruct (0 <? sem_count w); injection Hs as <-; [| exact Hok].
    apply Hmove; [exact Hok | reflexivity | discriminate | discriminate].
  - injection Hs as <-.
    apply (Hmove P120 (with_count _ w)); [exact Hok | reflexivity | discriminate | discriminate].
  - injection Hs as <-.
    exact (Hmove Idle (with_lock (spin_release (sem_lock w)) w) Hok eq_refl
             ltac:(discriminate) ltac:(discriminate)).
  - destruct (spin_acquire (Some i) (sem_lock w)); simpl in Hs; [| discriminate].
    injection Hs as <-.
    apply (Hmove V130 (with_lock _ w)); [exact Hok | reflexivity | discriminate | discriminate].
  - injection Hs as <-.
    apply (Hmove V131 (with_count _ w)); [exact Hok | reflexivity | discriminate | discriminate].
  - destruct (0 <? sem_count w); injection Hs as <-; [| exact Hok].
    apply Hmove; [exact Hok | reflexivity | discriminate | discriminate].
  - (* V132: one thread leaves the queue *)
    destruct Hok as [Hnd Hq].
    destruct (wake_one pick (sem_wchan w)) as [woken q'] eqn:Hw. injection Hs as <-.
    unfold wake_one in Hw. destruct (sem_wchan w) as [|h rest] eqn:Hqueue.
    + injection Hw as <- <-. split; simpl; [constructor |].
      intros j. thread_cases j i.
      * split; [intros H; inversion H | discriminate].
      * rewrite <- Hq. reflexivity.
    + cbv zeta in Hw. remember (pick mod length (h :: rest))%nat as k eqn:Hkdef.
      assert (Hk : (k < length (h :: rest))%nat)
        by (subst k; apply Nat.mod_upper_bound; discriminate).
      destruct (lookup_lt_is_Some_2 (h :: rest) k Hk) as [j Hj].
      rewrite Hj in Hw. injection Hw as <- <-.
      destruct (NoDup_delete_elem (h :: rest) k j Hnd Hj) as [Hnd' Hmem].
      assert (Hjs : t_pc (threads w j) = P116_asleep)
        by (apply Hq; eapply list_elem_of_lookup_2; exact Hj).
      assert (Hji : j ≠ i) by (intros ->; congruence).
      split; simpl; [exact Hnd' |].
      intros x. rewrite Hmem, Hq. thread_cases x i.
      * split; [intros [H _]; congruence | discriminate].
      * thread_cases x j.
        -- rewrite Hjs. simpl. split; [intros [_ H]; congruence | discriminate].
        -- split; [intros [H _]; exact H | auto].
  - injection Hs as <-.
    exact (Hmove Idle (with_lock (spin_release (sem_lock w)) w) Hok eq_refl
             ltac:(discriminate) ltac:(discriminate)).
Qed.

Lemma run_wchan_ok sched : ∀ w w', wchan_ok w → run sched w = Some w' → wchan_ok w'.
Proof.
  induction sched as [|[i a] rest IH]; intros w w' Hok Hrun; simpl in Hrun.
  - injection Hrun as <-. exact Hok.
  - destruct (step i a w) as [w1|] eqn:Hs; simpl in Hrun; [| discriminate].
    eapply IH; [eapply step_wchan_ok; eassumption | exact Hrun].
Qed.

Lemma init_wchan_ok n irq : wchan_ok (init n irq).
Proof.
  split; simpl; [constructor |].
  intros j. split; [intros H; inversion H | discriminate].
Qed.

(** X4: after any schedule, the semaphore's wait channel holds exactly
    the threads that are asleep in the wchan_sleep of line 116, each of
    them once: a thread that went to sleep is there for a V to wake, and a
    thread that was woken or never slept is not. *)
Theorem sleepers_are_queued (n : Z) (irq : tid → bool) (sched : list (tid * action))
    (w : world) :
  run sched (init n irq) = Some w →
  NoDup (sem_wchan w)
  ∧ ∀ j, j ∈ sem_wchan w ↔ t_pc (threads w j) = P116_asleep.
Proof.
  intros Hrun. exact (run_wchan_ok sched _ _ (init_wchan_ok n irq) Hrun).
Qed.

(** TA and thread 2 asleep on a semaphore with count 0. *)
Lemma sleepers_are_queued_witness :
  run two_sleepers (init 0 no_irq) = Some (after two_sleepers (init 0 no_irq))
  ∧ sem_wchan (after two_sleepers (init 0 no_irq)) = [TA; 2%nat]
  ∧ NoDup (sem_wchan (after two_sleepers (init 0 no_irq)))
  ∧ ∀ j, j ∈ sem_wchan (after two_sleepers (init 0 no_irq))
         ↔ t_pc (threads (after two_sleepers (init 0 no_irq)) j) = P116_asleep.
Proof.
  split; [vm_compute; reflexivity |].
  split; [vm_compute; reflexivity |].
  apply (sleepers_are_queued 0 no_irq two_sleepers).
  vm_compute. reflexivity.
Defined.

(** X5: after any schedule, when a thread executes the wchan_wakeone of
    line 132 while threads are queued, the step takes exactly one thread
    off the wait channel; that thread was asleep in line 116 and now
    stands at its wake-up; nobody else is moved and the count is not
    touched. *)
Theorem V_wakes_one_sleeper (n : Z) (irq : tid → bool) (sched : list (tid * action))
    (w : world) (i : tid) (pick : nat) :
  run sched (init n irq) = Some w →
  panicked w = None →
  t_pc (threads w i) = V132 →
  sem_wchan w ≠ [] →
  ∃ w' j, step i (Run pick) w = Some w'
          ∧ j ∈ sem_wchan w
          ∧ t_pc (threads w j) = P116_asleep
          ∧ t_pc (threads w' j) = P116_woken
          ∧ (j ∉ sem_wchan w')
          ∧ (length (sem_wchan w') + 1 = length (sem_wchan w))%nat
          ∧ (∀ x, x ≠ i → x ≠ j → threads w' x = threads w x)
          ∧ sem_count w' = sem_count w.
Proof.
  intros Hrun Hpan Hpc Hne.
  destruct (run_wchan_ok sched _ _ (init_wchan_ok n irq) Hrun) as [Hnd Hq].
  unfold step. rewrite Hpan, Hpc. unfold wake_one.
  destruct (sem_wchan w) as [|h rest] eqn:Hqueue; [congruence |].
  cbv zeta. remember (pick mod length (h :: rest))%nat as k eqn:Hkdef.
  assert (Hk : (k < length (h :: rest))%nat)
    by (subst k; apply Nat.mod_upper_bound; discriminate).
  destruct (lookup_lt_is_Some_2 (h :: rest) k Hk) as [j Hj].
  destruct (NoDup_delete_elem (h :: rest) k j Hnd Hj) as [Hnd' Hmem].
  assert (Hin : j ∈ h :: rest) by (eapply list_elem_of_lookup_2; exact Hj).
  assert (Hjs : t_pc (threads w j) = P116_asleep) by (apply Hq, Hin).
  assert (Hji : j ≠ i) by (intros ->; congruence).
  rewrite Hj. eexists _, j. split; [reflexivity |]. simpl.
  split; [exact Hin |]. split; [exact Hjs |]. split.
  { rewrite set_pc_other by exact Hji. rewrite set_pc_same, Hjs. reflexivity. }
  split. { rewrite Hmem. intros [_ H]. congruence. }
  split. { rewrite length_delete by eauto. simpl. lia. }
  split; [| reflexivity].
  intros x Hxi Hxj. rewrite !set_pc_other by assumption. reflexivity.
Qed.

(** With TA and thread 2 asleep, TB's wake-one with choice 1 wakes
    thread 2. *)
Lemma V_wakes_one_sleeper_witness :
  run two_sleepers_and_V (init 0 no_irq) = Some (after two_sleepers_and_V (init 0 no_irq))
  ∧ sem_wchan (after two_sleepers_and_V (init 0 no_irq)) = [TA; 2%nat]
  ∧ ∃ w' j, step TB (Run 1) (after two_sleepers_and_V (init 0 no_irq)) = Some w'
            ∧ j ∈ sem_wchan (after two_sleepers_and_V (init 0 no_irq))
            ∧ t_pc (threads (after two_sleepers_and_V (init 0 no_irq)) j) = P116_asleep
            ∧ t_pc (threads w' j) = P116_woken
            ∧ (j ∉ sem_wchan w')
            ∧ (length (sem_wchan w') + 1
               = length (sem_wchan (after two_sleepers_and_V (init 0 no_irq))))%nat
            ∧ (∀ x, x ≠ TB → x ≠ j →
                 threads w' x = threads (after two_sleepers_and_V (init 0 no_irq)) x)
            ∧ sem_count w' = sem_count (after two_sleepers_and_V (init 0 no_irq)).
Proof.
  split; [vm_compute; reflexivity |].
  split; [vm_compute; reflexivity |].
  apply (V_wakes_one_sleeper 0 no_irq two_sleepers_and_V).
  - vm_compute. reflexivity.
  - vm_compute. reflexivity.
  - vm_compute. reflexivity.
  - vm_compute. discriminate.
Defined.

(** *** Whole calls, nobody interfering *)

Section OneStatement.
Context (i : tid) (w : world).
Hypothesis Hpan : panicked w = None.

Lemma step_CallP :
  t_pc (threads w i) = Idle → t_in_interrupt (threads w i) = false →
  step i (CallP (Some ())) w = Some (goto i P102 w).
Proof. intros Hpc Hirq. unfold step. rewrite Hpan, Hpc, Hirq. reflexivity. Qed.

Lemma step_CallV :
  t_pc (threads w i) = Idle → step i (CallV (Some ())) w = Some (goto i V128 w).
Proof. intros Hpc. unfold step. rewrite Hpan, Hpc. reflexivity. Qed.

Lemma step_P102 k :
  t_pc (threads w i) = P102 → sem_lock w = Unlocked →
  step i (Run k) w = Some (goto i P103 (with_lock (LockedBy (Some i)) w)).
Proof.
  intros Hpc Hl. unfold step, acquire_then. rewrite Hpan, Hpc, Hl. reflexivity.
Qed.

Lemma step_V128 k :
  t_pc (threads w i) = V128 → sem_lock w = Unlocked →
  step i (Run k) w = Some (goto i V130 (with_lock (LockedBy (Some i)) w)).
Proof.
  intros Hpc Hl. unfold step, acquire_then. rewrite Hpan, Hpc, Hl. reflexivity.
Qed.

Lemma step_P103_unit k :
  t_pc (threads w i) = P103 → sem_count w ≠ 0 →
  step i (Run k) w = Some (goto i P118 w).
Proof.
  intros Hpc Hc. unfold step. rewrite Hpan, Hpc.
  apply Z.eqb_neq in Hc. rewrite Hc. reflexivity.
Qed.

Lemma step_P118 k :
  t_pc (threads w i) = P118 → 0 < sem_count w →
  step i (Run k) w = Some (goto i P119 w).
Proof.
  intros Hpc Hc. unfold step. rewrite Hpan, Hpc.
  apply Z.ltb_lt in Hc. rewrite Hc. reflexivity.
Qed.

Lemma step_P119 k :
  t_pc (threads w i) = P119 →
  step i (Run k) w = Some (goto i P120 (with_count (uint_decr (sem_count w)) w)).
Proof. intros Hpc. unfold step. rewrite Hpan, Hpc. reflexivity. Qed.

Lemma step_P120 k :
  t_pc (threads w i) = P120 →
  step i (Run k) w
  = Some (P_returned (goto i Idle (with_lock (spin_release (sem_lock w)) w))).
Proof. intros Hpc. unfold step. rewrite Hpan, Hpc. reflexivity. Qed.

Lemma step_V130 k :
  t_pc (threads w i) = V130 →
  step i (Run k) w = Some (goto i V131 (with_count (uint_incr (sem_count w)) w)).
Proof. intros Hpc. unfold step. rewrite Hpan, Hpc. reflexivity. Qed.

Lemma step_V131 k :
  t_pc (threads w i) = V131 → 0 < sem_count w →
  step i (Run k) w = Some (goto i V132 w).
Proof.
  intros Hpc Hc. unfold step. rewrite Hpan, Hpc.
  apply Z.ltb_lt in Hc. rewrite Hc. reflexivity.
Qed.

Lemma step_V132 k :
  t_pc (threads w i) = V132 →
  step i (Run k) w
  = Some (goto i V134
            (with_threads (wake (wake_one k (sem_wchan w)).1 (threads w))
               (with_wchan (wake_one k (sem_wchan w)).2 w))).
Proof.
  intros Hpc. unfold step. rewrite Hpan, Hpc.
  destruct (wake_one k (sem_wchan w)). reflexivity.
Qed.

Lemma step_V134 k :
  t_pc (threads w i) = V134 →
  step i (Run k) w
  = Some (V_returned (goto i Idle (with_lock (spin_release (sem_lock w)) w))).
Proof. intros Hpc. unfold step. rewrite Hpan, Hpc. reflexivity. Qed.

End OneStatement.

(** One statement forward: the side conditions are read off the world
    the previous statement left. *)
Ltac here := simpl; rewrite ?set_pc_same; first [reflexivity | assumption | lia].
Ltac forward lem := rewrite lem by here; simpl option_bind.

(** The six statements of P when a unit is there. *)
Lemma P_call_run (w : world) (i : tid) :
  panicked w = None →
  t_pc (threads w i) = Idle →
  t_in_interrupt (threads w i) = false →
  sem_lock w = Unlocked →
  0 < sem_count w < UINT_MOD →
  run (P_call i) w
  = Some (P_returned
            (goto i Idle
               (with_lock Unlocked
                  (goto i P120
                     (with_count (sem_count w - 1)
                        (goto i P119
                           (goto i P118
                              (goto i P103
                                 (with_lock (LockedBy (Some i)) (goto i P102 w)))))))))).
Proof.
  intros Hpan Hpc Hirq Hlock Hcount. unfold P_call, run.
  change (@mbind option _) with (@option_bind).
  forward step_CallP. forward step_P102. forward step_P103_unit.
  forward step_P118. forward step_P119. forward step_P120.
  simpl. rewrite uint_decr_pos by lia. reflexivity.
Qed.

(** X6: when a unit is available and the spinlock is free, a call of P by
    a thread outside interrupt context runs to its return without
    sleeping: the count is one less, the call is counted, the spinlock is
    free again, and the wait channel and the other threads are as
    before. *)
Theorem P_takes_available_unit (w : world) (i : tid) :
  panicked w = None →
  t_pc (threads w i) = Idle →
  t_in_interrupt (threads w i) = false →
  sem_lock w = Unlocked →
  0 < sem_count w < UINT_MOD →
  ∃ w', run (P_call i) w = Some w'
        ∧ sem_count w' = sem_count w - 1
        ∧ P_returns w' = P_returns w + 1
        ∧ V_returns w' = V_returns w
        ∧ sem_lock w' = Unlocked
        ∧ sem_wchan w' = sem_wchan w
        ∧ panicked w' = None
        ∧ t_pc (threads w' i) = Idle
        ∧ ∀ j, j ≠ i → threads w' j = threads w j.
Proof.
  intros Hpan Hpc Hirq Hlock Hcount.
  eexists. split; [apply P_call_run; assumption |]. simpl.
  rewrite set_pc_same.
  repeat match goal with |- _ ∧ _ => split end; try reflexivity; try assumption.
  intros j Hj. rewrite !set_pc_other by exact Hj. reflexivity.
Qed.

(** A semaphore created with 3 units: TA's P returns at once, 2 left. *)
Lemma P_takes_available_unit_witness :
  ∃ w', run (P_call TA) (init 3 no_irq) = Some w'
        ∧ sem_count w' = sem_count (init 3 no_irq) - 1
        ∧ P_returns w' = P_returns (init 3 no_irq) + 1
        ∧ V_returns w' = V_returns (init 3 no_irq)
        ∧ sem_lock w' = Unlocked
        ∧ sem_wchan w' = sem_wchan (init 3 no_irq)
        ∧ panicked w' = None
        ∧ t_pc (threads w' TA) = Idle
        ∧ ∀ j, j ≠ TA → threads w' j = threads (init 3 no_irq) j.
Proof.
  apply (P_takes_available_unit (init 3 no_irq) TA).
  - reflexivity.
  - reflexivity.
  - reflexivity.
  - reflexivity.
  - simpl. unfold UINT_MOD. lia.
Defined.

(** The six statements of V below the maximum count. *)
Lemma V_call_run (w : world) (i : tid) (pick : nat) :
  panicked w = None → t_pc (threads w i) = Idle →
  sem_lock w = Unlocked → 0 ≤ sem_count w < UINT_MOD - 1 →
  run (V_call i pick) w
  = Some (V_returned (goto i Idle (with_lock Unlocked (goto i V134
            (with_threads
               (wake (wake_one pick (sem_wchan w)).1
                  (set_pc i V132 (set_pc i V131 (set_pc i V130 (set_pc i V128 (threads w))))))
               (with_wchan (wake_one pick (sem_wchan w)).2
                  (goto i V132 (goto i V131 (with_count (sem_count w + 1) (goto i V130
                     (with_lock (LockedBy (Some i)) (goto i V128 w)))))))))))).
Proof.
  intros Hpan Hpc Hlock Hcount.
  assert (Hincr : uint_incr (sem_count w) = sem_count w + 1)
    by (unfold uint_incr; apply Z.mod_small; lia).
  unfold V_call, run.
  change (@mbind option _) with (@option_bind).
  forward step_CallV. forward step_V128. forward step_V130.
  rewrite step_V131
    by (simpl; rewrite ?set_pc_same, ?Hincr; first [reflexivity | assumption | lia]).
  simpl option_bind.
  forward step_V132. forward step_V134.
  simpl. rewrite Hincr. reflexivity.
Qed.

(** X7: below the maximum count, with the spinlock free, a call of V
    followed by a call of P by the same thread (outside interrupt
    context) returns from both and leaves the count where it was; what
    remains of the V is its wake-up: one thread, if any was queued, has
    left the wait channel. *)
Theorem V_then_P_restores_count (w : world) (i : tid) (pick : nat) :
  panicked w = None →
  t_pc (threads w i) = Idle →
  t_in_interrupt (threads w i) = false →
  sem_lock w = Unlocked →
  0 ≤ sem_count w < UINT_MOD - 1 →
  ∃ w', run (V_call i pick ++ P_call i) w = Some w'
        ∧ sem_count w' = sem_count w
        ∧ P_returns w' = P_returns w + 1
        ∧ V_returns w' = V_returns w + 1
        ∧ sem_lock w' = Unlocked
        ∧ sem_wchan w' = (wake_one pick (sem_wchan w)).2
        ∧ panicked w' = None
        ∧ t_pc (threads w' i) = Idle.
Proof.
  intros Hpan Hpc Hirq Hlock Hcount.
  rewrite run_app, V_call_run by assumption.
  cbv beta iota delta [mbind option_bind].
  rewrite P_call_run.
  - eexists. split; [reflexivity |]. simpl. rewrite set_pc_same.
    repeat match goal with |- _ ∧ _ => split end; try reflexivity; try assumption; lia.
  - exact Hpan.
  - simpl. apply set_pc_same.
  - simpl. rewrite !t_in_interrupt_set_pc.
    destruct (wake_one pick (sem_wchan w)).1 as [j|]; simpl;
      rewrite ?t_in_interrupt_set_pc; exact Hirq.
  - reflexivity.
  - simpl. lia.
Qed.

(** With TA asleep on a semaphore with count 0, TB calls V and then P:
    the count is 0 again and TA is off the wait channel. *)
Lemma V_then_P_restores_count_witness :
  run TA_blocks (init 0 no_irq) = Some (after TA_blocks (init 0 no_irq))
  ∧ sem_wchan (after TA_blocks (init 0 no_irq)) = [TA]
  ∧ ∃ w', run (V_call TB 0 ++ P_call TB) (after TA_blocks (init 0 no_irq)) = Some w'
          ∧ sem_count w' = sem_count (after TA_blocks (init 0 no_irq))
          ∧ P_returns w' = P_returns (after TA_blocks (init 0 no_irq)) + 1
          ∧ V_returns w' = V_returns (after TA_blocks (init 0 no_irq)) + 1
          ∧ sem_lock w' = Unlocked
          ∧ sem_wchan w' = (wake_one 0 (sem_wchan (after TA_blocks (init 0 no_irq)))).2
          ∧ panicked w' = None
          ∧ t_pc (threads w' TB) = Idle.
Proof.
  split; [vm_compute; reflexivity |].
  split; [vm_compute; reflexivity |].
  apply (V_then_P_restores_count (after TA_blocks (init 0 no_irq)) TB 0).
  - vm_compute. reflexivity.
  - vm_compute. reflexivity.
  - vm_compute. reflexivity.
  - vm_compute. reflexivity.
  - split; vm_compute; [discriminate | reflexivity].
Defined.

End SemExtra.

(** ** More on the heap model: creation, destruction, locks, condition
    variables *)

Module SynchExtra.
Import Synch Scenes SynchProofs.
Local Open Scope Z_scope.

(** *** Allocation *)

Lemma alloc_granted o c k :
  grants k 0 = true →
  alloc o c k
  = Done (Some (brk k))
         (mkK (<[brk k := o]> (heap k)) (S (brk k)) (tail (alloc_ok k)) (log k)).
Proof.
  unfold grants, alloc. destruct (alloc_ok k) as [|[] rest]; simpl;
    first [reflexivity | discriminate].
Qed.

Lemma alloc_denied o c k :
  grants k 0 = false →
  alloc o c k = Done NULL (mkK (heap k) (brk k) (tail (alloc_ok k)) (log k)).
Proof.
  unfold grants, alloc. destruct (alloc_ok k) as [|[] rest]; simpl;
    first [reflexivity | discriminate].
Qed.

Lemma grants_tail h b ok lg n :
  grants (mkK h b (tail ok) lg) n = default true (ok !! S n).
Proof. unfold grants. simpl. rewrite lookup_tail. reflexivity. Qed.

Lemma tail3_drop {A} (l : list A) : tail (tail (tail l)) = drop 3 l.
Proof. destruct l as [|? [|? [|? ?]]]; reflexivity. Qed.

(** *** lock_create *)

(** lock_create when the three allocations find memory. *)
Lemma lock_create_granted (name : string) (junk : lock) (c : cpu) (k : kstate) :
  grants k 0 = true → grants k 1 = true → grants k 2 = true →
  ∃ k', lock_create name junk c k = Done (Some (brk k)) k'
        ∧ heap k' !! brk k
          = Some (OLock (mkLock (Some (S (brk k))) (Some (S (S (brk k))))
                                Ext.Unlocked 1 None))
        ∧ heap k' !! S (brk k) = Some (OString name)
        ∧ heap k' !! S (S (brk k)) = Some (OWchan (mkWchan (Some (S (brk k))) []))
        ∧ (∀ x, x ≠ brk k → x ≠ S (brk k) → x ≠ S (S (brk k)) →
                heap k' !! x = heap k !! x)
        ∧ brk k' = S (S (S (brk k)))
        ∧ alloc_ok k' = drop 3 (alloc_ok k)
        ∧ log k' = log k.
Proof.
  intros G0 G1 G2. destruct junk as [jname jwchan jlock jflag jowner].
  destruct k as [h b ok lg]. simpl.
  unfold lock_create, kmalloc, kstrdup, wchan_create.
  erewrite bind_run by (apply alloc_granted; exact G0). simpl.
  erewrite bind_run by (apply alloc_granted; rewrite grants_tail; exact G1). simpl.
  erewrite bind_run by (eapply lock_set_run; heap_lookup).
  erewrite bind_run by (eapply lock_get_run; heap_lookup). simpl.
  erewrite bind_run by (eapply lock_get_run; heap_lookup). simpl.
  erewrite bind_run
    by (apply alloc_granted; unfold grants; simpl; rewrite !lookup_tail; exact G2).
  simpl.
  erewrite bind_run by (eapply lock_set_run; heap_lookup).
  erewrite bind_run by (eapply lock_get_run; heap_lookup). simpl.
  unfold spinlock_initialize, spinlock_init, store_spin.
  erewrite bind_run by (eapply lock_set_run; heap_lookup).
  erewrite bind_run by (eapply lock_set_run; heap_lookup).
  erewrite bind_run by (eapply lock_set_run; heap_lookup).
  eexists. split; [reflexivity |]. simpl.
  conjuncts; try (heap_lookup; fail).
  - intros x H0 H1 H2. rewrite !lookup_insert_ne by congruence. reflexivity.
  - apply tail3_drop.
Qed.

Lemma lock_create_denied_0 (name : string) (junk : lock) (c : cpu) (k : kstate) :
  grants k 0 = false →
  lock_create name junk c k
  = Done NULL (mkK (heap k) (brk k) (tail (alloc_ok k)) (log k)).
Proof.
  intros G0. unfold lock_create, kmalloc.
  erewrite bind_run by (apply alloc_denied; exact G0). reflexivity.
Qed.

Lemma lock_create_denied_1 (name : string) (junk : lock) (c : cpu) (k : kstate) :
  grants k 0 = true → grants k 1 = false → heap k !! brk k = None →
  ∃ k', lock_create name junk c k = Done NULL k'
        ∧ heap k' = heap k ∧ brk k' = S (brk k).
Proof.
  intros G0 G1 Hfree. destruct junk as [jname jwchan jlock jflag jowner].
  destruct k as [h b ok lg]. simpl in *.
  unfold lock_create, kmalloc, kstrdup.
  erewrite bind_run by (apply alloc_granted; exact G0). simpl.
  erewrite bind_run by (apply alloc_denied; rewrite grants_tail; exact G1). simpl.
  erewrite bind_run by (eapply lock_set_run; heap_lookup).
  erewrite bind_run by (eapply lock_get_run; heap_lookup). simpl.
  erewrite bind_run by (eapply (kfree_run _ (OLock _)); heap_lookup).
  eexists. split; [reflexivity |]. simpl. split; [| reflexivity].
  rewrite delete_insert_eq. apply delete_insert_id, Hfree.
Qed.

Lemma lock_create_denied_2 (name : string) (junk : lock) (c : cpu) (k : kstate) :
  grants k 0 = true → grants k 1 = true → grants k 2 = false →
  heap k !! brk k = None → heap k !! S (brk k) = None →
  ∃ k', lock_create name junk c k = Done NULL k'
        ∧ heap k' = heap k ∧ brk k' = S (S (brk k)).
Proof.
  intros G0 G1 G2 Hfree0 Hfree1. destruct junk as [jname jwchan jlock jflag jowner].
  destruct k as [h b ok lg]. simpl in *.
  unfold lock_create, kmalloc, kstrdup, wchan_create.
  erewrite bind_run by (apply alloc_granted; exact G0). simpl.
  erewrite bind_run by (apply alloc_granted; rewrite grants_tail; exact G1). simpl.
  erewrite bind_run by (eapply lock_set_run; heap_lookup).
  erewrite bind_run by (eapply lock_get_run; heap_lookup). simpl.
  erewrite bind_run by (eapply lock_get_run; heap_lookup). simpl.
  erewrite bind_run
    by (apply alloc_denied; unfold grants; simpl; rewrite !lookup_tail; exact G2).
  simpl.
  erewrite bind_run by (eapply lock_set_run; heap_lookup).
  erewrite bind_run by (eapply lock_get_run; heap_lookup). simpl.
  erewrite bind_run by (eapply lock_get_run; heap_lookup). simpl.
  erewrite bind_run by (eapply (kfree_run _ (OString _)); heap_lookup).
  erewrite bind_run by (eapply (kfree_run _ (OLock _)); heap_lookup).
  eexists. split; [reflexivity |]. simpl. split; [| reflexivity].
  apply map_eq. intros x.
  destruct (decide (x = b)) as [->|Hb]; [heap_lookup; symmetry; exact Hfree0 |].
  destruct (decide (x = S b)) as [->|Hb'].
  - rewrite lookup_delete_ne by lia. rewrite lookup_delete_eq. symmetry; exact Hfree1.
  - rewrite !lookup_delete_ne by congruence.
    rewrite !lookup_insert_ne by congruence. reflexivity.
Qed.

(** X8: lock_create for every outcome of its three allocations, on a heap
    whose blocks above the allocation mark are not in use.  It returns
    the new lock when all three find memory, and NULL otherwise.  The
    lock returned is available, has no owner, a free guard and an empty
    wait channel named after the lock.  When NULL is returned every
    block taken on the way has been given back: the heap is what it was.
    No block that existed before is touched in either case. *)
Theorem lock_create_allocation_outcomes (name : string) (junk : lock) (c : cpu)
    (k : kstate) :
  fresh_above k →
  ∃ k', lock_create name junk c k
        = Done (if grants k 0 && grants k 1 && grants k 2 then Some (brk k) else NULL) k'
        ∧ fresh_above k'
        ∧ (∀ x, (x < brk k)%nat → heap k' !! x = heap k !! x)
        ∧ if grants k 0 && grants k 1 && grants k 2
          then lock_at k' (Some (brk k))
               = Some (mkLock (Some (S (brk k))) (Some (S (S (brk k)))) Ext.Unlocked 1 None)
               ∧ heap k' !! S (brk k) = Some (OString name)
               ∧ wchan_at k' (Some (S (S (brk k)))) = Some (mkWchan (Some (S (brk k))) [])
          else heap k' = heap k.
Proof.
  intros Hfresh.
  destruct (grants k 0) eqn:G0; simpl.
  2:{ eexists. split; [apply lock_create_denied_0; exact G0 |]. simpl.
      destruct k; repeat split; auto. }
  destruct (grants k 1) eqn:G1; simpl.
  2:{ destruct (lock_create_denied_1 name junk c k G0 G1) as (k' & Hrun & Hh & Hb).
      { apply Hfresh. lia. }
      exists k'. split; [exact Hrun |]. rewrite Hh.
      split; [| split; [reflexivity | reflexivity]].
      intros x Hx. rewrite Hh. apply Hfresh. lia. }
  destruct (grants k 2) eqn:G2; simpl.
  2:{ destruct (lock_create_denied_2 name junk c k G0 G1 G2) as (k' & Hrun & Hh & Hb).
      { apply Hfresh. lia. }
      { apply Hfresh. lia. }
      exists k'. split; [exact Hrun |]. rewrite Hh.
      split; [| split; [reflexivity | reflexivity]].
      intros x Hx. rewrite Hh. apply Hfresh. lia. }
  destruct (lock_create_granted name junk c k G0 G1 G2)
    as (k' & Hrun & Hl & Hn & Hw & Hsame & Hb & _).
  exists k'. split; [exact Hrun |]. split; [| split].
  - intros x Hx. rewrite Hsame by lia. apply Hfresh. lia.
  - intros x Hx. apply Hsame; lia.
  - unfold lock_at, wchan_at. simpl. rewrite Hl, Hw. auto.
Qed.

(** No memory for the wait channel: NULL, and the heap is empty again. *)
Lemma lock_create_allocation_outcomes_witness :
  fresh_above no_memory_for_wchan
  ∧ ∃ k', lock_create "L" junk_lock thread_A no_memory_for_wchan = Done NULL k'
          ∧ heap k' = ∅.
Proof.
  assert (Hf : fresh_above no_memory_for_wchan) by (intros a _; reflexivity).
  split; [exact Hf |].
  destruct (lock_create_allocation_outcomes "L" junk_lock thread_A _ Hf)
    as (k' & Hrun & _ & _ & Hh).
  exists k'. split; [exact Hrun | exact Hh].
Defined.

(** *** sem_create *)

(** sem_create when the three allocations find memory. *)
Lemma sem_create_granted (name : string) (n : Z) (junk : semaphore) (c : cpu)
    (k : kstate) :
  grants k 0 = true → grants k 1 = true → grants k 2 = true →
  ∃ k', sem_create name n junk c k = Done (Some (brk k)) k'
        ∧ heap k' !! brk k
          = Some (OSem (mkSem (Some (S (brk k))) (Some (S (S (brk k)))) Ext.Unlocked n))
        ∧ heap k' !! S (brk k) = Some (OString name)
        ∧ heap k' !! S (S (brk k)) = Some (OWchan (mkWchan (Some (S (brk k))) []))
        ∧ (∀ x, x ≠ brk k → x ≠ S (brk k) → x ≠ S (S (brk k)) →
                heap k' !! x = heap k !! x)
        ∧ brk k' = S (S (S (brk k)))
        ∧ alloc_ok k' = drop 3 (alloc_ok k)
        ∧ log k' = log k.
Proof.
  intros G0 G1 G2. destruct junk as [jname jwchan jlock jcount].
  destruct k as [h b ok lg]. simpl.
  unfold sem_create, kmalloc, kstrdup, wchan_create.
  erewrite bind_run by (apply alloc_granted; exact G0). simpl.
  erewrite bind_run by (apply alloc_granted; rewrite grants_tail; exact G1). simpl.
  erewrite bind_run by (eapply sem_set_run; heap_lookup).
  erewrite bind_run by (eapply sem_get_run; heap_lookup). simpl.
  erewrite bind_run by (eapply sem_get_run; heap_lookup). simpl.
  erewrite bind_run
    by (apply alloc_granted; unfold grants; simpl; rewrite !lookup_tail; exact G2).
  simpl.
  erewrite bind_run by (eapply sem_set_run; heap_lookup).
  erewrite bind_run by (eapply sem_get_run; heap_lookup). simpl.
  unfold spinlock_init, store_spin.
  erewrite bind_run by (eapply sem_set_run; heap_lookup).
  erewrite bind_run by (eapply sem_set_run; heap_lookup).
  eexists. split; [reflexivity |]. simpl.
  conjuncts; try (heap_lookup; fail).
  - intros x H0 H1 H2. rewrite !lookup_insert_ne by congruence. reflexivity.
  - apply tail3_drop.
Qed.

Lemma sem_create_denied_0 (name : string) (n : Z) (junk : semaphore) (c : cpu)
    (k : kstate) :
  grants k 0 = false →
  sem_create name n junk c k
  = Done NULL (mkK (heap k) (brk k) (tail (alloc_ok k)) (log k)).
Proof.
  intros G0. unfold sem_create, kmalloc.
  erewrite bind_run by (apply alloc_denied; exact G0). reflexivity.
Qed.

Lemma sem_create_denied_1 (name : string) (n : Z) (junk : semaphore) (c : cpu)
    (k : kstate) :
  grants k 0 = true → grants k 1 = false → heap k !! brk k = None →
  ∃ k', sem_create name n junk c k = Done NULL k'
        ∧ heap k' = heap k ∧ brk k' = S (brk k)
        ∧ log k' = log k ++ [EvFree (brk k)].
Proof.
  intros G0 G1 Hfree. destruct junk as [jname jwchan jlock jcount].
  destruct k as [h b ok lg]. simpl in *.
  unfold sem_create, kmalloc, kstrdup.
  erewrite bind_run by (apply alloc_granted; exact G0). simpl.
  erewrite bind_run by (apply alloc_denied; rewrite grants_tail; exact G1). simpl.
  erewrite bind_run by (eapply sem_set_run; heap_lookup).
  erewrite bind_run by (eapply sem_get_run; heap_lookup). simpl.
  erewrite bind_run by (eapply (kfree_run _ (OSem _)); heap_lookup).
  eexists. split; [reflexivity |]. simpl. split; [| split; reflexivity].
  rewrite delete_insert_eq. apply delete_insert_id, Hfree.
Qed.

Lemma sem_create_denied_2 (name : string) (n : Z) (junk : semaphore) (c : cpu)
    (k : kstate) :
  grants k 0 = true → grants k 1 = true → grants k 2 = false →
  heap k !! brk k = None → heap k !! S (brk k) = None →
  ∃ k', sem_create name n junk c k = Done NULL k'
        ∧ heap k' = heap k ∧ brk k' = S (S (brk k))
        ∧ log k' = log k ++ [EvFree (S (brk k)); EvFree (brk k)].
Proof.
  intros G0 G1 G2 Hfree0 Hfree1. destruct junk as [jname jwchan jlock jcount].
  destruct k as [h b ok lg]. simpl in *.
  unfold sem_create, kmalloc, kstrdup, wchan_create.
  erewrite bind_run by (apply alloc_granted; exact G0). simpl.
  erewrite bind_run by (apply alloc_granted; rewrite grants_tail; exact G1). simpl.
  erewrite bind_run by (eapply sem_set_run; heap_lookup).
  erewrite bind_run by (eapply sem_get_run; heap_lookup). simpl.
  erewrite bind_run by (eapply sem_get_run; heap_lookup). simpl.
  erewrite bind_run
    by (apply alloc_denied; unfold grants; simpl; rewrite !lookup_tail; exact G2).
  simpl.
  erewrite bind_run by (eapply sem_set_run; heap_lookup).
  erewrite bind_run by (eapply sem_get_run; heap_lookup). simpl.
  erewrite bind_run by (eapply sem_get_run; heap_lookup). simpl.
  erewrite bind_run by (eapply (kfree_run _ (OString _)); heap_lookup).
  erewrite bind_run by (eapply (kfree_run _ (OSem _)); heap_lookup).
  eexists. split; [reflexivity |]. simpl.
  split; [| split; [reflexivity | rewrite <- app_assoc; reflexivity]].
  apply map_eq. intros x.
  destruct (decide (x = b)) as [->|Hb]; [heap_lookup; symmetry; exact Hfree0 |].
  destruct (decide (x = S b)) as [->|Hb'].
  - rewrite lookup_delete_ne by lia. rewrite lookup_delete_eq. symmetry; exact Hfree1.
  - rewrite !lookup_delete_ne by congruence.
    rewrite !lookup_insert_ne by congruence. reflexivity.
Qed.

(** X9: sem_create for every outcome of its three allocations, on a heap
    whose blocks above the allocation mark are not in use, with an
    initial count [n] that is a value of the parameter's type
    ([unsigned]: 0 <= n < 2^32).  It returns the new semaphore when all
    three find memory, and NULL otherwise.  The semaphore returned has
    the count it was asked for, a free guard and an empty wait channel
    named after it, whatever the block held before.  When NULL is
    returned, the blocks taken on the way have been freed, last taken
    first, and the heap is what it was.  No block that existed before is
    touched in either case. *)
Theorem sem_create_allocation_outcomes (name : string) (n : Z) (junk : semaphore)
    (c : cpu) (k : kstate) :
  0 ≤ n < Ext.UINT_MOD →
  fresh_above k →
  ∃ k', sem_create name n junk c k
        = Done (if grants k 0 && grants k 1 && grants k 2 then Some (brk k) else NULL) k'
        ∧ fresh_above k'
        ∧ (∀ x, (x < brk k)%nat → heap k' !! x = heap k !! x)
        ∧ if grants k 0 && grants k 1 && grants k 2
          then sem_at k' (Some (brk k))
               = Some (mkSem (Some (S (brk k))) (Some (S (S (brk k)))) Ext.Unlocked n)
               ∧ heap k' !! S (brk k) = Some (OString name)
               ∧ wchan_at k' (Some (S (S (brk k)))) = Some (mkWchan (Some (S (brk k))) [])
               ∧ log k' = log k
          else heap k' = heap k
               ∧ log k' = log k ++ (if grants k 0
                                    then if grants k 1
                                         then [EvFree (S (brk k)); EvFree (brk k)]
                                         else [EvFree (brk k)]
                                    else []).
Proof.
  intros _ Hfresh.
  destruct (grants k 0) eqn:G0; simpl.
  2:{ eexists. split; [apply sem_create_denied_0; exact G0 |]. simpl.
      rewrite app_nil_r. destruct k; repeat split; auto. }
  destruct (grants k 1) eqn:G1; simpl.
  2:{ destruct (sem_create_denied_1 name n junk c k G0 G1) as (k' & Hrun & Hh & Hb & Hlog).
      { apply Hfresh. lia. }
      exists k'. split; [exact Hrun |]. rewrite Hh.
      split; [| split; [reflexivity | split; [reflexivity | exact Hlog]]].
      intros x Hx. rewrite Hh. apply Hfresh. lia. }
  destruct (grants k 2) eqn:G2; simpl.
  2:{ destruct (sem_create_denied_2 name n junk c k G0 G1 G2)
        as (k' & Hrun & Hh & Hb & Hlog).
      { apply Hfresh. lia. }
      { apply Hfresh. lia. }
      exists k'. split; [exact Hrun |]. rewrite Hh.
      split; [| split; [reflexivity | split; [reflexivity | exact Hlog]]].
      intros x Hx. rewrite Hh. apply Hfresh. lia. }
  destruct (sem_create_granted name n junk c k G0 G1 G2)
    as (k' & Hrun & Hl & Hn & Hw & Hsame & Hb & _ & Hlog).
  exists k'. split; [exact Hrun |]. split; [| split].
  - intros x Hx. rewrite Hsame by lia. apply Hfresh. lia.
  - intros x Hx. apply Hsame; lia.
  - unfold sem_at, wchan_at. simpl. rewrite Hl, Hw. auto.
Qed.

(** No memory for the name: NULL, the semaphore block freed, the heap
    empty again. *)
Lemma sem_create_allocation_outcomes_witness :
  fresh_above no_memory_for_name
  ∧ ∃ k', sem_create "S" 2 junk_sem thread_A no_memory_for_name = Done NULL k'
          ∧ heap k' = ∅ ∧ log k' = [EvFree 0%nat].
Proof.
  assert (Hf : fresh_above no_memory_for_name) by (intros a _; reflexivity).
  split; [exact Hf |].
  assert (Hn : 0 ≤ 2 < Ext.UINT_MOD) by (unfold Ext.UINT_MOD; lia).
  destruct (sem_create_allocation_outcomes "S" 2 junk_sem thread_A _ Hn Hf)
    as (k' & Hrun & _ & _ & Hh & Hlog).
  exists k'. split; [exact Hrun |]. split; [exact Hh | exact Hlog].
Defined.

(** *** sem_destroy and cv_destroy *)

Lemma sem_wf_distinct k a s w :
  sem_wf k a s w →
  ∃ nm str wc, sem_name s = Some nm ∧ sem_wchan s = Some wc
               ∧ heap k !! a = Some (OSem s)
               ∧ heap k !! nm = Some (OString str)
               ∧ heap k !! wc = Some (OWchan w)
               ∧ a ≠ nm ∧ a ≠ wc ∧ nm ≠ wc.
Proof.
  intros (Ha & (nm & str & Hnm & Hs) & (wc & Hwc & Hw)).
  exists nm, str, wc. repeat split; try assumption; intros ->; congruence.
Qed.

Lemma cv_wf_distinct k a v w :
  cv_wf k a v w →
  ∃ nm str wc, cv_name v = Some nm ∧ cvWchan v = Some wc
               ∧ heap k !! a = Some (OCv v)
               ∧ heap k !! nm = Some (OString str)
               ∧ heap k !! wc = Some (OWchan w)
               ∧ a ≠ nm ∧ a ≠ wc ∧ nm ≠ wc.
Proof.
  intros (Ha & (nm & str & Hnm & Hs) & (wc & Hwc & Hw)).
  exists nm, str, wc. repeat split; try assumption; intros ->; congruence.
Qed.

Lemma spinlock_cleanup_sem_run a s c k :
  heap k !! a = Some (OSem s) →
  spinlock_cleanup (sem_lock_of (Some a)) c k
  = if Ext.spin_cleanup (sem_lock s) then Done () k
    else Panic spinlock_still_held k.
Proof.
  intros Hs. unfold spinlock_cleanup, load_spin.
  erewrite bind_run by (apply sem_get_run; exact Hs).
  destruct (Ext.spin_cleanup (sem_lock s)); reflexivity.
Qed.

Lemma spinlock_cleanup_cv_run a v c k :
  heap k !! a = Some (OCv v) →
  spinlock_cleanup (cvLock_of (Some a)) c k
  = if Ext.spin_cleanup (cvLock v) then Done () k
    else Panic spinlock_still_held k.
Proof.
  intros Hv. unfold spinlock_cleanup, load_spin.
  erewrite bind_run by (apply cv_get_run; exact Hv).
  destruct (Ext.spin_cleanup (cvLock v)); reflexivity.
Qed.

(** sem_destroy on a well-formed semaphore, whatever its count. *)
Lemma sem_destroy_run (c : cpu) (k : kstate) (a : addr) (s : semaphore) (w : wchan) :
  sem_wf k a s w →
  ∃ nm wc, sem_name s = Some nm ∧ sem_wchan s = Some wc ∧
  sem_destroy (Some a) c k =
    if negb (Ext.spin_cleanup (sem_lock s)) then Panic spinlock_still_held k
    else if negb (Ext.wchan_destroy_ok (wc_threads w)) then Panic wchan_not_empty k
    else Done () (mkK (delete a (delete nm (delete wc (heap k)))) (brk k) (alloc_ok k)
                      (log k ++ [EvFree wc; EvFree nm; EvFree a])).
Proof.
  intros Hwf. destruct (sem_wf_distinct _ _ _ _ Hwf)
    as (nm & str & wc & Hnm & Hwc & Ha & Hs & Hw & Hanm & Hawc & Hnmwc).
  exists nm, wc. split; [exact Hnm |]. split; [exact Hwc |].
  unfold sem_destroy.
  erewrite bind_run by reflexivity.
  destruct (Ext.spin_cleanup (sem_lock s)) eqn:Hlk; simpl.
  2:{ erewrite bind_panic; [reflexivity |].
      rewrite (spinlock_cleanup_sem_run a s) by exact Ha. rewrite Hlk. reflexivity. }
  erewrite bind_run
    by (rewrite (spinlock_cleanup_sem_run a s) by exact Ha; rewrite Hlk; reflexivity).
  erewrite bind_run by (apply sem_get_run; exact Ha).
  rewrite Hwc.
  destruct (Ext.wchan_destroy_ok (wc_threads w)) eqn:Hq; simpl.
  2:{ erewrite bind_panic; [reflexivity |].
      rewrite (wchan_destroy_run wc w) by exact Hw. rewrite Hq. reflexivity. }
  erewrite bind_run
    by (rewrite (wchan_destroy_run wc w) by exact Hw; rewrite Hq; reflexivity).
  erewrite bind_run
    by (apply (sem_get_run _ a s); simpl; rewrite lookup_delete_ne by congruence; exact Ha).
  rewrite Hnm.
  erewrite bind_run
    by (apply (kfree_run nm (OString str)); simpl;
        rewrite lookup_delete_ne by congruence; exact Hs).
  erewrite kfree_run
    by (simpl; rewrite !lookup_delete_ne by congruence; exact Ha).
  simpl. rewrite <- !app_assoc. reflexivity.
Qed.

(** cv_destroy on a well-formed condition variable. *)
Lemma cv_destroy_run (c : cpu) (k : kstate) (a : addr) (v : cv) (w : wchan) :
  cv_wf k a v w →
  ∃ nm wc, cv_name v = Some nm ∧ cvWchan v = Some wc ∧
  cv_destroy (Some a) c k =
    if negb (Ext.spin_cleanup (cvLock v)) then Panic spinlock_still_held k
    else if negb (Ext.wchan_destroy_ok (wc_threads w)) then Panic wchan_not_empty k
    else Done () (mkK (delete a (delete nm (delete wc (heap k)))) (brk k) (alloc_ok k)
                      (log k ++ [EvFree wc; EvFree nm; EvFree a])).
Proof.
  intros Hwf. destruct (cv_wf_distinct _ _ _ _ Hwf)
    as (nm & str & wc & Hnm & Hwc & Ha & Hs & Hw & Hanm & Hawc & Hnmwc).
  exists nm, wc. split; [exact Hnm |]. split; [exact Hwc |].
  unfold cv_destroy.
  erewrite bind_run by reflexivity.
  destruct (Ext.spin_cleanup (cvLock v)) eqn:Hlk; simpl.
  2:{ erewrite bind_panic; [reflexivity |].
      rewrite (spinlock_cleanup_cv_run a v) by exact Ha. rewrite Hlk. reflexivity. }
  erewrite bind_run
    by (rewrite (spinlock_cleanup_cv_run a v) by exact Ha; rewrite Hlk; reflexivity).
  erewrite bind_run by (apply cv_get_run; exact Ha).
  rewrite Hwc.
  destruct (Ext.wchan_destroy_ok (wc_threads w)) eqn:Hq; simpl.
  2:{ erewrite bind_panic; [reflexivity |].
      rewrite (wchan_destroy_run wc w) by exact Hw. rewrite Hq. reflexivity. }
  erewrite bind_run
    by (rewrite (wchan_destroy_run wc w) by exact Hw; rewrite Hq; reflexivity).
  erewrite bind_run
    by (apply (cv_get_run _ a v); simpl; rewrite lookup_delete_ne by congruence; exact Ha).
  rewrite Hnm.
  erewrite bind_run
    by (apply (kfree_run nm (OString str)); simpl;
        rewrite lookup_delete_ne by congruence; exact Hs).
  erewrite kfree_run
    by (simpl; rewrite !lookup_delete_ne by congruence; exact Ha).
  simpl. rewrite <- !app_assoc. reflexivity.
Qed.

Lemma three_blocks_gone (h : gmap nat object) (a nm wc : nat) :
  delete a (delete nm (delete wc h)) !! a = None
  ∧ delete a (delete nm (delete wc h)) !! nm = None
  ∧ delete a (delete nm (delete wc h)) !! wc = None
  ∧ ∀ x, x ≠ a → x ≠ nm → x ≠ wc → delete a (delete nm (delete wc h)) !! x = h !! x.
Proof.
  split; [apply lookup_delete_eq |]. split; [| split].
  - destruct (decide (a = nm)) as [->|Hne]; [apply lookup_delete_eq |].
    rewrite lookup_delete_ne by exact Hne. apply lookup_delete_eq.
  - destruct (decide (a = wc)) as [->|Hne]; [apply lookup_delete_eq |].
    rewrite lookup_delete_ne by exact Hne.
    destruct (decide (nm = wc)) as [->|Hne']; [apply lookup_delete_eq |].
    rewrite lookup_delete_ne by exact Hne'. apply lookup_delete_eq.
  - intros x Ha Hnm Hwc. rewrite !lookup_delete_ne by congruence. reflexivity.
Qed.

(** X10: on a well-formed semaphore, sem_destroy stops the kernel when
    the guard spinlock is held and when a thread sleeps on the wait
    channel, and touches nothing in doing so; otherwise it returns with
    the wait channel, the name and the structure freed, in that order,
    and every other block as it was.  The count is never looked at. *)
Theorem sem_destroy_outcomes (c : cpu) (k : kstate) (a : addr) (s : semaphore)
    (w : wchan) :
  sem_wf k a s w →
  (sem_lock s ≠ Ext.Unlocked → sem_destroy (Some a) c k = Panic spinlock_still_held k)
  ∧ (sem_lock s = Ext.Unlocked → wc_threads w ≠ [] →
     sem_destroy (Some a) c k = Panic wchan_not_empty k)
  ∧ (sem_lock s = Ext.Unlocked → wc_threads w = [] →
     ∃ k' nm wc, sem_destroy (Some a) c k = Done () k'
                 ∧ sem_name s = Some nm ∧ sem_wchan s = Some wc
                 ∧ heap k' !! a = None ∧ heap k' !! nm = None ∧ heap k' !! wc = None
                 ∧ (∀ x, x ≠ a → x ≠ nm → x ≠ wc → heap k' !! x = heap k !! x)
                 ∧ log k' = log k ++ [EvFree wc; EvFree nm; EvFree a]).
Proof.
  intros Hwf.
  destruct (sem_destroy_run c k a s w Hwf) as (nm & wc & Hnm & Hwc & Hrun).
  rewrite Hrun. split; [| split].
  - intros Hlk. destruct (sem_lock s); [congruence | reflexivity].
  - intros -> Hq. simpl. destruct (wc_threads w); [congruence | reflexivity].
  - intros -> ->. simpl. eexists _, nm, wc. split; [reflexivity |].
    split; [exact Hnm |]. split; [exact Hwc |]. simpl.
    destruct (three_blocks_gone (heap k) a nm wc) as (H1 & H2 & H3 & H4).
    auto 10.
Qed.

(** The semaphore made by sem_create("S", 2) is destroyed by B. *)
Lemma sem_destroy_outcomes_witness :
  sem_wf sem_made 0%nat (mkSem (Some 1%nat) (Some 2%nat) Ext.Unlocked 2)
    (mkWchan (Some 1%nat) [])
  ∧ ∃ k', sem_destroy (Some 0%nat) thread_B sem_made = Done () k'
          ∧ heap k' !! 0%nat = None.
Proof.
  assert (Hwf : sem_wf sem_made 0%nat (mkSem (Some 1%nat) (Some 2%nat) Ext.Unlocked 2)
                  (mkWchan (Some 1%nat) [])).
  { split; [vm_compute; reflexivity |]. split.
    - exists 1%nat, "S". split; [reflexivity | vm_compute; reflexivity].
    - exists 2%nat. split; [reflexivity | vm_compute; reflexivity]. }
  split; [exact Hwf |].
  destruct (sem_destroy_outcomes thread_B sem_made 0%nat _ _ Hwf) as (_ & _ & Hok).
  destruct (Hok eq_refl eq_refl) as (k' & nm & wc & Hrun & _ & _ & Hgone & _).
  exists k'. split; [exact Hrun | exact Hgone].
Defined.

(** X11: on a well-formed condition variable, cv_destroy stops the kernel
    when the guard spinlock is held (as it is while a thread sleeps in
    cv_wait) and when a thread is queued on the wait channel, and touches
    nothing in doing so; otherwise it returns with the wait channel, the
    name and the structure freed, in that order, and every other block as
    it was. *)
Theorem cv_destroy_outcomes (c : cpu) (k : kstate) (a : addr) (v : cv) (w : wchan) :
  cv_wf k a v w →
  (cvLock v ≠ Ext.Unlocked → cv_destroy (Some a) c k = Panic spinlock_still_held k)
  ∧ (cvLock v = Ext.Unlocked → wc_threads w ≠ [] →
     cv_destroy (Some a) c k = Panic wchan_not_empty k)
  ∧ (cvLock v = Ext.Unlocked → wc_threads w = [] →
     ∃ k' nm wc, cv_destroy (Some a) c k = Done () k'
                 ∧ cv_name v = Some nm ∧ cvWchan v = Some wc
                 ∧ heap k' !! a = None ∧ heap k' !! nm = None ∧ heap k' !! wc = None
                 ∧ (∀ x, x ≠ a → x ≠ nm → x ≠ wc → heap k' !! x = heap k !! x)
                 ∧ log k' = log k ++ [EvFree wc; EvFree nm; EvFree a]).
Proof.
  intros Hwf.
  destruct (cv_destroy_run c k a v w Hwf) as (nm & wc & Hnm & Hwc & Hrun).
  rewrite Hrun. split; [| split].
  - intros Hlk. destruct (cvLock v); [congruence | reflexivity].
  - intros -> Hq. simpl. destruct (wc_threads w); [congruence | reflexivity].
  - intros -> ->. simpl. eexists _, nm, wc. split; [reflexivity |].
    split; [exact Hnm |]. split; [exact Hwc |]. simpl.
    destruct (three_blocks_gone (heap k) a nm wc) as (H1 & H2 & H3 & H4).
    auto 10.
Qed.

(** The condition variable A sleeps on has its guard held: cv_destroy
    stops the kernel. *)
Lemma cv_destroy_outcomes_witness :
  cv_wf A_waiting 10%nat (mkCv (Some 11%nat) (Some 12%nat) (Ext.LockedBy (Some A)))
    (mkWchan (Some 11%nat) [A])
  ∧ cv_destroy CV thread_B A_waiting = Panic spinlock_still_held A_waiting.
Proof.
  assert (Hwf : cv_wf A_waiting 10%nat
                  (mkCv (Some 11%nat) (Some 12%nat) (Ext.LockedBy (Some A)))
                  (mkWchan (Some 11%nat) [A])).
  { split; [vm_compute; reflexivity |]. split.
    - exists 11%nat, "cv". split; [reflexivity | vm_compute; reflexivity].
    - exists 12%nat. split; [reflexivity | vm_compute; reflexivity]. }
  split; [exact Hwf |].
  destruct (cv_destroy_outcomes thread_B A_waiting 10%nat _ _ Hwf) as (Hheld & _ & _).
  apply Hheld. discriminate.
Defined.

(** *** Creation followed by destruction *)

Lemma heap_restored (h h' : gmap nat object) (a nm wc : nat) :
  h !! a = None → h !! nm = None → h !! wc = None →
  (∀ x, x ≠ a → x ≠ nm → x ≠ wc → h' !! x = h !! x) →
  delete a (delete nm (delete wc h')) = h.
Proof.
  intros Ha Hnm Hwc Hsame. apply map_eq. intros x.
  destruct (three_blocks_gone h' a nm wc) as (H1 & H2 & H3 & H4).
  destruct (decide (x = a)) as [->|Hxa]; [congruence |].
  destruct (decide (x = nm)) as [->|Hxn]; [congruence |].
  destruct (decide (x = wc)) as [->|Hxw]; [congruence |].
  rewrite H4 by assumption. apply Hsame; assumption.
Qed.

(** X12: with memory for its three blocks, sem_create followed by
    sem_destroy of the semaphore it returned (by any thread) gives back
    the heap it started from: the three blocks are freed, wait channel
    first, then the name, then the structure, and nothing else has
    changed. *)
Theorem sem_create_then_destroy (name : string) (n : Z) (junk : semaphore)
    (c c' : cpu) (k : kstate) :
  fresh_above k →
  grants k 0 = true → grants k 1 = true → grants k 2 = true →
  ∃ k1 k2, sem_create name n junk c k = Done (Some (brk k)) k1
           ∧ sem_destroy (Some (brk k)) c' k1 = Done () k2
           ∧ heap k2 = heap k
           ∧ log k2 = log k ++ [EvFree (S (S (brk k))); EvFree (S (brk k));
                                EvFree (brk k)].
Proof.
  intros Hfresh G0 G1 G2.
  destruct (sem_create_granted name n junk c k G0 G1 G2)
    as (k1 & Hrun & Hs & Hn & Hw & Hsame & Hb & Hok & Hlog).
  assert (Hwf : sem_wf k1 (brk k)
                  (mkSem (Some (S (brk k))) (Some (S (S (brk k)))) Ext.Unlocked n)
                  (mkWchan (Some (S (brk k))) [])).
  { split; [exact Hs |]. split; [exists (S (brk k)), name | exists (S (S (brk k)))]; auto. }
  destruct (sem_destroy_run c' k1 (brk k) _ _ Hwf) as (nm & wc & Hnm & Hwc & Hd).
  simpl in Hnm, Hwc, Hd. injection Hnm as <-. injection Hwc as <-.
  exists k1. eexists. split; [exact Hrun |]. split; [exact Hd |]. simpl.
  split; [| rewrite Hlog; reflexivity].
  apply heap_restored; try (apply Hfresh; lia). exact Hsame.
Qed.

(** On [boot]: the heap is empty again. *)
Lemma sem_create_then_destroy_witness :
  ∃ k1 k2, sem_create "S" 2 junk_sem thread_A boot = Done (Some (brk boot)) k1
           ∧ sem_destroy (Some (brk boot)) thread_B k1 = Done () k2
           ∧ heap k2 = heap boot
           ∧ log k2 = log boot ++ [EvFree (S (S (brk boot))); EvFree (S (brk boot));
                                   EvFree (brk boot)].
Proof.
  apply (sem_create_then_destroy "S" 2 junk_sem thread_A thread_B boot).
  - intros a _. reflexivity.
  - reflexivity.
  - reflexivity.
  - reflexivity.
Defined.

(** X13: with memory for its three blocks, lock_create followed by
    lock_destroy of the lock it returned (by any thread) gives back the
    heap it started from: the three blocks are freed, wait channel first,
    then the name, then the structure, and nothing else has changed. *)
Theorem lock_create_then_destroy (name : string) (junk : lock) (c c' : cpu)
    (k : kstate) :
  fresh_above k →
  grants k 0 = true → grants k 1 = true → grants k 2 = true →
  ∃ k1 k2, lock_create name junk c k = Done (Some (brk k)) k1
           ∧ lock_destroy (Some (brk k)) c' k1 = Done () k2
           ∧ heap k2 = heap k
           ∧ log k2 = log k ++ [EvFree (S (S (brk k))); EvFree (S (brk k));
                                EvFree (brk k)].
Proof.
  intros Hfresh G0 G1 G2.
  destruct (lock_create_granted name junk c k G0 G1 G2)
    as (k1 & Hrun & Hs & Hn & Hw & Hsame & Hb & Hok & Hlog).
  assert (Hwf : lock_wf k1 (brk k)
                  (mkLock (Some (S (brk k))) (Some (S (S (brk k)))) Ext.Unlocked 1 None)
                  (mkWchan (Some (S (brk k))) [])).
  { split; [exact Hs |]. split; [exists (S (brk k)), name | exists (S (S (brk k)))]; auto. }
  destruct (lock_destroy_run c' k1 (brk k) _ _ Hwf) as (nm & wc & Hnm & Hwc & Hd).
  simpl in Hnm, Hwc, Hd. injection Hnm as <-. injection Hwc as <-.
  exists k1. eexists. split; [exact Hrun |]. split; [exact Hd |]. simpl.
  split; [| rewrite Hlog; reflexivity].
  apply heap_restored; try (apply Hfresh; lia). exact Hsame.
Qed.

(** On [boot]: the heap is empty again. *)
Lemma lock_create_then_destroy_witness :
  ∃ k1 k2, lock_create "L" junk_lock thread_A boot = Done (Some (brk boot)) k1
           ∧ lock_destroy (Some (brk boot)) thread_B k1 = Done () k2
           ∧ heap k2 = heap boot
           ∧ log k2 = log boot ++ [EvFree (S (S (brk boot))); EvFree (S (brk boot));
                                   EvFree (brk boot)].
Proof.
  apply (lock_create_then_destroy "L" junk_lock thread_A thread_B boot).
  - intros a _. reflexivity.
  - reflexivity.
  - reflexivity.
  - reflexivity.
Defined.

(** *** cv_create *)

(** X14: cv_create for every outcome of its three allocations and every
    content of the block kmalloc hands out.  It returns the new structure
    exactly when the structure and the name find memory and the block's
    leftover in [cvWchan] is not NULL: whether the wait channel found
    memory makes no difference.  The structure returned has the leftover
    as its wait channel and, as its name, the new wait channel (NULL if
    that allocation failed).  Once the name string is allocated it is
    never freed, whatever is returned. *)
Theorem cv_create_outcomes (name : string) (junk : cv) (c : cpu) (k : kstate) :
  ∃ k', cv_create name junk c k
        = Done (if grants k 0 && grants k 1 && nonnull (cvWchan junk)
                then Some (brk k) else NULL) k'
        ∧ (grants k 0 && grants k 1 = true →
           heap k' !! S (brk k) = Some (OString name))
        ∧ (grants k 0 && grants k 1 && nonnull (cvWchan junk) = true →
           cv_at k' (Some (brk k))
           = Some (mkCv (if grants k 2 then Some (S (S (brk k))) else NULL)
                        (cvWchan junk) Ext.Unlocked)).
Proof.
  destruct junk as [jname leftover jlock]. simpl.
  destruct (grants k 0) eqn:G0; simpl.
  2:{ eexists. split; [| split; discriminate].
      unfold cv_create, kmalloc.
      erewrite bind_run by (apply alloc_denied; exact G0). reflexivity. }
  destruct (grants k 1) eqn:G1; simpl.
  2:{ destruct k as [h b ok lg]. eexists. split; [| split; discriminate].
      unfold cv_create, kmalloc, kstrdup.
      erewrite bind_run by (apply alloc_granted; exact G0). simpl.
      erewrite bind_run by (apply alloc_denied; rewrite grants_tail; exact G1). simpl.
      erewrite bind_run by (eapply cv_set_run; heap_lookup).
      erewrite bind_run by (eapply cv_get_run; heap_lookup). simpl.
      erewrite bind_run by (eapply (kfree_run _ (OCv _)); heap_lookup).
      reflexivity. }
  destruct k as [h b ok lg].
  unfold cv_create, kmalloc, kstrdup, wchan_create.
  erewrite bind_run by (apply alloc_granted; exact G0). simpl.
  erewrite bind_run by (apply alloc_granted; rewrite grants_tail; exact G1). simpl.
  erewrite bind_run by (eapply cv_set_run; heap_lookup).
  erewrite bind_run by (eapply cv_get_run; heap_lookup). simpl.
  erewrite bind_run by (eapply cv_get_run; heap_lookup). simpl.
  destruct (grants (mkK h b ok lg) 2) eqn:G2.
  - erewrite bind_run
      by (apply alloc_granted; unfold grants; simpl; rewrite !lookup_tail; exact G2).
    simpl.
    erewrite bind_run by (eapply cv_set_run; heap_lookup).
    erewrite bind_run by (eapply cv_get_run; heap_lookup). simpl.
    destruct leftover as [leftover|]; simpl.
    + unfold spinlock_init, store_spin.
      erewrite bind_run by (eapply cv_set_run; heap_lookup).
      eexists. split; [reflexivity |]. unfold cv_at.
      split; intros _; heap_lookup.
    + erewrite bind_run by (eapply cv_get_run; heap_lookup). simpl.
      erewrite bind_run by (eapply (kfree_run _ (OWchan _)); heap_lookup).
      erewrite bind_run by (eapply (kfree_run _ (OCv _)); heap_lookup).
      eexists. split; [reflexivity |]. split; [| discriminate].
      intros _. heap_lookup.
  - erewrite bind_run
      by (apply alloc_denied; unfold grants; simpl; rewrite !lookup_tail; exact G2).
    simpl.
    erewrite bind_run by (eapply cv_set_run; heap_lookup).
    erewrite bind_run by (eapply cv_get_run; heap_lookup). simpl.
    destruct leftover as [leftover|]; simpl.
    + unfold spinlock_init, store_spin.
      erewrite bind_run by (eapply cv_set_run; heap_lookup).
      eexists. split; [reflexivity |]. unfold cv_at.
      split; intros _; heap_lookup.
    + erewrite bind_run by (eapply cv_get_run; heap_lookup). simpl.
      erewrite bind_run by reflexivity.
      erewrite bind_run by (eapply (kfree_run _ (OCv _)); heap_lookup).
      eexists. split; [reflexivity |]. split; [| discriminate].
      intros _. heap_lookup.
Qed.

(** No memory is needed to see it: on a zeroed block cv_create returns
    NULL with every allocation granted, and the name string stays. *)
Lemma cv_create_outcomes_witness :
  ∃ k', cv_create "cv" zeroed_cv thread_A boot = Done NULL k'
        ∧ heap k' !! 1%nat = Some (OString "cv").
Proof.
  destruct (cv_create_outcomes "cv" zeroed_cv thread_A boot) as (k' & Hrun & Hname & _).
  exists k'. split; [exact Hrun | exact (Hname eq_refl)].
Defined.

(** *** lock_acquire and lock_release *)

Lemma bind_spinning {A B} (m : K A) (f : A → K B) c k r k1 :
  m c k = Spinning r k1 → (m ≫= f) c k = Spinning r k1.
Proof. intros H. unfold mbind, K_bind. rewrite H. reflexivity. Qed.

Lemma wchan_lock_run a w c k :
  heap k !! a = Some (OWchan w) →
  wchan_lock (Some a) c k
  = Done () (mkK (heap k) (brk k) (alloc_ok k) (log k ++ [EvWchanLock (Some a)])).
Proof.
  intros Hw. unfold wchan_lock.
  erewrite bind_run by (eapply load_run; [exact Hw | reflexivity]). reflexivity.
Qed.

(** wchan_sleep without a spinlock to give up, as lock_acquire and
    cv_wait call it. *)
Lemma wchan_sleep_run a w t c k :
  heap k !! a = Some (OWchan w) → curthread c = Some t →
  wchan_sleep (Some a) None c k
  = Asleep (Some a)
      (mkK (<[a := OWchan (set_wc_threads (Ext.enqueue t (wc_threads w)) w)]> (heap k))
           (brk k) (alloc_ok k) (log k ++ [EvSleep (Some a) None])).
Proof.
  intros Hw Hcur. unfold wchan_sleep.
  erewrite bind_run by reflexivity.
  erewrite bind_run by (apply wchan_get_run; exact Hw).
  rewrite Hcur.
  erewrite bind_run by (apply wchan_set_run; exact Hw).
  erewrite bind_run by reflexivity.
  erewrite bind_run by reflexivity.
  reflexivity.
Qed.

(** The loop of lock_acquire, entered with the guard held, on a lock
    whose indicator is positive: one pass, no sleep. *)
Lemma lock_acquire_loop_takes c k a l :
  heap k !! a = Some (OLock l) → 0 < flagLocked l →
  lock_acquire_loop (Some a) c k
  = Done () (mkK (<[a := OLock (mkLock (lk_name l) (lockWchan l) Ext.Unlocked 0
                                   (if CURCPU_EXISTS c then curthread c else None))]>
                  (heap k))
                 (brk k) (alloc_ok k)
                 (log k ++ [EvSpinRelease (lockProtect_of (Some a))])).
Proof.
  intros Ha Hpos. destruct l as [nm wc lk fl ow]. simpl in *.
  unfold lock_acquire_loop.
  erewrite bind_run by (apply lock_get_run; exact Ha). simpl.
  destruct (fl =? 0) eqn:Hz; [apply Z.eqb_eq in Hz; lia |].
  erewrite bind_run by (apply lock_get_run; exact Ha). simpl.
  apply Z.ltb_lt in Hpos. rewrite Hpos.
  erewrite bind_run by reflexivity.
  erewrite bind_run by (apply lock_set_run; exact Ha).
  erewrite bind_run by reflexivity.
  destruct (CURCPU_EXISTS c).
  - erewrite bind_run by (apply lock_set_run; heap_lookup).
    erewrite spinlock_release_lock_run by heap_lookup.
    simpl. rewrite !insert_insert_eq. reflexivity.
  - erewrite bind_run by (apply lock_set_run; heap_lookup).
    erewrite spinlock_release_lock_run by heap_lookup.
    simpl. rewrite !insert_insert_eq. reflexivity.
Qed.

(** The loop of lock_acquire, entered with the guard held, on a lock
    whose indicator is 0: the guard is given up and the caller sleeps on
    the lock's wait channel. *)
Lemma lock_acquire_loop_sleeps c t k a l wc w :
  heap k !! a = Some (OLock l) → flagLocked l = 0 →
  lockWchan l = Some wc → heap k !! wc = Some (OWchan w) → curthread c = Some t →
  lock_acquire_loop (Some a) c k
  = Asleep (Some wc)
      (mkK (<[wc := OWchan (set_wc_threads (Ext.enqueue t (wc_threads w)) w)]>
              (<[a := OLock (set_lockProtect Ext.Unlocked l)]> (heap k)))
           (brk k) (alloc_ok k)
           (log k ++ [EvWchanLock (Some wc); EvSpinRelease (lockProtect_of (Some a));
                      EvSleep (Some wc) None])).
Proof.
  intros Ha Hz Hwc Hw Hcur.
  assert (Hne : a ≠ wc) by (intros ->; congruence).
  unfold lock_acquire_loop.
  erewrite bind_run by (apply lock_get_run; exact Ha). rewrite Hz. simpl.
  erewrite bind_run by (apply lock_get_run; exact Ha). rewrite Hwc.
  erewrite bind_run by (eapply wchan_lock_run; exact Hw).
  erewrite bind_run by (apply spinlock_release_lock_run; exact Ha).
  erewrite bind_run by (apply lock_get_run; heap_lookup). simpl. rewrite Hwc.
  erewrite wchan_sleep_run;
    [| simpl; rewrite lookup_insert_ne by exact Hne; exact Hw | exact Hcur].
  simpl. rewrite <- !app_assoc. reflexivity.
Qed.

(** lock_acquire up to its loop: the checks pass for a thread outside
    interrupt context that the owner field does not name. *)
Lemma lock_acquire_enters c t k a l :
  heap k !! a = Some (OLock l) →
  curthread c = Some t → t_in_interrupt c = false →
  (CURCPU_EXISTS c = true → owner l ≠ Some t) →
  lock_acquire (Some a) c k = lock_acquire_wake (Some a) c k.
Proof.
  intros Ha Hcur Hirq Hown. unfold lock_acquire, curthread_in_interrupt.
  erewrite bind_run by reflexivity.
  erewrite bind_run.
  2:{ erewrite bind_run by reflexivity. rewrite Hcur, Hirq. reflexivity. }
  erewrite bind_run by reflexivity.
  erewrite bind_run by reflexivity.
  destruct (CURCPU_EXISTS c) eqn:Hcpu.
  - erewrite bind_run.
    2:{ erewrite bind_run by (apply lock_get_run; exact Ha).
        rewrite Hcur, bool_decide_eq_false_2 by (apply Hown; reflexivity). reflexivity. }
    reflexivity.
  - erewrite bind_run by reflexivity. reflexivity.
Qed.

(** lock_acquire from its spinlock_acquire on, on a lock with a free
    guard. *)
Lemma lock_acquire_wake_takes c k a l :
  heap k !! a = Some (OLock l) → lockProtect l = Ext.Unlocked → 0 < flagLocked l →
  lock_acquire_wake (Some a) c k
  = Done () (mkK (<[a := OLock (mkLock (lk_name l) (lockWchan l) Ext.Unlocked 0
                                   (if CURCPU_EXISTS c then curthread c else None))]>
                  (heap k))
                 (brk k) (alloc_ok k)
                 (log k ++ [EvSpinAcquire (lockProtect_of (Some a));
                            EvSpinRelease (lockProtect_of (Some a))])).
Proof.
  intros Ha Hfree Hpos. unfold lock_acquire_wake.
  erewrite bind_run by (apply spinlock_acquire_lock_run; [exact Ha | exact Hfree]).
  erewrite lock_acquire_loop_takes; [| simpl; apply lookup_insert_eq | exact Hpos].
  simpl. rewrite insert_insert_eq, <- app_assoc. reflexivity.
Qed.

Lemma lock_acquire_wake_sleeps c t k a l wc w :
  heap k !! a = Some (OLock l) → lockProtect l = Ext.Unlocked → flagLocked l = 0 →
  lockWchan l = Some wc → heap k !! wc = Some (OWchan w) → curthread c = Some t →
  lock_acquire_wake (Some a) c k
  = Asleep (Some wc)
      (mkK (<[wc := OWchan (set_wc_threads (Ext.enqueue t (wc_threads w)) w)]> (heap k))
           (brk k) (alloc_ok k)
           (log k ++ [EvSpinAcquire (lockProtect_of (Some a)); EvWchanLock (Some wc);
                      EvSpinRelease (lockProtect_of (Some a)); EvSleep (Some wc) None])).
Proof.
  intros Ha Hfree Hz Hwc Hw Hcur.
  assert (Hne : a ≠ wc) by (intros ->; congruence).
  unfold lock_acquire_wake.
  erewrite bind_run by (apply spinlock_acquire_lock_run; [exact Ha | exact Hfree]).
  erewrite lock_acquire_loop_sleeps;
    [| simpl; apply lookup_insert_eq | exact Hz | exact Hwc
     | simpl; rewrite lookup_insert_ne by exact Hne; exact Hw | exact Hcur].
  simpl. rewrite insert_insert_eq, <- app_assoc.
  destruct l as [nm wc' lk fl ow]. simpl in *. subst lk.
  rewrite (insert_id (heap k) a) by exact Ha. reflexivity.
Qed.

(** X15: lock_acquire of a lock whose indicator is positive and whose
    guard is free, by a thread outside interrupt context that the owner
    field does not name: the call returns without sleeping, the
    indicator is 0 whatever positive value it had, the owner field names
    the caller (NULL while thread identity is not available), and no
    block but the lock structure has changed; the wait channel is not
    touched. *)
Theorem lock_acquire_takes_free_lock (c : cpu) (t : tid) (k : kstate) (a : addr)
    (l : lock) :
  heap k !! a = Some (OLock l) →
  lockProtect l = Ext.Unlocked → 0 < flagLocked l →
  curthread c = Some t → t_in_interrupt c = false →
  (CURCPU_EXISTS c = true → owner l ≠ Some t) →
  ∃ k', lock_acquire (Some a) c k = Done () k'
        ∧ lock_at k' (Some a)
          = Some (mkLock (lk_name l) (lockWchan l) Ext.Unlocked 0
                         (if CURCPU_EXISTS c then Some t else None))
        ∧ (∀ x, x ≠ a → heap k' !! x = heap k !! x)
        ∧ log k' = log k ++ [EvSpinAcquire (lockProtect_of (Some a));
                             EvSpinRelease (lockProtect_of (Some a))].
Proof.
  intros Ha Hfree Hpos Hcur Hirq Hown.
  rewrite (lock_acquire_enters c t k a l Ha Hcur Hirq Hown).
  rewrite (lock_acquire_wake_takes c k a l Ha Hfree Hpos).
  eexists. split; [reflexivity |]. unfold lock_at. simpl.
  rewrite lookup_insert_eq, Hcur. simpl.
  split; [reflexivity |]. split; [| reflexivity].
  intros x Hx. rewrite lookup_insert_ne by congruence. reflexivity.
Qed.

(** B takes the lock that lock_create made. *)
Lemma lock_acquire_takes_free_lock_witness :
  ∃ k', lock_acquire L thread_B created = Done () k'
        ∧ lock_at k' L = Some (mkLock (Some 1%nat) (Some 2%nat) Ext.Unlocked 0 (Some B)).
Proof.
  destruct (lock_acquire_takes_free_lock thread_B B created 0%nat
              (mkLock (Some 1%nat) (Some 2%nat) Ext.Unlocked 1 None))
    as (k' & Hrun & Hl & _).
  - vm_compute. reflexivity.
  - reflexivity.
  - reflexivity.
  - reflexivity.
  - reflexivity.
  - discriminate.
  - exists k'. split; [exact Hrun | exact Hl].
Defined.

(** X16: lock_acquire of a well-formed lock whose indicator is 0 and
    whose guard is free, by a thread outside interrupt context that the
    owner field does not name: the call ends asleep on the lock's wait
    channel, with the caller added at the end of the queue, the guard
    free again, the lock structure as it was, and no other block
    changed. *)
Theorem lock_acquire_sleeps_on_held_lock (c : cpu) (t : tid) (k : kstate) (a : addr)
    (l : lock) (w : wchan) :
  lock_wf k a l w →
  lockProtect l = Ext.Unlocked → flagLocked l = 0 →
  curthread c = Some t → t_in_interrupt c = false →
  (CURCPU_EXISTS c = true → owner l ≠ Some t) →
  ∃ k' wc, lockWchan l = Some wc
           ∧ lock_acquire (Some a) c k = Asleep (Some wc) k'
           ∧ lock_at k' (Some a) = Some l
           ∧ wchan_at k' (Some wc) = Some (mkWchan (wc_name w) (wc_threads w ++ [t]))
           ∧ (∀ x, x ≠ wc → heap k' !! x = heap k !! x)
           ∧ log k' = log k ++ [EvSpinAcquire (lockProtect_of (Some a));
                                EvWchanLock (Some wc);
                                EvSpinRelease (lockProtect_of (Some a));
                                EvSleep (Some wc) None].
Proof.
  intros Hwf Hfree Hz Hcur Hirq Hown.
  destruct (lock_wf_distinct _ _ _ _ Hwf)
    as (nm & s & wc & Hnm & Hwc & Ha & Hs & Hw & Hanm & Hawc & Hnmwc).
  rewrite (lock_acquire_enters c t k a l Ha Hcur Hirq Hown).
  rewrite (lock_acquire_wake_sleeps c t k a l wc w Ha Hfree Hz Hwc Hw Hcur).
  eexists _, wc. split; [exact Hwc |]. split; [reflexivity |].
  unfold lock_at, wchan_at. simpl.
  rewrite lookup_insert_eq, lookup_insert_ne by congruence. rewrite Ha. simpl.
  split; [reflexivity |]. split; [reflexivity |]. split; [| reflexivity].
  intros x Hx. rewrite lookup_insert_ne by congruence. reflexivity.
Qed.

(** B calls lock_acquire on the lock A holds. *)
Lemma lock_acquire_sleeps_on_held_lock_witness :
  lock_wf held_by_A 0%nat
    (mkLock (Some 1%nat) (Some 2%nat) Ext.Unlocked 0 (Some A))
    (mkWchan (Some 1%nat) [])
  ∧ ∃ k', lock_acquire L thread_B held_by_A = Asleep (Some 2%nat) k'
          ∧ wchan_at k' (Some 2%nat) = Some (mkWchan (Some 1%nat) [B]).
Proof.
  assert (Hwf : lock_wf held_by_A 0%nat
            (mkLock (Some 1%nat) (Some 2%nat) Ext.Unlocked 0 (Some A))
            (mkWchan (Some 1%nat) [])).
  { split; [vm_compute; reflexivity |]. split.
    - exists 1%nat, "L". split; [reflexivity | vm_compute; reflexivity].
    - exists 2%nat. split; [reflexivity | vm_compute; reflexivity]. }
  split; [exact Hwf |].
  destruct (lock_acquire_sleeps_on_held_lock thread_B B held_by_A 0%nat _ _ Hwf)
    as (k' & wc & Hwc & Hrun & _ & Hq & _).
  - reflexivity.
  - reflexivity.
  - reflexivity.
  - reflexivity.
  - discriminate.
  - injection Hwc as <-. exists k'. split; [exact Hrun | exact Hq].
Defined.

(** X17: the lock changes hands.  A thread [t] with thread identity
    releases a well-formed lock whose indicator is 0; a thread [u] that
    then resumes its lock_acquire after the wake-up (line 220 on)
    returns from it holding the lock: indicator 0, owner [u].  The one
    thread lock_release woke has left the lock's queue; a third thread
    that calls lock_acquire next goes to sleep. *)
Theorem lock_passes_to_woken_thread (ct cu : cpu) (t u : tid) (k : kstate) (a : addr)
    (l : lock) (w : wchan) :
  lock_wf k a l w →
  lockProtect l = Ext.Unlocked → flagLocked l = 0 →
  CURCPU_EXISTS ct = true → curthread ct = Some t →
  CURCPU_EXISTS cu = true → curthread cu = Some u →
  ∃ k1 k2, lock_release (Some a) ct k = Done () k1
           ∧ lock_acquire_wake (Some a) cu k1 = Done () k2
           ∧ lock_at k2 (Some a)
             = Some (mkLock (lk_name l) (lockWchan l) Ext.Unlocked 0 (Some u))
           ∧ wchan_at k2 (lockWchan l)
             = Some (mkWchan (wc_name w)
                             (Ext.wake_one (wake_pick ct) (wc_threads w)).2)
           ∧ ∀ cv v, curthread cv = Some v → t_in_interrupt cv = false → v ≠ u →
                     ∃ k3, lock_acquire (Some a) cv k2 = Asleep (lockWchan l) k3.
Proof.
  intros Hwf Hfree Hz Hcpu Hcur Hcpu' Hcur'.
  destruct (lock_wf_distinct _ _ _ _ Hwf)
    as (nm & s & wc & Hnm & Hwc & Ha & Hs & Hw & Hanm & Hawc & Hnmwc).
  destruct (lock_release_run ct t k a l w Hwf Hfree Hcpu Hcur) as (k1 & Hrel & Hl1 & Hw1 & _).
  { rewrite Hz. vm_compute. reflexivity. }
  apply lock_at_Some in Hl1.
  assert (Hw1' : heap k1 !! wc
                 = Some (OWchan (mkWchan (wc_name w)
                                   (Ext.wake_one (wake_pick ct) (wc_threads w)).2))).
  { rewrite Hwc in Hw1. unfold wchan_at in Hw1. simpl in Hw1.
    destruct (heap k1 !! wc) as [[]|]; simpl in Hw1; congruence. }
  exists k1. eexists. split; [exact Hrel |]. split.
  { apply (lock_acquire_wake_takes cu k1 a _ Hl1); [reflexivity |].
    simpl. rewrite Hz. vm_compute. reflexivity. }
  simpl. rewrite Hcpu', Hcur', Hwc. unfold lock_at, wchan_at. simpl.
  rewrite lookup_insert_eq, lookup_insert_ne by congruence. rewrite Hw1'. simpl.
  split; [reflexivity |]. split; [reflexivity |].
  intros cv v Hv Hirq Hne.
  erewrite lock_acquire_enters;
    [| simpl; apply lookup_insert_eq | exact Hv | exact Hirq
     | simpl; intros _; congruence].
  erewrite lock_acquire_wake_sleeps;
    [eexists; reflexivity | simpl; apply lookup_insert_eq | reflexivity | reflexivity
     | reflexivity | simpl; rewrite lookup_insert_ne by congruence; exact Hw1' | exact Hv].
Qed.

(** A releases the lock with B queued; B resumes and holds the lock. *)
Lemma lock_passes_to_woken_thread_witness :
  lock_wf B_queued 0%nat
    (mkLock (Some 1%nat) (Some 2%nat) Ext.Unlocked 0 (Some A))
    (mkWchan (Some 1%nat) [B])
  ∧ ∃ k1 k2, lock_release L thread_A B_queued = Done () k1
             ∧ lock_acquire_wake L thread_B k1 = Done () k2
             ∧ lock_at k2 L = Some (mkLock (Some 1%nat) (Some 2%nat) Ext.Unlocked 0 (Some B))
             ∧ wchan_at k2 (Some 2%nat) = Some (mkWchan (Some 1%nat) []).
Proof.
  assert (Hwf : lock_wf B_queued 0%nat
            (mkLock (Some 1%nat) (Some 2%nat) Ext.Unlocked 0 (Some A))
            (mkWchan (Some 1%nat) [B])).
  { split; [vm_compute; reflexivity |]. split.
    - exists 1%nat, "L". split; [reflexivity | vm_compute; reflexivity].
    - exists 2%nat. split; [reflexivity | vm_compute; reflexivity]. }
  split; [exact Hwf |].
  destruct (lock_passes_to_woken_thread thread_A thread_B A B B_queued 0%nat _ _ Hwf)
    as (k1 & k2 & Hrel & Hacq & Hl & Hq & _).
  - reflexivity.
  - reflexivity.
  - reflexivity.
  - reflexivity.
  - reflexivity.
  - reflexivity.
  - exists k1, k2. split; [exact Hrel |]. split; [exact Hacq |].
    split; [exact Hl | exact Hq].
Defined.

(** *** cv_signal, cv_broadcast and cv_wait *)

Lemma spinlock_acquire_cv_run a v c k :
  heap k !! a = Some (OCv v) → cvLock v = Ext.Unlocked →
  spinlock_acquire (cvLock_of (Some a)) c k
  = Done () (mkK (<[a := OCv (set_cvLock (Ext.LockedBy (curthread c)) v)]> (heap k))
                 (brk k) (alloc_ok k)
                 (log k ++ [EvSpinAcquire (cvLock_of (Some a))])).
Proof.
  intros Hv Hfree. unfold spinlock_acquire, load_spin, store_spin.
  erewrite bind_run by reflexivity.
  erewrite bind_run by (apply cv_get_run; exact Hv).
  rewrite Hfree. simpl.
  erewrite bind_run by (apply cv_set_run; exact Hv). reflexivity.
Qed.

Lemma spinlock_acquire_cv_spins a v c k :
  heap k !! a = Some (OCv v) → cvLock v ≠ Ext.Unlocked →
  spinlock_acquire (cvLock_of (Some a)) c k = Spinning (cvLock_of (Some a)) k.
Proof.
  intros Hv Hheld. unfold spinlock_acquire, load_spin.
  erewrite bind_run by reflexivity.
  erewrite bind_run by (apply cv_get_run; exact Hv).
  destruct (cvLock v); [congruence | reflexivity].
Qed.

Lemma spinlock_release_cv_run a v c k :
  heap k !! a = Some (OCv v) →
  spinlock_release (cvLock_of (Some a)) c k
  = Done () (mkK (<[a := OCv (set_cvLock Ext.Unlocked v)]> (heap k))
                 (brk k) (alloc_ok k)
                 (log k ++ [EvSpinRelease (cvLock_of (Some a))])).
Proof.
  intros Hv. unfold spinlock_release, load_spin, store_spin.
  erewrite bind_run by (apply cv_get_run; exact Hv).
  erewrite bind_run by (apply cv_set_run; exact Hv). reflexivity.
Qed.

Lemma wchan_wakeall_run a w r c k :
  heap k !! a = Some (OWchan w) →
  wchan_wakeall (Some a) r c k
  = Done () (mkK (<[a := OWchan (set_wc_threads [] w)]> (heap k))
                 (brk k) (alloc_ok k)
                 (log k ++ [EvWakeAll (Some a) (wc_threads w)])).
Proof.
  intros Hw. unfold wchan_wakeall.
  erewrite bind_run by (apply wchan_get_run; exact Hw). simpl.
  erewrite bind_run by (apply wchan_set_run; exact Hw). reflexivity.
Qed.

Lemma set_cvLock_back v h :
  cvLock v = Ext.Unlocked → set_cvLock Ext.Unlocked (set_cvLock h v) = v.
Proof. destruct v as [nm wc lk]. simpl. intros ->. reflexivity. Qed.

(** With the guard held, cv_signal and cv_broadcast get no further than
    their spinlock_acquire. *)
Lemma cv_signal_spins c k a v lock :
  heap k !! a = Some (OCv v) → cvLock v ≠ Ext.Unlocked → nonnull lock = true →
  cv_signal (Some a) lock c k = Spinning (cvLock_of (Some a)) k.
Proof.
  intros Ha Hheld Hlock. destruct lock as [lk|]; [clear Hlock | discriminate].
  unfold cv_signal.
  erewrite bind_run by reflexivity. erewrite bind_run by reflexivity.
  apply bind_spinning. apply (spinlock_acquire_cv_spins a v); assumption.
Qed.

Lemma cv_broadcast_spins c k a v lock :
  heap k !! a = Some (OCv v) → cvLock v ≠ Ext.Unlocked → nonnull lock = true →
  cv_broadcast (Some a) lock c k = Spinning (cvLock_of (Some a)) k.
Proof.
  intros Ha Hheld Hlock. destruct lock as [lk|]; [clear Hlock | discriminate].
  unfold cv_broadcast.
  erewrite bind_run by reflexivity. erewrite bind_run by reflexivity.
  apply bind_spinning. apply (spinlock_acquire_cv_spins a v); assumption.
Qed.

Lemma two_queued_wf :
  cv_wf two_queued 10%nat (mkCv (Some 11%nat) (Some 12%nat) Ext.Unlocked)
    (mkWchan (Some 11%nat) [A; B]).
Proof.
  split; [vm_compute; reflexivity |]. split.
  - exists 11%nat, "cv". split; [reflexivity | vm_compute; reflexivity].
  - exists 12%nat. split; [reflexivity | vm_compute; reflexivity].
Qed.

(** X18: cv_signal on a well-formed condition variable.  While the guard
    is held the caller spins and nothing changes.  With the guard free
    the call returns: one thread, the scheduler's pick, has left the
    queue (none if nobody was queued), the guard is free again, the
    structure is as it was and no other block has changed.  Of the lock
    argument only its being not NULL is used: whether the caller holds
    that lock is not checked. *)
Theorem cv_signal_wakes_one (c : cpu) (k : kstate) (a : addr) (v : cv) (w : wchan)
    (lock : ptr) :
  cv_wf k a v w → nonnull lock = true →
  (cvLock v ≠ Ext.Unlocked →
   cv_signal (Some a) lock c k = Spinning (cvLock_of (Some a)) k)
  ∧ (cvLock v = Ext.Unlocked →
     ∃ k' wc, cvWchan v = Some wc
              ∧ cv_signal (Some a) lock c k = Done () k'
              ∧ cv_at k' (Some a) = Some v
              ∧ wchan_at k' (Some wc)
                = Some (mkWchan (wc_name w)
                                (Ext.wake_one (wake_pick c) (wc_threads w)).2)
              ∧ (∀ x, x ≠ wc → heap k' !! x = heap k !! x)
              ∧ log k' = log k ++ [EvSpinAcquire (cvLock_of (Some a));
                                   EvWakeOne (Some wc)
                                     (Ext.wake_one (wake_pick c) (wc_threads w)).1;
                                   EvSpinRelease (cvLock_of (Some a))]).
Proof.
  intros Hwf Hlock. destruct lock as [lk|]; [clear Hlock | discriminate].
  destruct (cv_wf_distinct _ _ _ _ Hwf)
    as (nm & str & wc & Hnm & Hwc & Ha & Hs & Hw & Hanm & Hawc & Hnmwc).
  split; [intros Hheld; apply (cv_signal_spins c k a v); auto |].
  unfold cv_signal.
  erewrite bind_run by reflexivity. erewrite bind_run by reflexivity.
  - intros Hfree.
    erewrite bind_run by (apply spinlock_acquire_cv_run; [exact Ha | exact Hfree]).
    erewrite bind_run by (apply cv_get_run; simpl; apply lookup_insert_eq).
    simpl. rewrite Hwc.
    erewrite bind_run
      by (apply (wchan_wakeone_run wc w); simpl;
          rewrite lookup_insert_ne by congruence; exact Hw).
    erewrite spinlock_release_cv_run
      by (simpl; rewrite lookup_insert_ne by congruence; apply lookup_insert_eq).
    eexists _, wc. split; [reflexivity |]. split; [reflexivity |].
    unfold cv_at, wchan_at. simpl.
    rewrite lookup_insert_eq. rewrite lookup_insert_ne by congruence.
    rewrite lookup_insert_eq. simpl. rewrite set_cvLock_back by exact Hfree.
    split; [reflexivity |]. split; [reflexivity |].
    split; [| rewrite <- !app_assoc; reflexivity].
    intros x Hx. destruct (decide (x = a)) as [->|Hxa].
    + rewrite lookup_insert_eq. symmetry. exact Ha.
    + rewrite !lookup_insert_ne by congruence. reflexivity.
Qed.

(** With A and B queued, a thread whose wake-up picks the second of them
    signals, passing a lock pointer that leads nowhere: B is woken, A
    stays. *)
Lemma cv_signal_wakes_one_witness :
  ∃ k', cv_signal CV (Some 500%nat) thread_C two_queued = Done () k'
        ∧ wchan_at k' (Some 12%nat) = Some (mkWchan (Some 11%nat) [A])
        ∧ log k' = log two_queued ++ [EvSpinAcquire (cvLock_of CV);
                                      EvWakeOne (Some 12%nat) (Some B);
                                      EvSpinRelease (cvLock_of CV)].
Proof.
  destruct (cv_signal_wakes_one thread_C two_queued 10%nat _ _ (Some 500%nat)
              two_queued_wf eq_refl) as (_ & Hfree).
  destruct (Hfree eq_refl) as (k' & wc & Hwc & Hrun & _ & Hq & _ & Hlog).
  injection Hwc as <-.
  exists k'. split; [exact Hrun |]. split; [exact Hq | exact Hlog].
Defined.

(** X19: cv_broadcast on a well-formed condition variable.  While the
    guard is held the caller spins and nothing changes.  With the guard
    free the call returns: every queued thread has been woken and the
    queue is empty, the guard is free again, the structure is as it was
    and no other block has changed.  Of the lock argument only its being
    not NULL is used. *)
Theorem cv_broadcast_wakes_all (c : cpu) (k : kstate) (a : addr) (v : cv) (w : wchan)
    (lock : ptr) :
  cv_wf k a v w → nonnull lock = true →
  (cvLock v ≠ Ext.Unlocked →
   cv_broadcast (Some a) lock c k = Spinning (cvLock_of (Some a)) k)
  ∧ (cvLock v = Ext.Unlocked →
     ∃ k' wc, cvWchan v = Some wc
              ∧ cv_broadcast (Some a) lock c k = Done () k'
              ∧ cv_at k' (Some a) = Some v
              ∧ wchan_at k' (Some wc) = Some (mkWchan (wc_name w) [])
              ∧ (∀ x, x ≠ wc → heap k' !! x = heap k !! x)
              ∧ log k' = log k ++ [EvSpinAcquire (cvLock_of (Some a));
                                   EvWakeAll (Some wc) (wc_threads w);
                                   EvSpinRelease (cvLock_of (Some a))]).
Proof.
  intros Hwf Hlock. destruct lock as [lk|]; [clear Hlock | discriminate].
  destruct (cv_wf_distinct _ _ _ _ Hwf)
    as (nm & str & wc & Hnm & Hwc & Ha & Hs & Hw & Hanm & Hawc & Hnmwc).
  split; [intros Hheld; apply (cv_broadcast_spins c k a v); auto |].
  unfold cv_broadcast.
  erewrite bind_run by reflexivity. erewrite bind_run by reflexivity.
  - intros Hfree.
    erewrite bind_run by (apply spinlock_acquire_cv_run; [exact Ha | exact Hfree]).
    erewrite bind_run by (apply cv_get_run; simpl; apply lookup_insert_eq).
    simpl. rewrite Hwc.
    erewrite bind_run
      by (apply (wchan_wakeall_run wc w); simpl;
          rewrite lookup_insert_ne by congruence; exact Hw).
    erewrite spinlock_release_cv_run
      by (simpl; rewrite lookup_insert_ne by congruence; apply lookup_insert_eq).
    eexists _, wc. split; [reflexivity |]. split; [reflexivity |].
    unfold cv_at, wchan_at. simpl.
    rewrite lookup_insert_eq. rewrite lookup_insert_ne by congruence.
    rewrite lookup_insert_eq. simpl. rewrite set_cvLock_back by exact Hfree.
    split; [reflexivity |]. split; [reflexivity |].
    split; [| rewrite <- !app_assoc; reflexivity].
    intros x Hx. destruct (decide (x = a)) as [->|Hxa].
    + rewrite lookup_insert_eq. symmetry. exact Ha.
    + rewrite !lookup_insert_ne by congruence. reflexivity.
Qed.

(** With A and B queued, a broadcast wakes both. *)
Lemma cv_broadcast_wakes_all_witness :
  ∃ k', cv_broadcast CV L thread_C two_queued = Done () k'
        ∧ wchan_at k' (Some 12%nat) = Some (mkWchan (Some 11%nat) [])
        ∧ log k' = log two_queued ++ [EvSpinAcquire (cvLock_of CV);
                                      EvWakeAll (Some 12%nat) [A; B];
                                      EvSpinRelease (cvLock_of CV)].
Proof.
  destruct (cv_broadcast_wakes_all thread_C two_queued 10%nat _ _ L
              two_queued_wf eq_refl) as (_ & Hfree).
  destruct (Hfree eq_refl) as (k' & wc & Hwc & Hrun & _ & Hq & _ & Hlog).
  injection Hwc as <-.
  exists k'. split; [exact Hrun |]. split; [exact Hq | exact Hlog].
Defined.

(** lock_release on a well-formed lock whose guard is free, by a thread
    with thread identity, with every block accounted for. *)
Lemma lock_release_frame (c : cpu) (t : tid) (k : kstate) (a : addr) (l : lock)
    (w : wchan) :
  lock_wf k a l w → lockProtect l = Ext.Unlocked →
  CURCPU_EXISTS c = true → curthread c = Some t →
  0 < Ext.uint_incr (flagLocked l) →
  ∃ k' wc, lockWchan l = Some wc
           ∧ lock_release (Some a) c k = Done () k'
           ∧ heap k' !! a
             = Some (OLock (mkLock (lk_name l) (lockWchan l) Ext.Unlocked
                                   (Ext.uint_incr (flagLocked l)) (Some t)))
           ∧ heap k' !! wc
             = Some (OWchan (mkWchan (wc_name w)
                               (Ext.wake_one (wake_pick c) (wc_threads w)).2))
           ∧ (∀ x, x ≠ a → x ≠ wc → heap k' !! x = heap k !! x)
           ∧ log k' = log k ++ [EvSpinAcquire (lockProtect_of (Some a));
                                EvWakeOne (Some wc)
                                  (Ext.wake_one (wake_pick c) (wc_threads w)).1;
                                EvSpinRelease (lockProtect_of (Some a))].
Proof.
  intros Hwf Hfree Hcpu Hcur Hpos. destruct (lock_wf_distinct _ _ _ _ Hwf)
    as (nm & s & wc & Hnm & Hwc & Ha & Hs & Hw & Hanm & Hawc & Hnmwc).
  eexists _, wc. split; [exact Hwc |]. split.
  - unfold lock_release.
    erewrite bind_run by reflexivity.
    erewrite bind_run by (apply spinlock_acquire_lock_run; [exact Ha | exact Hfree]).
    erewrite bind_run by reflexivity.
    rewrite Hcpu, Hcur.
    erewrite bind_run.
    2:{ erewrite bind_run by (apply lock_set_run; simpl; apply lookup_insert_eq).
        erewrite bind_run by (apply lock_get_run; simpl; apply lookup_insert_eq).
        reflexivity. }
    erewrite bind_run by (apply lock_get_run; simpl; apply lookup_insert_eq).
    erewrite bind_run by (apply lock_set_run; simpl; apply lookup_insert_eq).
    erewrite bind_run by (apply lock_get_run; simpl; apply lookup_insert_eq).
    simpl. apply Z.ltb_lt in Hpos. rewrite Hpos.
    erewrite bind_run by reflexivity.
    erewrite bind_run by (apply lock_get_run; simpl; apply lookup_insert_eq).
    simpl. rewrite Hwc.
    erewrite bind_run.
    2:{ apply (wchan_wakeone_run wc w). simpl.
        rewrite !lookup_insert_ne by congruence. exact Hw. }
    apply spinlock_release_lock_run. simpl.
    rewrite lookup_insert_ne by congruence. apply lookup_insert_eq.
  - simpl. rewrite lookup_insert_eq.
    rewrite lookup_insert_ne by congruence. rewrite lookup_insert_eq.
    rewrite <- !app_assoc. simpl.
    split; [destruct l; simpl in *; subst; reflexivity |].
    split; [reflexivity |]. split; [| reflexivity].
    intros x Hxa Hxw. rewrite !lookup_insert_ne by congruence. reflexivity.
Qed.

(** X20: cv_wait by a thread [t] with thread identity, on a well-formed
    condition variable with a free guard and a well-formed lock that is
    held (indicator 0) and has its own wait channel.  The call ends
    asleep on the condition variable's wait channel with [t] last in its
    queue and the lock given up (indicator 1, one thread of the lock's
    queue woken).  It sleeps with the condition variable's guard still
    held by [t]: from that state every cv_signal and cv_broadcast on the
    condition variable spins without waking anyone. *)
Theorem cv_wait_sleeps_holding_guard (c : cpu) (t : tid) (k : kstate)
    (a : addr) (l : lock) (lw : wchan) (v : addr) (cvv : cv) (vw : wchan) :
  lock_wf k a l lw → cv_wf k v cvv vw →
  lockProtect l = Ext.Unlocked → cvLock cvv = Ext.Unlocked →
  lockWchan l ≠ cvWchan cvv →
  flagLocked l = 0 →
  CURCPU_EXISTS c = true → curthread c = Some t →
  ∃ k' wc, cvWchan cvv = Some wc
           ∧ cv_wait (Some v) (Some a) c k = Asleep (Some wc) k'
           ∧ cv_at k' (Some v)
             = Some (mkCv (cv_name cvv) (Some wc) (Ext.LockedBy (Some t)))
           ∧ wchan_at k' (Some wc)
             = Some (mkWchan (wc_name vw) (wc_threads vw ++ [t]))
           ∧ lock_at k' (Some a)
             = Some (mkLock (lk_name l) (lockWchan l) Ext.Unlocked 1 (Some t))
           ∧ wchan_at k' (lockWchan l)
             = Some (mkWchan (wc_name lw)
                             (Ext.wake_one (wake_pick c) (wc_threads lw)).2)
           ∧ ∀ c' lock', nonnull lock' = true →
               cv_signal (Some v) lock' c' k' = Spinning (cvLock_of (Some v)) k'
               ∧ cv_broadcast (Some v) lock' c' k' = Spinning (cvLock_of (Some v)) k'.
Proof.
  intros Hlwf Hvwf Hlfree Hvfree Hchan Hz Hcpu Hcur.
  destruct (lock_wf_distinct _ _ _ _ Hlwf)
    as (nm & s & wc & Hnm & Hwc & Ha & Hs & Hw & Hanm & Hawc & Hnmwc).
  destruct (cv_wf_distinct _ _ _ _ Hvwf)
    as (vnm & vs & vwc & Hvnm & Hvwc & Hv & Hvs & Hvw & Hvvnm & Hvvwc & Hvnmwc).
  assert (Hav : a ≠ v) by (intros ->; congruence).
  assert (Hnv : nm ≠ v) by (intros ->; congruence).
  assert (Hwv : wc ≠ v) by (intros ->; congruence).
  assert (Hww : wc ≠ vwc) by congruence.
  assert (Haw : a ≠ vwc) by (intros ->; congruence).
  set (k1 := mkK (<[v := OCv (set_cvLock (Ext.LockedBy (curthread c)) cvv)]> (heap k))
                 (brk k) (alloc_ok k) (log k ++ [EvSpinAcquire (cvLock_of (Some v))])).
  assert (Hlwf1 : lock_wf k1 a l lw).
  { split; [| split].
    - simpl. rewrite lookup_insert_ne by congruence. exact Ha.
    - exists nm, s. split; [exact Hnm |].
      simpl. rewrite lookup_insert_ne by congruence. exact Hs.
    - exists wc. split; [exact Hwc |].
      simpl. rewrite lookup_insert_ne by congruence. exact Hw. }
  destruct (lock_release_frame c t k1 a l lw Hlwf1 Hlfree Hcpu Hcur)
    as (k2 & wc' & Hwc' & Hrel & Hl2 & Hw2 & Hsame & Hlog).
  { rewrite Hz. vm_compute. reflexivity. }
  rewrite Hwc in Hwc'. injection Hwc' as <-.
  assert (Hv2 : heap k2 !! v = Some (OCv (set_cvLock (Ext.LockedBy (Some t)) cvv))).
  { rewrite Hsame by congruence. simpl. rewrite lookup_insert_eq, Hcur. reflexivity. }
  assert (Hvw2 : heap k2 !! vwc = Some (OWchan vw)).
  { rewrite Hsame by congruence. simpl. rewrite lookup_insert_ne by congruence.
    exact Hvw. }
  eexists _, vwc. split; [exact Hvwc |]. split.
  - unfold cv_wait.
    erewrite bind_run by reflexivity. erewrite bind_run by reflexivity.
    erewrite bind_run by (apply spinlock_acquire_cv_run; [exact Hv | exact Hvfree]).
    fold k1. erewrite bind_run by exact Hrel.
    erewrite bind_run by (apply cv_get_run; exact Hv2). simpl. rewrite Hvwc.
    apply (wchan_sleep_run vwc vw t); [exact Hvw2 | exact Hcur].
  - unfold cv_at, wchan_at, lock_at. simpl. rewrite Hwc. simpl.
    rewrite lookup_insert_eq. rewrite !lookup_insert_ne by congruence.
    rewrite Hv2, Hl2, Hw2. simpl.
    unfold set_cvLock, set_wc_threads, Ext.enqueue. rewrite Hvwc, Hwc, Hz.
    conjuncts; try reflexivity.
    intros c' lock' Hlock'. split.
    + eapply cv_signal_spins; [| | exact Hlock'].
      * simpl. rewrite lookup_insert_ne by congruence. exact Hv2.
      * discriminate.
    + eapply cv_broadcast_spins; [| | exact Hlock'].
      * simpl. rewrite lookup_insert_ne by congruence. exact Hv2.
      * discriminate.
Qed.

(** A, holding the lock, waits on the condition variable next to it; B's
    signal then spins. *)
Lemma cv_wait_sleeps_holding_guard_witness :
  ∃ k', cv_wait CV L thread_A A_about_to_wait = Asleep (Some 12%nat) k'
        ∧ cv_at k' CV = Some (mkCv (Some 11%nat) (Some 12%nat) (Ext.LockedBy (Some A)))
        ∧ wchan_at k' (Some 12%nat) = Some (mkWchan (Some 11%nat) [A])
        ∧ cv_signal CV L thread_B k' = Spinning (cvLock_of CV) k'.
Proof.
  destruct (cv_wait_sleeps_holding_guard thread_A A A_about_to_wait
              0%nat (mkLock (Some 1%nat) (Some 2%nat) Ext.Unlocked 0 (Some A))
              (mkWchan (Some 1%nat) [])
              10%nat (mkCv (Some 11%nat) (Some 12%nat) Ext.Unlocked)
              (mkWchan (Some 11%nat) []))
    as (k' & wc & Hwc & Hrun & Hcv & Hq & _ & _ & Hspin).
  - split; [vm_compute; reflexivity |]. split.
    + exists 1%nat, "L". split; [reflexivity | vm_compute; reflexivity].
    + exists 2%nat. split; [reflexivity | vm_compute; reflexivity].
  - split; [vm_compute; reflexivity |]. split.
    + exists 11%nat, "cv". split; [reflexivity | vm_compute; reflexivity].
    + exists 12%nat. split; [reflexivity | vm_compute; reflexivity].
  - reflexivity.
  - reflexivity.
  - discriminate.
  - reflexivity.
  - reflexivity.
  - reflexivity.
  - injection Hwc as <-. exists k'. split; [exact Hrun |].
    split; [exact Hcv |]. split; [exact Hq |].
    exact (proj1 (Hspin thread_B L eq_refl)).
Defined.

(** *** Checks on entry *)

(** X21: the checks lock_acquire makes before it touches the lock, in
    the order it makes them, for a caller that is a thread.  A NULL lock
    stops the kernel at line 198; a caller in interrupt context stops it
    at line 201; a caller that the owner field names stops it at line
    206, but only where thread identity is available.  Every other call
    goes on to the guard and the loop (line 210 on).  A check that fails
    leaves the kernel state as it was. *)
Theorem lock_acquire_entry_checks (c : cpu) (t : tid) (k : kstate) (a : addr)
    (l : lock) :
  heap k !! a = Some (OLock l) → curthread c = Some t →
  lock_acquire NULL c k = Panic (KASSERT_failed 198) k
  ∧ lock_acquire (Some a) c k
    = if t_in_interrupt c then Panic (KASSERT_failed 201) k
      else if CURCPU_EXISTS c && bool_decide (owner l = Some t)
           then Panic (KASSERT_failed 206) k
           else lock_acquire_wake (Some a) c k.
Proof.
  intros Ha Hcur. split; [reflexivity |].
  destruct (t_in_interrupt c) eqn:Hirq.
  - unfold lock_acquire, curthread_in_interrupt.
    erewrite bind_run by reflexivity.
    erewrite bind_run.
    2:{ erewrite bind_run by reflexivity. rewrite Hcur, Hirq. reflexivity. }
    reflexivity.
  - destruct (CURCPU_EXISTS c) eqn:Hcpu; simpl.
    + destruct (bool_decide (owner l = Some t)) eqn:Hown.
      * apply bool_decide_eq_true_1 in Hown.
        rewrite (lock_acquire_by_owner_field c t a l k Hcpu Hcur Ha Hown), Hirq.
        reflexivity.
      * apply bool_decide_eq_false_1 in Hown.
        apply (lock_acquire_enters c t k a l Ha Hcur Hirq). intros _. exact Hown.
    + apply (lock_acquire_enters c t k a l Ha Hcur Hirq). rewrite Hcpu. discriminate.
Qed.

(** A calls lock_acquire on the lock it holds. *)
Lemma lock_acquire_entry_checks_witness :
  lock_acquire L thread_A held_by_A = Panic (KASSERT_failed 206) held_by_A.
Proof.
  destruct (lock_acquire_entry_checks thread_A A held_by_A 0%nat
              (mkLock (Some 1%nat) (Some 2%nat) Ext.Unlocked 0 (Some A)))
    as (_ & Hchk).
  - vm_compute. reflexivity.
  - reflexivity.
  - exact Hchk.
Defined.

(** X22: what each function does with a NULL argument, in any state.
    sem_destroy, lock_destroy, lock_acquire, lock_release, cv_destroy,
    cv_wait, cv_signal and cv_broadcast assert on it first and stop the
    kernel at their own line with nothing touched; the condition
    variable is checked before the lock.  lock_do_i_hold has no such
    assertion: with thread identity available it answers true for NULL,
    and without, it reads through the NULL pointer. *)
Theorem NULL_arguments (c : cpu) (k : kstate) (p : ptr) :
  sem_destroy NULL c k = Panic (KASSERT_failed 79) k
  ∧ lock_destroy NULL c k = Panic (KASSERT_failed 180) k
  ∧ lock_acquire NULL c k = Panic (KASSERT_failed 198) k
  ∧ lock_release NULL c k = Panic (KASSERT_failed 250) k
  ∧ cv_destroy NULL c k = Panic (KASSERT_failed 326) k
  ∧ cv_wait NULL p c k = Panic (KASSERT_failed 345) k
  ∧ cv_signal NULL p c k = Panic (KASSERT_failed 371) k
  ∧ cv_broadcast NULL p c k = Panic (KASSERT_failed 389) k
  ∧ (nonnull p = true →
     cv_wait p NULL c k = Panic (KASSERT_failed 346) k
     ∧ cv_signal p NULL c k = Panic (KASSERT_failed 372) k
     ∧ cv_broadcast p NULL c k = Panic (KASSERT_failed 390) k)
  ∧ lock_do_i_hold NULL c k
    = if CURCPU_EXISTS c then Done true k else Panic bad_pointer k.
Proof.
  conjuncts; try reflexivity.
  - intros Hp. destruct p; [| discriminate]. conjuncts; reflexivity.
  - unfold lock_do_i_hold. erewrite bind_run by reflexivity.
    destruct (CURCPU_EXISTS c); reflexivity.
Qed.

(** cv_signal with a condition variable and no lock, by B. *)
Lemma NULL_arguments_witness :
  cv_signal CV NULL thread_B A_about_to_wait
  = Panic (KASSERT_failed 372) A_about_to_wait.
Proof.
  destruct (NULL_arguments thread_B A_about_to_wait CV)
    as (_ & _ & _ & _ & _ & _ & _ & _ & Hlock & _).
  exact (proj1 (proj2 (Hlock eq_refl))).
Defined.

(** *** Calls that cannot block *)

Lemma never_sleeps_alloc o : never_sleeps (alloc o).
Proof.
  intros c k wc k' H. unfold alloc in H.
  destruct (alloc_ok k) as [|[] ?]; discriminate.
Qed.

Lemma never_sleeps_kfree p : never_sleeps (kfree p).
Proof.
  intros c k wc k' H. unfold kfree in H.
  destruct p; [| discriminate]. destruct (heap k !! _); discriminate.
Qed.

#[local] Hint Resolve never_sleeps_ret never_sleeps_ask never_sleeps_die
  never_sleeps_KASSERT never_sleeps_emit never_sleeps_spin_on
  never_sleeps_load never_sleeps_store
  never_sleeps_lock_get never_sleeps_lock_set
  never_sleeps_cv_get never_sleeps_cv_set never_sleeps_sem_get never_sleeps_sem_set
  never_sleeps_wchan_get never_sleeps_wchan_set
  never_sleeps_spinlock_acquire never_sleeps_spinlock_release
  never_sleeps_wchan_wakeone never_sleeps_alloc never_sleeps_kfree : awake.

Lemma never_sleeps_spinlock_init r : never_sleeps (spinlock_init r).
Proof. unfold spinlock_init, store_spin. destruct r; awake. Qed.

Lemma never_sleeps_spinlock_cleanup r : never_sleeps (spinlock_cleanup r).
Proof. unfold spinlock_cleanup, load_spin. destruct r; awake. Qed.

Lemma never_sleeps_wchan_destroy wc : never_sleeps (wchan_destroy wc).
Proof. unfold wchan_destroy. awake. Qed.

Lemma never_sleeps_wchan_wakeall wc r : never_sleeps (wchan_wakeall wc r).
Proof. unfold wchan_wakeall. awake. Qed.

#[local] Hint Resolve never_sleeps_spinlock_init never_sleeps_spinlock_cleanup
  never_sleeps_wchan_destroy never_sleeps_wchan_wakeall : awake.

(** X23: the calls that cannot block.  In no state and on no processor
    does a call of sem_create, sem_destroy, lock_create, lock_destroy,
    lock_release, lock_do_i_hold, cv_create, cv_destroy, cv_signal or
    cv_broadcast end asleep on a wait channel: none of them reaches
    wchan_sleep, so each may be called where sleeping is not allowed.
    (They may still spin on a guard, or stop the kernel.) *)
Theorem calls_that_cannot_block (name : string) (n : Z) (js : semaphore) (jl : lock)
    (jc : cv) (p q : ptr) :
  never_sleeps (sem_create name n js)
  ∧ never_sleeps (sem_destroy p)
  ∧ never_sleeps (lock_create name jl)
  ∧ never_sleeps (lock_destroy p)
  ∧ never_sleeps (lock_release p)
  ∧ never_sleeps (lock_do_i_hold p)
  ∧ never_sleeps (cv_create name jc)
  ∧ never_sleeps (cv_destroy p)
  ∧ never_sleeps (cv_signal p q)
  ∧ never_sleeps (cv_broadcast p q).
Proof.
  conjuncts.
  - unfold sem_create, kmalloc, kstrdup, wchan_create. awake.
  - unfold sem_destroy. awake.
  - unfold lock_create, kmalloc, kstrdup, wchan_create, spinlock_initialize. awake.
  - unfold lock_destroy. awake.
  - apply never_sleeps_lock_release.
  - unfold lock_do_i_hold. awake.
  - unfold cv_create, kmalloc, kstrdup, wchan_create. awake.
  - unfold cv_destroy. awake.
  - unfold cv_signal. awake.
  - unfold cv_broadcast. awake.
Qed.

End SynchExtra.
